(** * Bowls Performance Tracker: the analytics module

    A shallow embedding of the aggregation code of the analytics module
    ([getPlayerStats], [getGameSummaries], the form indicators of
    [renderPlayerStatsHTML] and [renderComparisonTable], and the
    [analyticsCache] with [invalidateAnalyticsCache]), followed by the
    properties proved about it.

    The embedding goes on with the code around it: the player names and
    the comparison of the players ([getAllPlayerNames],
    [renderTeamComparison], [filterComparison]), the dashboard with a
    game selected ([applyPlayerFilters]), the drill-down of a game
    ([showGameDrillDown], [filterDrillDownByPlayer]), the CSV export
    ([escapeCSV], [toCSV], the figures of [exportTournamentSummary]),
    and, of the recording of a game, the score of a new bowl
    ([getDistanceCategory], [getResultCategory],
    [calculateFrontEndScore], the scoring block of [handleCanvasClick])
    and the turn logic ([advanceToNextPlayer], [nextEnd]).  Of the
    functions that render a page, the values they compute are embedded,
    not the markup they are written into.

    Conventions of the embedding:
    - a JS number that the code only ever uses as an integer (score, end
      number, counts) is a [Z] or a [nat]; a number that is divided,
      averaged or measured (distances, averages, rates) is a rational
      [Q] that stands for the double nearest to it, [fl q].  The quotient
      of two integers is kept exact: it stands for the double that the
      one division returns.  In three places the code computes on with
      a rounded result, and the rounding is written out with [fl]: the
      product [dist * 30] that decides the distance zone, the success
      rates [good / total * 100], and the difference that decides the
      form indicator.  A number in a cell of the CSV export is printed
      with the digits of its double ([numberString]).  [round2] rounds
      the exact average half up, where the code rounds the double
      [avg * 100]: at an average halfway between two multiples of 0.01
      the code may show the lower one (1.02 for 41/40), so the
      statements about a rounded average say that it is a multiple of
      0.01 nearest to the average ([rounded2]), which holds of both;
    - a property that may be missing is a [js A]: [JUndefined], [JNull]
      or a value; [a || b] and [a !== undefined] are written out with the
      truthiness of JS;
    - an ordinary JS object used as a dictionary whose iteration order is
      observed ([Object.entries], [Object.values]) is a [JsObj.t];
    - [analyticsCache], whose order is never observed, is a [gmap] of
      stdpp;
    - [Math.sqrt] is the square root of the real numbers: the rounded
      value that the code keeps is computed on integers and proved to be
      the rounding of the real square root ([round2_sqrt_real]);
    - [await getAllBowls()] and [await getAllGames()] are the two list
      arguments [allBowls] and [allGames]: the content of the store when
      the function runs. *)

From Stdlib Require Import Reals Qreals Lra.
From Stdlib Require Import ZArith QArith Qround Qabs Qpower Lia Lqa List Bool Sorted.
From Stdlib Require Import String Ascii.
From stdpp Require Import gmap strings pretty.

Import ListNotations.
Local Open Scope Z_scope.

(** ** JS values *)

Inductive js (A : Type) : Type :=
| JUndefined
| JNull
| JVal (a : A).
Arguments JUndefined {A}.
Arguments JNull {A}.
Arguments JVal {A} a.

(** The falsy values of a type: [0] for numbers, the empty string for
    strings, [false] for booleans; arrays are always truthy. *)
Class Falsy (A : Type) := falsy : A -> bool.
#[global] Instance falsy_Z : Falsy Z := fun z => Z.eqb z 0.
#[global] Instance falsy_Q : Falsy Q := fun q => Qeq_bool q 0.
#[global] Instance falsy_string : Falsy string := fun s => String.eqb s "".
#[global] Instance falsy_bool : Falsy bool := negb.
#[global] Instance falsy_list {A} : Falsy (list A) := fun _ => false.

Definition truthy {A} `{Falsy A} (x : js A) : bool :=
  match x with
  | JVal a => negb (falsy a)
  | _ => false
  end.

(** [x || y] *)
Definition jsor {A} `{Falsy A} (x y : js A) : js A :=
  if truthy x then x else y.

(** [x || d] where [d] is a literal of the type: the result is a value. *)
Definition jsor_def {A} `{Falsy A} (x : js A) (d : A) : A :=
  match x with
  | JVal a => if falsy a then d else a
  | _ => d
  end.

(** [x !== undefined] *)
Definition defined {A} (x : js A) : bool :=
  match x with
  | JUndefined => false
  | _ => true
  end.

(** [x !== undefined && x !== null] *)
Definition defined_nonnull {A} (x : js A) : bool :=
  match x with
  | JVal _ => true
  | _ => false
  end.

(** ** Stored records *)

(** A bowl as [getAllBowls] returns it.  Only the properties the analytics
    code reads are kept. *)
Module Bowl.
Record t : Type := mk {
  gameId : string;
  playerId : string;
  team : string;
  position : string;
  endNumber : Z;
  score : js Z;
  scoreValue : js Z;
  distance : js Q;
  distanceInFeet : js Q;
  hand : js string;
  resultCategory : js string;
  direction : js string
}.
End Bowl.

(** A game as [getAllGames] returns it.  [date] is the time value of
    [new Date(game.date)], [None] when the date does not parse (an
    invalid date, whose difference with any date is NaN). *)
Module Game.
Record t : Type := mk {
  id : string;
  tournamentId : js string;
  tournamentName : js string;
  gameNumber : js Z;
  format : js string;
  gameType : js string;
  date : option Z;
  players : js (list string);
  yourPlayers : js (list string);
  opponentPlayers : js (list string);
  endCount : js Z;
  totalEnds : js Z;
  currentEnd : js Z;
  completed : js bool;
  notes : js string;
  gameNotes : js string
}.
End Game.

(** ** Arrays *)

(** [Array.prototype.sort(cmp)] is stable: an element [x] that stands
    before [y] stays before it unless [cmp(x, y) > 0].  [le x y] is
    [cmp(x, y) <= 0]; for a consistent comparator every stable sort
    gives the same array, here by insertion. *)
Fixpoint insert_by {A} (le : A -> A -> bool) (x : A) (l : list A) : list A :=
  match l with
  | [] => [x]
  | y :: r => if le x y then x :: y :: r else y :: insert_by le x r
  end.

Definition sort_by {A} (le : A -> A -> bool) (l : list A) : list A :=
  fold_right (insert_by le) [] l.

(** [l.sort((a, b) => cmp(a, b))] for a numeric comparator. *)
Definition js_sort {A} (cmp : A -> A -> Q) (l : list A) : list A :=
  sort_by (fun x y => Qle_bool (cmp x y) 0) l.

(** [[...new Set(l)]]: the distinct elements in order of first
    occurrence. *)
Definition uniq (l : list string) : list string :=
  fold_left (fun seen x => if existsb (String.eqb x) seen then seen else seen ++ [x]) l [].

(** [l.indexOf(x)], [-1] when absent. *)
Fixpoint indexOf (x : string) (l : list string) : Z :=
  match l with
  | [] => -1
  | y :: r => if String.eqb x y then 0
              else let i := indexOf x r in if i <? 0 then -1 else i + 1
  end.

(** [l[l.length - 1]] *)
Definition last_opt {A} (l : list A) : option A :=
  List.last (map Some l) None.

(** ** Ordinary objects used as dictionaries *)

Module JsObj.

(** The own string-keyed properties in order of creation. *)
Definition t (V : Type) : Type := list (string * V).

Definition empty {V} : t V := [].

(** [o[k]], [None] for [undefined]. *)
Fixpoint get {V} (k : string) (o : t V) : option V :=
  match o with
  | [] => None
  | (k', v) :: r => if String.eqb k k' then Some v else get k r
  end.

(** [o[k] = v]: an existing property keeps its place, a new one is
    created last. *)
Fixpoint set {V} (k : string) (v : V) (o : t V) : t V :=
  match o with
  | [] => [(k, v)]
  | (k', v') :: r => if String.eqb k k' then (k', v) :: r else (k', v') :: set k v r
  end.

(** The names every ordinary object inherits from [Object.prototype].
    For such a name [o[k]] is never [undefined]: without an own property
    it is the inherited value, a function or the prototype itself, and
    truthy. *)
Definition inherited (k : string) : bool :=
  existsb (String.eqb k)
    ["constructor"; "hasOwnProperty"; "isPrototypeOf"; "propertyIsEnumerable";
     "toLocaleString"; "toString"; "valueOf"; "__proto__";
     "__defineGetter__"; "__defineSetter__"; "__lookupGetter__"; "__lookupSetter__"].

(** A mutation of the object stored at [o[k]].  Without an own property
    [k] the mutation reaches the inherited value and [o] is unchanged. *)
Fixpoint alter {V} (f : V -> V) (k : string) (o : t V) : t V :=
  match o with
  | [] => []
  | (k', v) :: r => if String.eqb k k' then (k', f v) :: r else (k', v) :: alter f k r
  end.

Definition digit_of (c : ascii) : option N :=
  let n := N_of_ascii c in
  if ((48 <=? n) && (n <=? 57))%N then Some (n - 48)%N else None.

Fixpoint parse_digits (acc : N) (s : string) : option N :=
  match s with
  | EmptyString => Some acc
  | String c r =>
      match digit_of c with
      | Some d => parse_digits (10 * acc + d)%N r
      | None => None
      end
  end.

(** A property key is an array index when it is the canonical decimal
    string of an integer below [2^32 - 1]. *)
Definition arrayIndex (k : string) : option N :=
  match parse_digits 0 k with
  | Some n => if String.eqb (pretty n) k && (n <? 4294967295)%N then Some n else None
  | None => None
  end.

Definition indexed {V} (o : t V) : list (N * (string * V)) :=
  flat_map (fun kv => match arrayIndex (fst kv) with
                      | Some n => [(n, kv)]
                      | None => []
                      end) o.

Definition named {V} (o : t V) : list (string * V) :=
  List.filter (fun kv => match arrayIndex (fst kv) with
                         | Some _ => false
                         | None => true
                         end) o.

(** [Object.entries(o)]: array-index keys in ascending numeric order,
    then the other keys in order of creation. *)
Definition entries {V} (o : t V) : list (string * V) :=
  map snd (sort_by (fun x y => (fst x <=? fst y)%N) (indexed o)) ++ named o.

(** [Object.values(o)] *)
Definition values {V} (o : t V) : list V := map snd (entries o).

End JsObj.

(** ** Numbers *)

(** [total / count] *)
Definition ratio (total : Z) (count : nat) : Q :=
  inject_Z total / inject_Z (Z.of_nat count).

(** [Math.round(x * 100) / 100] with [x * 100] exact; [Math.round]
    rounds halves up. *)
Definition round2 (x : Q) : Q :=
  inject_Z (Qfloor (x * 100 + (1 # 2))) / 100.

(** [Math.round(Math.sqrt(v) * 100) / 100] for [v >= 0].  The square
    root of a rational is in general irrational; the rounded value is
    computed exactly: [Math.round(100 * sqrt v)] is the integer [k] with
    [2k - 1 <= sqrt (40000 v) < 2k + 1], that is
    [k = (isqrt (floor (40000 v)) + 1) / 2]. *)
Definition round2_sqrt (v : Q) : Q :=
  inject_Z ((Z.sqrt (Qfloor (v * 40000)) + 1) / 2) / 100.

(** [x < y] on JS numbers *)
Definition Qlt_bool (x y : Q) : bool := negb (Qle_bool y x).

(** ** Double precision

    A JS number is an IEEE 754 binary64 number, and every arithmetic
    operation returns the binary64 number nearest to the exact result,
    a tie going to the even significand.  [fl x] is that number for the
    exact result [x]: with [e = ilog2 |x|] the binade of [x], the
    significand [x / 2^(e - 52)] is rounded to an integer by [rne]; below
    [2^-1022] the spacing stays [2^-1074].  Overflow to [Infinity] (from
    [2^1024]) is not modelled: no number of the program comes near it. *)

(** [floor (log2 x)] for [x > 0] *)
Definition ilog2 (x : Q) : Z :=
  let k := Z.log2 (Qnum x) - Z.log2 (Z.pos (Qden x)) in
  if Qle_bool (2 ^ k) x then k else k - 1.

(** The integer nearest to [x], the even one of the two when [x] lies
    halfway. *)
Definition rne (x : Q) : Z :=
  let f := Qfloor x in
  match Qcompare (x - inject_Z f) (1 # 2) with
  | Lt => f
  | Gt => f + 1
  | Eq => if Z.even f then f else f + 1
  end.

(** The exponent of the spacing of the binary64 numbers around [x]. *)
Definition ulp_exp (x : Q) : Z := Z.max (ilog2 (Qabs x) - 52) (-1074).

Definition fl (x : Q) : Q :=
  if Qeq_bool x 0 then 0%Q
  else (inject_Z (rne (x / 2 ^ ulp_exp x)) * 2 ^ ulp_exp x)%Q.

(** ** The statistics object *)

Module Zone.
Record t : Type := mk { total : nat; good : nat }.
End Zone.

Module BowlDistribution.
Record t : Type := mk { short : nat; medium : nat; long : nat }.
End BowlDistribution.

Module HandDistribution.
Record t : Type := mk { forehand : nat; backhand : nat }.
End HandDistribution.

Module GamePerf.
Record t : Type := mk {
  gameId : string;
  gameName : string;
  date : option Z;
  avgScore : Q;
  bowlCount : nat;
  format : js string
}.
End GamePerf.

(** An entry of [endScores]; the property [end] is [end_] here. *)
Module EndScore.
Record t : Type := mk { total : Z; count : nat; end_ : Z; gameId : string }.
End EndScore.

(** An element of [endAvgs]: [{ ...e, avg }]. *)
Module EndAvg.
Record t : Type := mk { total : Z; count : nat; end_ : Z; gameId : string; avg : Q }.
End EndAvg.

Module Stats.
Record t : Type := mk {
  playerName : string;
  totalBowls : nat;
  gamesPlayed : nat;
  positions : list string;
  avgScore : Q;
  scoreDistribution : JsObj.t nat;
  distanceSuccessRates : JsObj.t Q;
  bowlDistribution : BowlDistribution.t;
  handDistribution : HandDistribution.t;
  gamePerformance : list GamePerf.t;
  bestEnd : option EndAvg.t;
  worstEnd : option EndAvg.t;
  consistency : Q;
  clutchAvg : Q;
  directionBreakdown : JsObj.t (option nat)
}.
End Stats.

(** ** [getPlayerStats] *)

(** [b.scoreValue || b.score || 0] *)
Definition scoreOr0 (b : Bowl.t) : Z :=
  jsor_def (jsor (Bowl.scoreValue b) (Bowl.score b)) 0.

(** [b.scoreValue !== undefined ? b.scoreValue : (b.score || 0)] *)
Definition rawScore (b : Bowl.t) : js Z :=
  if defined (Bowl.scoreValue b) then Bowl.scoreValue b
  else JVal (jsor_def (Bowl.score b) 0).

(** [s >= 3]; [null] converts to [0]. *)
Definition ge3 (s : js Z) : bool :=
  match s with
  | JVal z => 3 <=? z
  | _ => false
  end.

(** The property key a score converts to. *)
Definition scoreKey (s : js Z) : string :=
  match s with
  | JVal z => pretty z
  | JNull => "null"
  | JUndefined => "undefined"
  end.

(** [b.distance || b.distanceInFeet || 0] *)
Definition distOr0 (b : Bowl.t) : Q :=
  jsor_def (jsor (Bowl.distance b) (Bowl.distanceInFeet b)) 0%Q.

(** ['player_' + playerName + (filterGameId ? '_game_' + filterGameId : '')] *)
Definition cacheKey (playerName : string) (filterGameId : js string) : string :=
  "player_" +:+ playerName +:+
  (match filterGameId with
   | JVal g => if falsy g then "" else "_game_" +:+ g
   | _ => ""
   end).

(** [if (filterGameId) allBowls = allBowls.filter(b => b.gameId === filterGameId)] *)
Definition filterByGame (filterGameId : js string) (allBowls : list Bowl.t) : list Bowl.t :=
  match filterGameId with
  | JVal g => if falsy g then allBowls
              else List.filter (fun b => String.eqb (Bowl.gameId b) g) allBowls
  | _ => allBowls
  end.

Definition playerBowlsOf (playerName : string) (filterGameId : js string)
    (allBowls : list Bowl.t) : list Bowl.t :=
  List.filter (fun b => String.eqb (Bowl.playerId b) playerName
                        && String.eqb (Bowl.team b) "yours")
    (filterByGame filterGameId allBowls).

Definition gameIdsOf (playerBowls : list Bowl.t) : list string :=
  uniq (map Bowl.gameId playerBowls).

Definition positionsOf (playerBowls : list Bowl.t) : list string :=
  uniq (map Bowl.position playerBowls).

Definition scoredBowlsOf (playerBowls : list Bowl.t) : list Bowl.t :=
  List.filter (fun b => defined_nonnull (Bowl.score b)) playerBowls.

(** [l.length > 0 ? l.reduce((s, b) => s + (b.scoreValue || b.score || 0), 0) / l.length : 0] *)
Definition meanScore (l : list Bowl.t) : Q :=
  if (0 <? length l)%nat
  then ratio (fold_left (fun sum b => sum + scoreOr0 b) l 0) (length l)
  else 0%Q.

Definition avgScoreOf (scoredBowls : list Bowl.t) : Q := meanScore scoredBowls.

Definition scoreDistribution0 : JsObj.t nat :=
  [("0", 0%nat); ("1", 0%nat); ("2", 0%nat); ("3", 0%nat); ("4", 0%nat)].

(** [scoreDistribution[s] = (scoreDistribution[s] || 0) + 1] for every
    scored bowl. *)
Definition scoreDistributionOf (scoredBowls : list Bowl.t) : JsObj.t nat :=
  fold_left (fun dist b =>
               let s := scoreKey (rawScore b) in
               JsObj.set s (default 0%nat (JsObj.get s dist) + 1)%nat dist)
    scoredBowls scoreDistribution0.

Definition distanceZones0 : JsObj.t Zone.t :=
  [("Close (<20cm)", Zone.mk 0 0);
   ("Medium (20-50cm)", Zone.mk 0 0);
   ("Far (>50cm)", Zone.mk 0 0)].

(** [dist] is the stored double [fl dist]; the product [dist * 30] is
    rounded before it is compared. *)
Definition zoneOf (b : Bowl.t) : string :=
  let dist := distOr0 b in
  let distCm := fl (fl dist * 30) in
  if Qlt_bool distCm 20 then "Close (<20cm)"
  else if Qlt_bool distCm 50 then "Medium (20-50cm)"
  else "Far (>50cm)".

Definition distanceZonesOf (playerBowls : list Bowl.t) : JsObj.t Zone.t :=
  fold_left (fun zones b =>
               let zone := zoneOf b in
               let zones := JsObj.alter (fun d => Zone.mk (S (Zone.total d)) (Zone.good d))
                              zone zones in
               let score := rawScore b in
               if ge3 score
               then JsObj.alter (fun d => Zone.mk (Zone.total d) (S (Zone.good d))) zone zones
               else zones)
    playerBowls distanceZones0.

(** [data.total > 0 ? (data.good / data.total * 100) : 0]: the quotient
    is rounded, then the product. *)
Definition successRate (data : Zone.t) : Q :=
  if (0 <? Zone.total data)%nat
  then fl (fl (inject_Z (Z.of_nat (Zone.good data)) / inject_Z (Z.of_nat (Zone.total data)))
           * 100)
  else 0%Q.

Definition distanceSuccessRatesOf (distanceZones : JsObj.t Zone.t) : JsObj.t Q :=
  fold_left (fun rates zd => JsObj.set (fst zd) (successRate (snd zd)) rates)
    (JsObj.entries distanceZones) JsObj.empty.

Definition bowlDistributionOf (playerBowls : list Bowl.t) : BowlDistribution.t :=
  fold_left (fun d b =>
               let dist := distOr0 b in
               if Qlt_bool dist (67 # 100)
               then BowlDistribution.mk (S (BowlDistribution.short d))
                      (BowlDistribution.medium d) (BowlDistribution.long d)
               else if Qlt_bool dist (167 # 100)
               then BowlDistribution.mk (BowlDistribution.short d)
                      (S (BowlDistribution.medium d)) (BowlDistribution.long d)
               else BowlDistribution.mk (BowlDistribution.short d)
                      (BowlDistribution.medium d) (S (BowlDistribution.long d)))
    playerBowls (BowlDistribution.mk 0 0 0).

Definition handDistributionOf (playerBowls : list Bowl.t) : HandDistribution.t :=
  fold_left (fun d b =>
               let hand := jsor_def (Bowl.hand b) "forehand" in
               if String.eqb hand "backhand"
               then HandDistribution.mk (HandDistribution.forehand d)
                      (S (HandDistribution.backhand d))
               else HandDistribution.mk (S (HandDistribution.forehand d))
                      (HandDistribution.backhand d))
    playerBowls (HandDistribution.mk 0 0).

(** [allGames.find(g => g.id === gid)] *)
Definition findGame (allGames : list Game.t) (gid : string) : option Game.t :=
  List.find (fun g => String.eqb (Game.id g) gid) allGames.

(** [new Date(a) - new Date(b)] as [sort] reads it: a NaN result counts
    as [+0]. *)
Definition dateDiff (a b : option Z) : Q :=
  match a, b with
  | Some x, Some y => inject_Z (x - y)
  | _, _ => 0%Q
  end.

(** The mean of a game's bowls; here a bowl counts as scored when
    [b.score !== undefined]. *)
Definition gamePerfOf (playerBowls : list Bowl.t) (allGames : list Game.t)
    (gameIds : list string) (gid : string) : GamePerf.t :=
  let gameBowls := List.filter (fun b => String.eqb (Bowl.gameId b) gid) playerBowls in
  let game := findGame allGames gid in
  let gameScored := List.filter (fun b => defined (Bowl.score b)) gameBowls in
  let gameAvg := meanScore gameScored in
  GamePerf.mk gid
    (match game with
     | Some g => "Game " +:+ pretty (jsor_def (Game.gameNumber g) (indexOf gid gameIds + 1))
     | None => gid
     end)
    (match game with Some g => Game.date g | None => None end)
    gameAvg
    (length gameBowls)
    (match game with Some g => Game.format g | None => JVal "" end).

Definition gamePerformanceOf (playerBowls : list Bowl.t) (allGames : list Game.t)
    (gameIds : list string) : list GamePerf.t :=
  js_sort (fun a b => dateDiff (GamePerf.date a) (GamePerf.date b))
    (map (gamePerfOf playerBowls allGames gameIds) gameIds).

(** [b.gameId + '_' + b.endNumber]; an integer prints in decimal digits
    (up to [10^21], far above any end number). *)
Definition endKey (b : Bowl.t) : string :=
  Bowl.gameId b +:+ "_" +:+ pretty (Bowl.endNumber b).

Definition endScoresOf (playerBowls : list Bowl.t) : JsObj.t EndScore.t :=
  fold_left (fun endScores b =>
               let key := endKey b in
               let endScores :=
                 match JsObj.get key endScores with
                 | Some _ => endScores
                 | None =>
                     if JsObj.inherited key then endScores
                     else JsObj.set key
                            (EndScore.mk 0 0 (Bowl.endNumber b) (Bowl.gameId b)) endScores
                 end in
               JsObj.alter (fun e => EndScore.mk (EndScore.total e + scoreOr0 b)
                                       (S (EndScore.count e))
                                       (EndScore.end_ e) (EndScore.gameId e))
                 key endScores)
    playerBowls JsObj.empty.

Definition endAvgOf (e : EndScore.t) : EndAvg.t :=
  EndAvg.mk (EndScore.total e) (EndScore.count e) (EndScore.end_ e) (EndScore.gameId e)
    (if (0 <? EndScore.count e)%nat then ratio (EndScore.total e) (EndScore.count e)
     else 0%Q).

(** [Object.values(endScores).map(...)] sorted by [(a, b) => b.avg - a.avg]. *)
Definition endAvgsOf (endScores : JsObj.t EndScore.t) : list EndAvg.t :=
  js_sort (fun a b => (EndAvg.avg b - EndAvg.avg a)%Q)
    (map endAvgOf (JsObj.values endScores)).

(** [endAvgs[0] || null] *)
Definition bestEndOf (endAvgs : list EndAvg.t) : option EndAvg.t := head endAvgs.

(** [endAvgs[endAvgs.length - 1] || null] *)
Definition worstEndOf (endAvgs : list EndAvg.t) : option EndAvg.t := last_opt endAvgs.

(** [scores.length > 0
      ? scores.reduce((sum, s) => sum + Math.pow(s - mean, 2), 0) / scores.length : 0] *)
Definition varianceOf (scores : list Z) (mean : Q) : Q :=
  if (0 <? length scores)%nat
  then (fold_left (fun sum s => sum + (inject_Z s - mean) ^ 2) scores 0
        / inject_Z (Z.of_nat (length scores)))%Q
  else 0%Q.

(** [game.endCount || game.totalEnds || 21] *)
Definition totalEndsOf (game : Game.t) : Z :=
  jsor_def (jsor (Game.endCount game) (Game.totalEnds game)) 21.

Definition clutchBowlsOf (playerBowls : list Bowl.t) (allGames : list Game.t) : list Bowl.t :=
  List.filter (fun b =>
                 match findGame allGames (Bowl.gameId b) with
                 | None => false
                 | Some game =>
                     let totalEnds := totalEndsOf game in
                     Bowl.endNumber b >? totalEnds - 3
                 end) playerBowls.

Definition clutchAvgOf (playerBowls : list Bowl.t) (allGames : list Game.t) : Q :=
  let clutchBowls := clutchBowlsOf playerBowls allGames in
  let clutchScored := List.filter (fun b => defined (Bowl.score b)) clutchBowls in
  meanScore clutchScored.

(** The counters of [directionBreakdown]; [None] is NaN. *)
Definition directionBreakdown0 : JsObj.t (option nat) :=
  [("Short", Some 0%nat); ("Jack High", Some 0%nat); ("Past", Some 0%nat)].

(** [if (directionBreakdown[dir] !== undefined) directionBreakdown[dir]++].
    For a name inherited from [Object.prototype] the test holds and the
    increment of the inherited value stores NaN in an own property;
    assigning a number to [__proto__] does nothing. *)
Definition directionBreakdownOf (playerBowls : list Bowl.t) : JsObj.t (option nat) :=
  fold_left (fun d b =>
               let dir := jsor_def (jsor (Bowl.resultCategory b) (Bowl.direction b)) "" in
               match JsObj.get dir d with
               | Some _ => JsObj.alter (option_map S) dir d
               | None =>
                   if JsObj.inherited dir && negb (String.eqb dir "__proto__")
                   then JsObj.set dir None d
                   else d
               end)
    playerBowls directionBreakdown0.

(** The object literal [stats] built at the end of [getPlayerStats]. *)
Definition statsOf (playerName : string) (playerBowls : list Bowl.t)
    (allGames : list Game.t) : Stats.t :=
  let gameIds := gameIdsOf playerBowls in
  let scoredBowls := scoredBowlsOf playerBowls in
  let avgScore := avgScoreOf scoredBowls in
  let scores := map scoreOr0 scoredBowls in
  let mean := avgScore in
  let variance := varianceOf scores mean in
  let endAvgs := endAvgsOf (endScoresOf playerBowls) in
  Stats.mk playerName
    (length playerBowls)
    (length gameIds)
    (positionsOf playerBowls)
    (round2 avgScore)
    (scoreDistributionOf scoredBowls)
    (distanceSuccessRatesOf (distanceZonesOf playerBowls))
    (bowlDistributionOf playerBowls)
    (handDistributionOf playerBowls)
    (gamePerformanceOf playerBowls allGames gameIds)
    (bestEndOf endAvgs)
    (worstEndOf endAvgs)
    (round2_sqrt variance)
    (round2 (clutchAvgOf playerBowls allGames))
    (directionBreakdownOf playerBowls).

(** [analyticsCache = {}] *)
Definition invalidateAnalyticsCache (analyticsCache : gmap string Stats.t)
  : gmap string Stats.t := ∅.

(** [getPlayerStats(playerName, filterGameId)]: the result ([None] for
    [null]) and the cache after the call. *)
Definition getPlayerStats (analyticsCache : gmap string Stats.t)
    (allBowls : list Bowl.t) (allGames : list Game.t)
    (playerName : string) (filterGameId : js string)
  : option Stats.t * gmap string Stats.t :=
  let cacheKey := cacheKey playerName filterGameId in
  match analyticsCache !! cacheKey with
  | Some cached => (Some cached, analyticsCache)
  | None =>
      let playerBowls := playerBowlsOf playerName filterGameId allBowls in
      if (length playerBowls =? 0)%nat then (None, analyticsCache)
      else
        let stats := statsOf playerName playerBowls allGames in
        (Some stats, <[cacheKey := stats]> analyticsCache)
  end.

(** ** [getGameSummaries] *)

Module PlayerScore.
Record t : Type := mk { total : Z; count : nat }.
End PlayerScore.

Module Summary.
Record t : Type := mk {
  id : string;
  tournamentId : js string;
  tournamentName : string;
  gameNumber : Z;
  format : js string;
  gameType : string;
  date : option Z;
  players : list string;
  opponentName : string;
  totalEnds : Z;
  currentEnd : Z;
  totalBowls : nat;
  avgScore : Q;
  topPerformer : string;
  topAvg : Q;
  completed : bool;
  notes : string
}.
End Summary.

Definition playerScoresOf (yourBowls : list Bowl.t) : JsObj.t PlayerScore.t :=
  fold_left (fun playerScores b =>
               let playerScores :=
                 match JsObj.get (Bowl.playerId b) playerScores with
                 | Some _ => playerScores
                 | None =>
                     if JsObj.inherited (Bowl.playerId b) then playerScores
                     else JsObj.set (Bowl.playerId b) (PlayerScore.mk 0 0) playerScores
                 end in
               JsObj.alter (fun d => PlayerScore.mk (PlayerScore.total d + scoreOr0 b)
                                       (S (PlayerScore.count d)))
                 (Bowl.playerId b) playerScores)
    yourBowls JsObj.empty.

(** [data.count > 0 ? data.total / data.count : 0] *)
Definition playerAvg (data : PlayerScore.t) : Q :=
  if (0 <? PlayerScore.count data)%nat
  then ratio (PlayerScore.total data) (PlayerScore.count data)
  else 0%Q.

(** The loop over [Object.entries(playerScores)], from
    [topPerformer = ''] and [topAvg = 0]; the state is
    [(topPerformer, topAvg)]. *)
Definition topPerformerOf (playerScores : JsObj.t PlayerScore.t) : string * Q :=
  fold_left (fun top nd =>
               let avg := playerAvg (snd nd) in
               if Qlt_bool (snd top) avg then (fst nd, avg) else top)
    (JsObj.entries playerScores) ("", 0%Q).

(** [(game.opponentPlayers || [])[0] || ''] *)
Definition opponentNameOf (game : Game.t) : string :=
  match jsor_def (Game.opponentPlayers game) [] with
  | [] => ""
  | s :: _ => s
  end.

Definition summaryOf (allBowls : list Bowl.t) (game : Game.t) : Summary.t :=
  let gameBowls := List.filter (fun b => String.eqb (Bowl.gameId b) (Game.id game)) allBowls in
  let yourBowls := List.filter (fun b => String.eqb (Bowl.team b) "yours") gameBowls in
  let scoredBowls := List.filter (fun b => defined (Bowl.score b)) yourBowls in
  let avgScore := meanScore scoredBowls in
  let top := topPerformerOf (playerScoresOf yourBowls) in
  Summary.mk (Game.id game)
    (Game.tournamentId game)
    (jsor_def (Game.tournamentName game) "")
    (jsor_def (Game.gameNumber game) 0)
    (Game.format game)
    (jsor_def (Game.gameType game) "game")
    (Game.date game)
    (jsor_def (jsor (Game.players game) (Game.yourPlayers game)) [])
    (opponentNameOf game)
    (jsor_def (jsor (Game.endCount game) (Game.totalEnds game)) 21)
    (jsor_def (jsor (Game.currentEnd game) (Game.totalEnds game)) 21)
    (length gameBowls)
    (round2 avgScore)
    (fst top)
    (round2 (snd top))
    (jsor_def (Game.completed game) false)
    (jsor_def (jsor (Game.notes game) (Game.gameNotes game)) "").

(** [allGames.map(...).sort((a, b) => new Date(b.date) - new Date(a.date))] *)
Definition getGameSummaries (allGames : list Game.t) (allBowls : list Bowl.t)
  : list Summary.t :=
  js_sort (fun a b => dateDiff (Summary.date b) (Summary.date a))
    (map (summaryOf allBowls) allGames).

(** ** The form indicators *)

(** [s.gamePerformance[s.gamePerformance.length - 1]?.avgScore || 0] *)
Definition recentAvg (s : Stats.t) : Q :=
  match last_opt (Stats.gamePerformance s) with
  | Some g => GamePerf.avgScore g
  | None => 0%Q
  end.

(** In [renderComparisonTable]: the entity of the form icon,
    ["&#9650;"] (up), ["&#9660;"] (down) or ["&#9654;"] (right).  The
    two averages are the stored doubles, their difference is rounded,
    and [0.3] is the double [fl (3 # 10)]. *)
Definition formIcon (s : Stats.t) : string :=
  let recentPerf :=
    if (2 <=? length (Stats.gamePerformance s))%nat then recentAvg s
    else Stats.avgScore s in
  let formDiff := fl (fl recentPerf - fl (Stats.avgScore s)) in
  if Qlt_bool (fl (3 # 10)) formDiff then "&#9650;"
  else if Qlt_bool formDiff (- fl (3 # 10)) then "&#9660;"
  else "&#9654;".

(** In [renderPlayerStatsHTML]: the [span] of the form indicator, as its
    class and its text. *)
Definition formIndicator (s : Stats.t) : string * string :=
  if (2 <=? length (Stats.gamePerformance s))%nat
  then
    let recent := recentAvg s in
    let diff := fl (fl recent - fl (Stats.avgScore s)) in
    if Qlt_bool (fl (3 # 10)) diff then ("form-up", "&#9650; Rising")
    else if Qlt_bool diff (- fl (3 # 10)) then ("form-down", "&#9660; Declining")
    else ("form-steady", "&#9654; Steady")
  else ("form-steady", "--").

(** ** Vocabulary of the statements *)

(** The mean of a list of scores, [0] for the empty list. *)
Definition meanOf (scores : list Z) : Q :=
  match scores with
  | [] => 0%Q
  | _ => ratio (fold_left Z.add scores 0) (length scores)
  end.

(** The bowls of a list that [getPlayerStats] files under a zone, and the
    good ones ([score >= 3]) among some bowls. *)
Definition zoneBowls (zone : string) (playerBowls : list Bowl.t) : list Bowl.t :=
  List.filter (fun b => String.eqb (zoneOf b) zone) playerBowls.

Definition goodBowls (l : list Bowl.t) : list Bowl.t :=
  List.filter (fun b => ge3 (rawScore b)) l.

(** [good / total * 100] over a list of bowls in double precision, [0]
    for none. *)
Definition successRateOf (l : list Bowl.t) : Q :=
  match l with
  | [] => 0%Q
  | _ => fl (fl (inject_Z (Z.of_nat (length (goodBowls l))) / inject_Z (Z.of_nat (length l)))
             * 100)
  end.

(** [r] is [x] rounded to two decimals: a multiple of [1/100] that lies
    no further than [1/200] from [x]. *)
Definition rounded2 (x r : Q) : Prop :=
  exists k : Z, (r == inject_Z k / 100)%Q /\ (Qabs (r - x) <= 1 # 200)%Q.

(** A bowl is in the final three ends of its game when the game is on
    record and the end number is among the last three of the game's
    [totalEnds]. *)
Definition inFinalThree (allGames : list Game.t) (b : Bowl.t) : bool :=
  match findGame allGames (Bowl.gameId b) with
  | Some game =>
      (totalEndsOf game - 3 <? Bowl.endNumber b) && (Bowl.endNumber b <=? totalEndsOf game)
  | None => false
  end.

(** The first element of each class of [same], in order of first
    occurrence. *)
Definition firstsOf {B} (same : B -> B -> bool) (l : list B) : list B :=
  fold_left (fun seen b => if existsb (fun a => same a b) seen then seen else seen ++ [b])
    l [].

(** Two bowls of the same end of the same game. *)
Definition sameEnd (a b : Bowl.t) : bool :=
  String.eqb (Bowl.gameId a) (Bowl.gameId b) && (Bowl.endNumber a =? Bowl.endNumber b).

(** The ends played, in order of first occurrence in the log: each with
    the sum and the number of its bowls (a bowl without score counting
    for 0) and their mean. *)
Definition endGroups (playerBowls : list Bowl.t) : list EndAvg.t :=
  map (fun b0 =>
         let group := List.filter (sameEnd b0) playerBowls in
         EndAvg.mk (fold_left Z.add (map scoreOr0 group) 0) (length group)
           (Bowl.endNumber b0) (Bowl.gameId b0) (meanOf (map scoreOr0 group)))
    (firstsOf sameEnd playerBowls).



(** Sums over the scores, and what it is for them to be all equal. *)
Definition sumOf (l : list Z) : Z := fold_left Z.add l 0.

Definition sumSqOf (l : list Z) : Z := sumOf (map (fun s => s * s) l).

Definition allEqual (l : list Z) : Prop :=
  forall x y, In x l -> In y l -> x = y.

(** ** The grouping loops and their keys *)

(** The loop that [getPlayerStats] runs over the ends and
    [getGameSummaries] over the players:
    [if (!o[key]) o[key] = init; update o[key]]. *)
Definition groupFold {B V} (key : B -> string) (init : B -> V) (upd : B -> V -> V)
    (l : list B) : JsObj.t V :=
  fold_left (fun o b =>
               let o := match JsObj.get (key b) o with
                        | Some _ => o
                        | None => if JsObj.inherited (key b) then o
                                  else JsObj.set (key b) (init b) o
                        end in
               JsObj.alter (upd b) (key b) o)
    l JsObj.empty.

(** The elements whose key can become an own property. *)
Definition ownKeyed {B} (key : B -> string) (l : list B) : list B :=
  List.filter (fun b => negb (JsObj.inherited (key b))) l.

(** What the loop computes: one property per key in order of first
    occurrence, holding the updates of the elements of that key. *)
Definition groupsBy {B V} (key : B -> string) (init : B -> V) (upd : B -> V -> V)
    (l : list B) : JsObj.t V :=
  map (fun b0 =>
         (key b0,
          fold_left (fun v b => upd b v)
            (List.filter (fun b => String.eqb (key b0) (key b)) l) (init b0)))
    (firstsOf (fun a b => String.eqb (key a) (key b)) l).

(** Whether a string holds the character [_]. *)
Fixpoint has_underscore (s : string) : bool :=
  match s with
  | EmptyString => false
  | String c r => Ascii.eqb c "_" || has_underscore r
  end.

(** What follows the last [_] of a string. *)
Fixpoint afterUnderscore (s : string) : option string :=
  match s with
  | EmptyString => None
  | String c r =>
      match afterUnderscore r with
      | Some d => Some d
      | None => if Ascii.eqb c "_" then Some r else None
      end
  end.

(** ** Sample records

    A bowl and a game as [generateDemoData] and [persistCurrentGame]
    store them: [score] and [scoreValue] hold the same value, and so do
    [distance] and [distanceInFeet]. *)

Definition sampleBowl (gameId playerId : string) (endNumber : Z) (score : js Z)
    (distance : Q) : Bowl.t :=
  Bowl.mk gameId playerId "yours" "Lead" endNumber score score
    (JVal distance) (JVal distance) (JVal "forehand") (JVal "Short") (JVal "Short").

Definition sampleGame (id : string) (endCount date : Z) : Game.t :=
  Game.mk id JNull (JVal "") (JVal 1) (JVal "pairs4") (JVal "game") (Some date)
    (JVal ["Ann"; "Bob"]) JUndefined (JVal ["Visitors"])
    (JVal endCount) (JVal endCount) (JVal endCount) (JVal true) (JVal "") JUndefined.

Definition sampleBowls : list Bowl.t :=
  [sampleBowl "g1" "Ann" 1 (JVal 4) (1 # 2);
   sampleBowl "g1" "Ann" 2 (JVal 2) (2 # 1);
   sampleBowl "g1" "Ann" 20 (JVal 3) (1 # 10);
   sampleBowl "g1" "Bob" 20 (JVal 1) (1 # 1);
   sampleBowl "g2" "Ann" 18 (JVal 3) (1 # 4)].

Definition sampleGames : list Game.t :=
  [sampleGame "g1" 21 1000; sampleGame "g2" 18 2000].

Definition sampleStats : Stats.t :=
  statsOf "Ann" (playerBowlsOf "Ann" JUndefined sampleBowls) sampleGames.

(** The statistics of a player with a single game on record. *)
Definition sampleStatsOneGame : Stats.t :=
  statsOf "Ann"
    [sampleBowl "g1" "Ann" 1 (JVal 4) (1 # 2); sampleBowl "g1" "Ann" 2 (JVal 2) (2 # 1)]
    [sampleGame "g1" 21 0].


(** Two ends of equal mean. *)
Definition tiedEndsBowls : list Bowl.t :=
  [sampleBowl "g1" "Ann" 1 (JVal 2) (1 # 2);
   sampleBowl "g1" "Ann" 2 (JVal 2) (1 # 2);
   sampleBowl "g1" "Ann" 3 (JVal 4) (1 # 2);
   sampleBowl "g1" "Ann" 4 (JVal 4) (1 # 2)].




(** Bowls of the last ends of two games of 21 and of 18 ends, and of a
    game that is not on record. *)
Definition clutchSampleBowls : list Bowl.t :=
  [sampleBowl "g1" "Ann" 18 (JVal 4) (1 # 2);
   sampleBowl "g1" "Ann" 19 (JVal 3) (1 # 2);
   sampleBowl "g1" "Ann" 21 (JVal 2) (1 # 2);
   sampleBowl "g2" "Ann" 15 (JVal 4) (1 # 2);
   sampleBowl "g2" "Ann" 16 (JVal 2) (1 # 2);
   sampleBowl "g9" "Ann" 21 (JVal 4) (1 # 2)].

Definition clutchStats : Stats.t :=
  statsOf "Ann" (playerBowlsOf "Ann" JUndefined clutchSampleBowls) sampleGames.

(** A bowl recorded for end 25 of a game of 21 ends. *)
Definition beyondBowls : list Bowl.t :=
  [sampleBowl "g1" "Ann" 25 (JVal 4) (1 # 2); sampleBowl "g1" "Ann" 1 (JVal 0) (1 # 2)].


(** A bowl at 0.6666666666666666 ft from the jack, and a log that holds
    it. *)
Definition boundaryBowl : Bowl.t :=
  sampleBowl "g1" "Ann" 4 (JVal 3) (6666666666666666 # 10000000000000000).

Definition zoneSampleBowls : list Bowl.t :=
  [sampleBowl "g1" "Ann" 1 (JVal 4) (1 # 2);
   sampleBowl "g1" "Ann" 2 (JVal 1) (3 # 5);
   sampleBowl "g1" "Ann" 3 (JVal 0) (1 # 10);
   boundaryBowl;
   sampleBowl "g1" "Ann" 5 (JVal 2) (2 # 1)].

Definition zoneStats : Stats.t :=
  statsOf "Ann" (playerBowlsOf "Ann" JUndefined zoneSampleBowls) sampleGames.

(** A player with the overall average 1.2 and the average 1.5 in the
    latest game, and one with 0.2 and 0.5. *)
Definition risingStats : Stats.t :=
  statsOf "Ann"
    [sampleBowl "g1" "Ann" 1 (JVal 1) (1 # 2); sampleBowl "g1" "Ann" 2 (JVal 1) (1 # 2);
     sampleBowl "g1" "Ann" 3 (JVal 1) (1 # 2);
     sampleBowl "g2" "Ann" 1 (JVal 1) (1 # 2); sampleBowl "g2" "Ann" 2 (JVal 2) (1 # 2)]
    sampleGames.

Definition steadyStats : Stats.t :=
  statsOf "Ann"
    [sampleBowl "g1" "Ann" 1 (JVal 0) (1 # 2); sampleBowl "g1" "Ann" 2 (JVal 0) (1 # 2);
     sampleBowl "g1" "Ann" 3 (JVal 0) (1 # 2);
     sampleBowl "g2" "Ann" 1 (JVal 0) (1 # 2); sampleBowl "g2" "Ann" 2 (JVal 1) (1 # 2)]
    sampleGames.

(** Fifty thousand bowls of score 0 and one bowl of score 1. *)
Definition nearlyConstantBowls : list Bowl.t :=
  repeat (sampleBowl "g1" "Ann" 1 (JVal 0) (1 # 2)) (Z.to_nat 50000)
  ++ [sampleBowl "g1" "Ann" 2 (JVal 1) (1 # 2)].

(** ** The rest of the analytics module: names and comparison *)

(** [getAllPlayerNames()] *)
Definition getAllPlayerNames (allBowls : list Bowl.t) : list string :=
  let names :=
    uniq (map Bowl.playerId
            (List.filter (fun b => String.eqb (Bowl.team b) "yours") allBowls)) in
  List.filter (fun n => negb (falsy n) && negb (String.eqb n "opponent")) names.

(** One turn of the loop of [renderTeamComparison] and
    [filterComparison]:
    [const s = await getPlayerStats(p); if (s) { if (keep(s)) allStats.push(s); }].
    The state is [allStats] and the cache. *)
Definition collectStep (keep : Stats.t -> bool) (allBowls : list Bowl.t)
    (allGames : list Game.t) (acc : list Stats.t * gmap string Stats.t) (p : string)
  : list Stats.t * gmap string Stats.t :=
  match getPlayerStats (snd acc) allBowls allGames p JUndefined with
  | (Some s, cache) => if keep s then (fst acc ++ [s], cache) else (fst acc, cache)
  | (None, cache) => (fst acc, cache)
  end.

(** [for (const p of players) { ... }] from [allStats = []]. *)
Definition collectStats (keep : Stats.t -> bool) (analyticsCache : gmap string Stats.t)
    (allBowls : list Bowl.t) (allGames : list Game.t) (players : list string)
  : list Stats.t * gmap string Stats.t :=
  fold_left (collectStep keep allBowls allGames) players ([], analyticsCache).

(** The [switch (sortBy)] of [filterComparison]. *)
Definition sortComparison (sortBy : string) (allStats : list Stats.t) : list Stats.t :=
  if String.eqb sortBy "avgScore"
  then js_sort (fun a b => (Stats.avgScore b - Stats.avgScore a)%Q) allStats
  else if String.eqb sortBy "consistency"
  then js_sort (fun a b => (Stats.consistency a - Stats.consistency b)%Q) allStats
  else if String.eqb sortBy "clutchAvg"
  then js_sort (fun a b => (Stats.clutchAvg b - Stats.clutchAvg a)%Q) allStats
  else if String.eqb sortBy "totalBowls"
  then js_sort (fun a b => inject_Z (Z.of_nat (Stats.totalBowls b)
                                     - Z.of_nat (Stats.totalBowls a))) allStats
  else allStats.

(** [filterComparison()] for the values [position] and [sortBy] of the
    two select boxes: the statistics handed to [renderComparisonTable]
    and the cache afterwards. *)
Definition filterComparison (position sortBy : string)
    (analyticsCache : gmap string Stats.t) (allBowls : list Bowl.t) (allGames : list Game.t)
  : list Stats.t * gmap string Stats.t :=
  let players := getAllPlayerNames allBowls in
  let collected :=
    collectStats (fun s => String.eqb position "all"
                           || existsb (String.eqb position) (Stats.positions s))
      analyticsCache allBowls allGames players in
  (sortComparison sortBy (fst collected), snd collected).

(** [renderTeamComparison(container)]: [None] when the message that two
    players are needed is shown, else the statistics of the table. *)
Definition renderTeamComparison (analyticsCache : gmap string Stats.t)
    (allBowls : list Bowl.t) (allGames : list Game.t)
  : option (list Stats.t) * gmap string Stats.t :=
  let players := getAllPlayerNames allBowls in
  if (length players <? 2)%nat then (None, analyticsCache)
  else
    let collected := collectStats (fun _ => true) analyticsCache allBowls allGames players in
    (Some (js_sort (fun a b => (Stats.avgScore b - Stats.avgScore a)%Q) (fst collected)),
     snd collected).

(** [const isRecommended = s.avgScore >= threshold] with the threshold
    2.5 that both callers pass. *)
Definition isRecommended (s : Stats.t) : bool := Qle_bool (5 # 2) (Stats.avgScore s).

(** ** The drill-down of a game *)

(** A stored bowl as the drill-down reads it: the properties of
    [Bowl.t] and those that only records of older versions carry
    instead, [playerName], [player] and [end]. *)
Module BowlRow.
Record t : Type := mk {
  bowl : Bowl.t;
  playerName : js string;
  player : js string;
  end_ : js Z
}.
End BowlRow.

(** A stored game with its [endNotes], the notes by end number. *)
Module GameRow.
Record t : Type := mk {
  game : Game.t;
  endNotes : js (JsObj.t string)
}.
End GameRow.

(** An entry of [playerBreakdown]. *)
Module PlayerBreakdown.
Record t : Type := mk { total : Z; count : nat; bowls : list BowlRow.t }.
End PlayerBreakdown.

(** An element of [endData]; the property [end] is [end_] here. *)
Module EndDatum.
Record t : Type := mk {
  end_ : Z;
  totalScore : Z;
  avgScore : Q;
  bowlCount : nat;
  notes : string
}.
End EndDatum.

(** What a call comes to: it returns at [if (!game) return], it throws,
    or it reaches the end with the values it shows. *)
Inductive outcome (A : Type) : Type :=
| NoGame
| Threw
| Rendered (a : A).
Arguments NoGame {A}.
Arguments Threw {A}.
Arguments Rendered {A} a.

(** [b.playerId || b.playerName || b.player] *)
Definition bowlName (b : BowlRow.t) : js string :=
  jsor (jsor (JVal (Bowl.playerId (BowlRow.bowl b))) (BowlRow.playerName b))
    (BowlRow.player b).

(** The property key a name converts to. *)
Definition nameKey (name : js string) : string :=
  match name with
  | JVal s => s
  | JNull => "null"
  | JUndefined => "undefined"
  end.

(** [(b.endNumber || b.end) === e] *)
Definition bowlEndIs (e : Z) (b : BowlRow.t) : bool :=
  match jsor (JVal (Bowl.endNumber (BowlRow.bowl b))) (BowlRow.end_ b) with
  | JVal z => z =? e
  | _ => false
  end.

(** One turn of the loop that fills [playerBreakdown]; [None] once the
    loop has thrown.  For a name inherited from [Object.prototype] the
    entry is not created, the two updates reach the inherited value, and
    [playerBreakdown[name].bowls.push(b)] throws a TypeError, [bowls]
    being [undefined] there. *)
Definition breakdownStep (acc : option (JsObj.t PlayerBreakdown.t)) (b : BowlRow.t)
  : option (JsObj.t PlayerBreakdown.t) :=
  match acc with
  | None => None
  | Some playerBreakdown =>
      let name := nameKey (bowlName b) in
      let update :=
        JsObj.alter (fun d => PlayerBreakdown.mk
                                (PlayerBreakdown.total d + scoreOr0 (BowlRow.bowl b))
                                (S (PlayerBreakdown.count d))
                                (PlayerBreakdown.bowls d ++ [b])) name in
      match JsObj.get name playerBreakdown with
      | Some _ => Some (update playerBreakdown)
      | None =>
          if JsObj.inherited name then None
          else Some (update (JsObj.set name (PlayerBreakdown.mk 0 0 []) playerBreakdown))
      end
  end.

Definition breakdownOf (yourBowls : list BowlRow.t) : option (JsObj.t PlayerBreakdown.t) :=
  fold_left breakdownStep yourBowls (Some JsObj.empty).

(** [game.endNotes?.[e] || ''] *)
Definition endNoteOf (game : GameRow.t) (e : Z) : string :=
  match GameRow.endNotes game with
  | JVal endNotes => default "" (JsObj.get (pretty e) endNotes)
  | _ => ""
  end.

(** The object pushed to [endData] for end [e]. *)
Definition endDatumOf (game : GameRow.t) (yourBowls : list BowlRow.t) (e : Z) : EndDatum.t :=
  let endBowls := List.filter (bowlEndIs e) yourBowls in
  let endScore := fold_left (fun s b => s + scoreOr0 (BowlRow.bowl b)) endBowls 0 in
  let endCount := length endBowls in
  EndDatum.mk e endScore
    (if (0 <? endCount)%nat then ratio endScore endCount else 0%Q)
    endCount
    (endNoteOf game e).

(** [for (let e = 1; e <= totalEnds; e++) endData.push(...)] *)
Definition endDataOf (game : GameRow.t) (yourBowls : list BowlRow.t) (totalEnds : Z)
  : list EndDatum.t :=
  map (fun e => endDatumOf game yourBowls (Z.of_nat e)) (seq 1 (Z.to_nat totalEnds)).

(** A player card: the name, [data.count] and [data.total / data.count]. *)
Definition cardOf (nd : string * PlayerBreakdown.t) : string * nat * Q :=
  (fst nd, PlayerBreakdown.count (snd nd),
   ratio (PlayerBreakdown.total (snd nd)) (PlayerBreakdown.count (snd nd))).

(** The values that [showGameDrillDown] puts on the page. *)
Module DrillDown.
Record t : Type := mk {
  players : list string;
  opponentName : string;
  playerNames : list string;
  cards : list (string * nat * Q);
  endData : list EndDatum.t
}.
End DrillDown.

(** [showGameDrillDown(gameId)], for the results [game] of
    [getGame(gameId)] and [bowls] of [getBowlsByGame(gameId)]. *)
Definition showGameDrillDown (game : option GameRow.t) (bowls : list BowlRow.t)
  : outcome DrillDown.t :=
  match game with
  | None => NoGame
  | Some game =>
      let yourBowls :=
        List.filter (fun b => String.eqb (Bowl.team (BowlRow.bowl b)) "yours") bowls in
      let totalEnds := totalEndsOf (GameRow.game game) in
      match breakdownOf yourBowls with
      | None => Threw
      | Some playerBreakdown =>
          let endData := endDataOf game yourBowls totalEnds in
          let players :=
            jsor_def (jsor (Game.players (GameRow.game game))
                        (Game.yourPlayers (GameRow.game game))) [] in
          let opponentName :=
            match jsor_def (Game.opponentPlayers (GameRow.game game)) [] with
            | [] => "Opponent"
            | s :: _ => if falsy s then "Opponent" else s
            end in
          let playerNames := map fst (JsObj.entries playerBreakdown) in
          Rendered (DrillDown.mk players opponentName playerNames
                      (map cardOf (JsObj.entries playerBreakdown)) endData)
      end
  end.

(** A player card of [filterDrillDownByPlayer]: with the numbers of
    forehand and backhand bowls. *)
Definition handCardOf (nd : string * PlayerBreakdown.t) : string * nat * Q * nat * nat :=
  let fhCount :=
    length (List.filter (fun b => match Bowl.hand (BowlRow.bowl b) with
                                  | JVal h => String.eqb h "forehand"
                                  | _ => false
                                  end) (PlayerBreakdown.bowls (snd nd))) in
  let bhCount :=
    length (List.filter (fun b => match Bowl.hand (BowlRow.bowl b) with
                                  | JVal h => String.eqb h "backhand"
                                  | _ => false
                                  end) (PlayerBreakdown.bowls (snd nd))) in
  (cardOf nd, fhCount, bhCount).

(** [filterDrillDownByPlayer(gameId)] for the value [selectedPlayer] of
    the select box: the player cards and [endData]. *)
Definition filterDrillDownByPlayer (selectedPlayer : string) (game : option GameRow.t)
    (bowls : list BowlRow.t)
  : outcome (list (string * nat * Q * nat * nat) * list EndDatum.t) :=
  match game with
  | None => NoGame
  | Some game =>
      let yourBowls :=
        List.filter (fun b => String.eqb (Bowl.team (BowlRow.bowl b)) "yours") bowls in
      let yourBowls :=
        if negb (String.eqb selectedPlayer "all")
        then List.filter (fun b => match bowlName b with
                                   | JVal s => String.eqb s selectedPlayer
                                   | _ => false
                                   end) yourBowls
        else yourBowls in
      let totalEnds := totalEndsOf (GameRow.game game) in
      match breakdownOf yourBowls with
      | None => Threw
      | Some playerBreakdown =>
          Rendered (map handCardOf (JsObj.entries playerBreakdown),
                    endDataOf game yourBowls totalEnds)
      end
  end.

(** A bowl and a game of the samples as the drill-down reads them. *)
Definition sampleRow (b : Bowl.t) : BowlRow.t :=
  BowlRow.mk b (JVal (Bowl.playerId b)) JUndefined JUndefined.

Definition sampleGameRow : GameRow.t :=
  GameRow.mk (sampleGame "g1" 21 1000) (JVal [("2", "Close head, needed measure")]).

(** ** The CSV export *)

(** A value handed to [escapeCSV]: [undefined], [null], a string or an
    integer (the numbers with decimals are formatted by [toFixed] before
    and arrive as strings).  The integer [z] stands for the double
    [fl z]. *)
Inductive cell : Type :=
| CUndefined
| CNull
| CStr (s : string)
| CNum (z : Z).

(** The comma, the double quote and the line feed. *)
Definition comma : ascii := ","%char.
Definition dquote : ascii := "034"%char.
Definition linefeed : ascii := "010"%char.

(** The integer of fewest significant digits that is rounded to the
    double [x], an integer: with [skip] low digits dropped, the multiple
    of [10^skip] below [x] and the one above are tried, the nearer one
    first and the one of even last digit when they are equally near;
    when neither is rounded to [x], one digit fewer is dropped. *)
Fixpoint shortestDigits (skip : nat) (x : Z) : Z :=
  match skip with
  | O => x
  | S skip' =>
      let unit := 10 ^ Z.of_nat skip in
      let low := x / unit * unit in
      let high := low + unit in
      let keeps (v : Z) := Qeq_bool (fl (inject_Z v)) (inject_Z x) in
      let nearerLow :=
        (x - low <? high - x) || ((x - low =? high - x) && Z.even (low / unit)) in
      if keeps low && (nearerLow || negb (keeps high)) then low
      else if keeps high then high
      else shortestDigits skip' x
  end.

(** An integer without its trailing zeros. *)
Fixpoint stripZeros (digits : nat) (v : Z) : Z :=
  match digits with
  | O => v
  | S digits' => if v mod 10 =? 0 then stripZeros digits' (v / 10) else v
  end.

(** [String(n)] for an integer [n]: the digits of the shortest decimal
    that reads back as the double, written out with its zeros up to 21
    digits and in exponent form beyond.  Up to [2^53] these are the
    digits of [n]; [2^64] prints as [18446744073709552000] and [10^21]
    as [1e+21]. *)
Definition numberString (n : Z) : string :=
  if n =? 0 then "0"
  else
    let x := Qfloor (fl (inject_Z (Z.abs n))) in
    let v := shortestDigits (String.length (pretty x) - 1) x in
    let digits := String.length (pretty v) in
    (if n <? 0 then "-" else "") +:+
    (if (digits <=? 21)%nat then pretty v
     else
       match pretty (stripZeros digits v) with
       | String d EmptyString => String d ("e+" +:+ pretty (Z.of_nat (digits - 1)))
       | String d rest => String d ("." +:+ rest +:+ "e+" +:+ pretty (Z.of_nat (digits - 1)))
       | EmptyString => ""
       end).

(** [String(value)] *)
Definition cellString (value : cell) : string :=
  match value with
  | CUndefined => "undefined"
  | CNull => "null"
  | CStr s => s
  | CNum z => numberString z
  end.

(** [str.includes(c)] for a single character. *)
Fixpoint includes (c : ascii) (str : string) : bool :=
  match str with
  | EmptyString => false
  | String c' r => Ascii.eqb c' c || includes c r
  end.

(** The [str.replace] of [escapeCSV]: every double quote is replaced by
    two. *)
Fixpoint doubleQuotes (str : string) : string :=
  match str with
  | EmptyString => EmptyString
  | String c r =>
      if Ascii.eqb c dquote then String dquote (String dquote (doubleQuotes r))
      else String c (doubleQuotes r)
  end.

Definition escapeCSV (value : cell) : string :=
  match value with
  | CUndefined | CNull => ""
  | _ =>
      let str := cellString value in
      if includes comma str || includes dquote str || includes linefeed str
      then String dquote (doubleQuotes str +:+ String dquote "")
      else str
  end.

(** [l.join(sep)] for an array of strings. *)
Fixpoint join (sep : string) (l : list string) : string :=
  match l with
  | [] => ""
  | [x] => x
  | x :: r => x +:+ sep +:+ join sep r
  end.

Definition toCSV (headers : list cell) (rows : list (list cell)) : string :=
  let headerLine := join "," (map escapeCSV headers) in
  let dataLines := map (fun row => join "," (map escapeCSV row)) rows in
  join (String linefeed "") (headerLine :: dataLines).

(** The text that a cell stands for: nothing for [undefined] and
    [null]. *)
Definition cellText (value : cell) : string :=
  match value with
  | CUndefined | CNull => ""
  | _ => cellString value
  end.

(** A reader of CSV text, to say what the export keeps: fields are
    separated by commas, records by line feeds; a field that opens with
    a double quote runs to the closing one, two double quotes in a row
    inside it standing for one.
    The state is the field and the record that are being read, and
    whether the reader is inside quotes. *)
Fixpoint readCSV (text : string) (quoted : bool) (field : string) (record : list string)
  : list (list string) :=
  match text with
  | EmptyString => [record ++ [field]]
  | String c r =>
      if quoted then
        if Ascii.eqb c dquote then
          match r with
          | String c' r' =>
              if Ascii.eqb c' dquote
              then readCSV r' true (field +:+ String dquote "") record
              else readCSV r false field record
          | EmptyString => readCSV r false field record
          end
        else readCSV r true (field +:+ String c "") record
      else if Ascii.eqb c dquote then readCSV r true field record
      else if Ascii.eqb c comma then readCSV r false "" (record ++ [field])
      else if Ascii.eqb c linefeed then (record ++ [field]) :: readCSV r false "" []
      else readCSV r false (field +:+ String c "") record
  end.

(** What may follow a field: the end of the text, a comma or a line
    feed. *)
Definition afterField (rest : string) : bool :=
  match rest with
  | EmptyString => true
  | String c _ => Ascii.eqb c comma || Ascii.eqb c linefeed
  end.

(** ** Recording a game: the score of a front-end bowl *)

(** The lookup table [scoringTable]. *)
Definition scoringTable : JsObj.t Z :=
  [("Short-< 0.5 ft", 4); ("Short-0.5 ft - 1 ft", 3); ("Short-1 ft - 2 ft", 2);
   ("Short-2 ft - 3 ft", 1); ("Short-> 3 ft", 0);
   ("Jack High-< 0.5 ft", 4); ("Jack High-0.5 ft - 1 ft", 3); ("Jack High-1 ft - 2 ft", 2);
   ("Jack High-2 ft - 3 ft", 1); ("Jack High-> 3 ft", 0);
   ("Past-< 0.5 ft", 4); ("Past-0.5 ft - 1 ft", 4); ("Past-1 ft - 2 ft", 3);
   ("Past-2 ft - 3 ft", 2); ("Past-> 3 ft", 1);
   ("Other-Score 0", 0); ("Other-Score 1", 1); ("Other-Score 2", 2); ("Other-Score 3", 3);
   ("Other-Score 4", 4);
   ("Bowl off Rink-Bowl off Rink", 0);
   ("Draw shot-Very well played", 4); ("Draw shot-Good Effort", 3);
   ("Draw shot-Average attempt", 2); ("Draw shot-Below average", 1);
   ("Draw shot-Completely Ineffective", 0);
   ("Weight shot-Very well played", 4); ("Weight shot-Good Effort", 3);
   ("Weight shot-Average attempt", 2); ("Weight shot-Below average", 1);
   ("Weight shot-Completely Ineffective", 0);
   ("Draw Positional-Very well played", 4); ("Draw Positional-Good Effort", 3);
   ("Draw Positional-Average attempt", 2); ("Draw Positional-Below average", 1);
   ("Draw Positional-Completely Ineffective", 0);
   ("Draw to Respot-Very well played", 4); ("Draw to Respot-Good Effort", 3);
   ("Draw to Respot-Average attempt", 2); ("Draw to Respot-Below average", 1);
   ("Draw to Respot-Completely Ineffective", 0);
   ("Draw to Ditch-Very well played", 4); ("Draw to Ditch-Good Effort", 3);
   ("Draw to Ditch-Average attempt", 2); ("Draw to Ditch-Below average", 1);
   ("Draw to Ditch-Completely Ineffective", 0);
   ("Blocker-Very well played", 4); ("Blocker-Good Effort", 3);
   ("Blocker-Average attempt", 2); ("Blocker-Below average", 1);
   ("Blocker-Completely Ineffective", 0);
   ("No Bowl Thrown-", 0)].

(** [getDistanceCategory(distanceInFeet)] *)
Definition getDistanceCategory (distanceInFeet : Q) : string :=
  if Qlt_bool distanceInFeet (1 # 2) then "< 0.5 ft"
  else if Qlt_bool distanceInFeet 1 then "0.5 ft - 1 ft"
  else if Qlt_bool distanceInFeet 2 then "1 ft - 2 ft"
  else if Qlt_bool distanceInFeet 3 then "2 ft - 3 ft"
  else "> 3 ft".

(** [getResultCategory(bowlY, jackY)]; [handleCanvasClick] and
    [handleMouseMove] compute the same expression in place. *)
Definition getResultCategory (bowlY jackY : Q) : string :=
  if Qlt_bool bowlY (jackY - 10) then "Short"
  else if Qle_bool (Qabs (bowlY - jackY)) 10 then "Jack High"
  else "Past".

(** [calculateFrontEndScore(resultCategory, distanceCategory)]:
    [scoringTable[key] || 0].  The key holds a hyphen, so it is no name
    inherited from [Object.prototype], and a key that is not in the
    table reads as [undefined]. *)
Definition calculateFrontEndScore (resultCategory distanceCategory : string) : Z :=
  let key := resultCategory +:+ "-" +:+ distanceCategory in
  match JsObj.get key scoringTable with
  | Some score => if falsy score then 0 else score
  | None => 0
  end.

(** ** Recording a game: whose turn it is *)

(** A bowl of [gameState.bowls]; of its properties only those that the
    turn logic reads are kept. *)
Module LiveBowl.
Record t : Type := mk { end_ : Z; team : string; playerIndex : Z }.
End LiveBowl.

(** The properties of [gameState] that the turn logic reads and
    writes. *)
Module GameState.
Record t : Type := mk {
  currentEnd : Z;
  totalEnds : Z;
  currentPlayerIndex : Z;
  bowlsPerPlayer : Z;
  playersPerTeam : Z;
  bowls : list LiveBowl.t;
  jackPosition : option (Q * Q)
}.
End GameState.

(** The number of bowls that the player [index] of the own team has in
    the current end. *)
Definition playerBowlsThisEnd (gameState : GameState.t) (index : Z) : Z :=
  Z.of_nat (length (List.filter (fun b => (LiveBowl.end_ b =? GameState.currentEnd gameState)
                                          && String.eqb (LiveBowl.team b) "yours"
                                          && (LiveBowl.playerIndex b =? index))
                      (GameState.bowls gameState))).

(** The [while] loop of [advanceToNextPlayer], for the turns that are
    left ([playersPerTeam - attempts] of them): the index it stops at,
    [None] when it runs out.  [%] is the remainder of the truncating
    division. *)
Fixpoint nextPlayerLoop (gameState : GameState.t) (turns : nat) (nextPlayerIndex : Z)
  : option Z :=
  match turns with
  | O => None
  | S turns =>
      let nextPlayerBowls := playerBowlsThisEnd gameState nextPlayerIndex in
      if nextPlayerBowls <? GameState.bowlsPerPlayer gameState then Some nextPlayerIndex
      else nextPlayerLoop gameState turns
             (Z.rem (nextPlayerIndex + 1) (GameState.playersPerTeam gameState))
  end.

(** [advanceToNextPlayer()] *)
Definition advanceToNextPlayer (gameState : GameState.t) : GameState.t :=
  let currentPlayerBowls :=
    playerBowlsThisEnd gameState (GameState.currentPlayerIndex gameState) in
  if GameState.bowlsPerPlayer gameState <=? currentPlayerBowls
  then
    let nextPlayerIndex :=
      Z.rem (GameState.currentPlayerIndex gameState + 1)
        (GameState.playersPerTeam gameState) in
    match nextPlayerLoop gameState (Z.to_nat (GameState.playersPerTeam gameState))
            nextPlayerIndex with
    | Some index =>
        GameState.mk (GameState.currentEnd gameState) (GameState.totalEnds gameState)
          index (GameState.bowlsPerPlayer gameState) (GameState.playersPerTeam gameState)
          (GameState.bowls gameState) (GameState.jackPosition gameState)
    | None => gameState
    end
  else gameState.

(** [nextEnd()]: the state after the call, and whether the dialog of the
    end of the game is shown instead. *)
Definition nextEnd (gameState : GameState.t) : GameState.t * bool :=
  if GameState.totalEnds gameState <=? GameState.currentEnd gameState
  then (gameState, true)
  else
    (GameState.mk (GameState.currentEnd gameState + 1) (GameState.totalEnds gameState)
       0 (GameState.bowlsPerPlayer gameState) (GameState.playersPerTeam gameState)
       (GameState.bowls gameState) (Some (250 # 1, 250 # 1)%Q),
     false).

(** A game of triples with two bowls each, in its third end: the lead
    has played both bowls, the second one. *)
Definition sampleGameState : GameState.t :=
  GameState.mk 3 18 0 2 3
    [LiveBowl.mk 3 "yours" 0; LiveBowl.mk 3 "opponent" 0;
     LiveBowl.mk 3 "yours" 0; LiveBowl.mk 3 "yours" 1]
    (Some (250 # 1, 250 # 1)%Q).

(** ** The player dashboard with a game selected *)

(** [applyPlayerFilters()] for the values [playerName] and [gameId] of
    the two select boxes: the call of [getPlayerStats] that it makes,
    with [filterGameId = gameId !== 'all' ? gameId : undefined]. *)
Definition applyPlayerFilters (playerName gameId : string)
    (analyticsCache : gmap string Stats.t) (allBowls : list Bowl.t) (allGames : list Game.t)
  : option Stats.t * gmap string Stats.t :=
  let filterGameId := if negb (String.eqb gameId "all") then JVal gameId else JUndefined in
  getPlayerStats analyticsCache allBowls allGames playerName filterGameId.

(** ** The tournament export *)

(** In [exportTournamentSummary], the figures of a game before they are
    formatted into the cells of its row: [avgScore], [topPerformer] and
    [topAvg].  A bowl counts as scored when [score] or [scoreValue] is
    not [undefined]; the players are told apart by
    [b.playerId || b.playerName]. *)
Definition exportFiguresOf (allBowls : list BowlRow.t) (game : Game.t) : Q * string * Q :=
  let gameBowls :=
    List.filter (fun b => String.eqb (Bowl.gameId (BowlRow.bowl b)) (Game.id game)) allBowls in
  let yourBowls :=
    List.filter (fun b => String.eqb (Bowl.team (BowlRow.bowl b)) "yours") gameBowls in
  let scoredBowls :=
    List.filter (fun b => defined (Bowl.score (BowlRow.bowl b))
                          || defined (Bowl.scoreValue (BowlRow.bowl b))) yourBowls in
  let avgScore := meanScore (map BowlRow.bowl scoredBowls) in
  let playerScores :=
    groupFold (fun b => nameKey (jsor (JVal (Bowl.playerId (BowlRow.bowl b)))
                               (BowlRow.playerName b)))
      (fun _ => PlayerScore.mk 0 0)
      (fun b d => PlayerScore.mk (PlayerScore.total d + scoreOr0 (BowlRow.bowl b))
                    (S (PlayerScore.count d)))
      yourBowls in
  let top := topPerformerOf playerScores in
  (avgScore, fst top, snd top).

(** ** Recording a game: which bowls are scored *)

(** [formatMap] of [startGame]: for each format the bowls per player,
    the players per team and the number of ends, [numberOfEnds] being
    the parsed value of the select box. *)
Definition formatMap (numberOfEnds : Z) : JsObj.t (Z * Z * Z) :=
  [("singles", (4, 1, 21)); ("pairs4", (4, 2, numberOfEnds));
   ("pairs3", (3, 2, numberOfEnds)); ("triples3", (3, 3, numberOfEnds));
   ("triples2", (2, 3, numberOfEnds)); ("fours", (2, 4, numberOfEnds))].

(** [positionsByFormat] of [handleCanvasClick] and [confirmOnRink]. *)
Definition positionsByFormat : JsObj.t (list string) :=
  [("singles", ["Player"]); ("pairs4", ["Lead"; "Skip"]); ("pairs3", ["Lead"; "Skip"]);
   ("triples3", ["Lead"; "Second"; "Skip"]); ("triples2", ["Lead"; "Second"; "Skip"]);
   ("fours", ["Lead"; "Second"; "Third"; "Skip"])].

(** The block of [handleCanvasClick] and of [confirmOnRink] that scores
    the new bowl: its [scoreCategory], [scoreDetail] and [scoreValue],
    which the bowl is created with as ['', '', 0].  For a format that is
    a name inherited from [Object.prototype], [positionsByFormat[format]]
    is a function or the prototype, which has no element at any
    index. *)
Definition scoreNewBowl (format currentTeam : string) (currentPlayerIndex : Z)
    (resultCategory distanceCategory : string) : string * string * Z :=
  if String.eqb currentTeam "yours"
  then
    let positions :=
      match JsObj.get format positionsByFormat with
      | Some positions => positions
      | None => if JsObj.inherited format then []
                else ["Lead"; "Second"; "Third"; "Skip"]
      end in
    let currentPosition :=
      if currentPlayerIndex <? 0 then None
      else nth_error positions (Z.to_nat currentPlayerIndex) in
    let isFrontEnd :=
      match currentPosition with
      | Some position => String.eqb position "Lead" || String.eqb position "Second"
      | None => false
      end in
    if isFrontEnd
    then (resultCategory, distanceCategory,
          calculateFrontEndScore resultCategory distanceCategory)
    else ("", "", 0)
  else ("", "", 0).

(** The bowls of the sample game [g1]. *)
Definition sampleGameRows : list BowlRow.t :=
  map sampleRow (List.filter (fun b => String.eqb (Bowl.gameId b) "g1") sampleBowls).

(** * Properties *)

(** ** The cache and the no-data result *)

Lemma getPlayerStats_miss cache allBowls allGames playerName filterGameId :
  cache !! cacheKey playerName filterGameId = None ->
  getPlayerStats cache allBowls allGames playerName filterGameId =
    match playerBowlsOf playerName filterGameId allBowls with
    | [] => (None, cache)
    | playerBowls =>
        let stats := statsOf playerName playerBowls allGames in
        (Some stats, <[cacheKey playerName filterGameId := stats]> cache)
    end.
Proof.
  intros Hmiss. unfold getPlayerStats. rewrite Hmiss.
  destruct (playerBowlsOf playerName filterGameId allBowls); reflexivity.
Qed.

Lemma getPlayerStats_hit cache allBowls allGames playerName filterGameId cached :
  cache !! cacheKey playerName filterGameId = Some cached ->
  getPlayerStats cache allBowls allGames playerName filterGameId = (Some cached, cache).
Proof. intros Hhit. unfold getPlayerStats. now rewrite Hhit. Qed.

(** What a call that computes returns: the statistics of a non-empty
    list of matching bowls. *)
Lemma getPlayerStats_computed cache allBowls allGames playerName filterGameId s cache' :
  cache !! cacheKey playerName filterGameId = None ->
  getPlayerStats cache allBowls allGames playerName filterGameId = (Some s, cache') ->
  playerBowlsOf playerName filterGameId allBowls <> [] /\
  s = statsOf playerName (playerBowlsOf playerName filterGameId allBowls) allGames.
Proof.
  intros Hmiss. rewrite getPlayerStats_miss by assumption.
  destruct (playerBowlsOf playerName filterGameId allBowls); intros [= <- _]. easy.
Qed.

Lemma playerBowlsOf_nil playerName filterGameId allBowls :
  (forall b, In b (filterByGame filterGameId allBowls) ->
             Bowl.playerId b = playerName -> Bowl.team b = "yours" -> False) ->
  playerBowlsOf playerName filterGameId allBowls = [].
Proof.
  intros Hnone. unfold playerBowlsOf.
  destruct (List.filter _ _) as [|b r] eqn:E; [reflexivity|].
  assert (Hb : In b (b :: r)) by (left; reflexivity).
  rewrite <- E in Hb. apply filter_In in Hb as [Hin Hb].
  apply andb_prop in Hb as [Hp Ht].
  apply String.eqb_eq in Hp, Ht. destruct (Hnone b Hin Hp Ht).
Qed.

(** C1 (amended).  On a call that is not answered from the cache,
    [getPlayerStats] returns [null], and leaves the cache as it was,
    exactly when no stored bowl has the requested player as [playerId]
    with team ['yours'], among the bowls of the requested game when a
    game filter is given (an empty filter counts as none): no exception,
    no zero-filled statistics object.  A call that finds an entry under
    its key returns that entry without looking at the bowls. *)
Theorem getPlayerStats_no_data_null :
  forall cache allBowls allGames playerName filterGameId,
    cache !! cacheKey playerName filterGameId = None ->
    let selected (b : Bowl.t) : Prop :=
      match filterGameId with
      | JVal gameId => gameId = "" \/ Bowl.gameId b = gameId
      | _ => True
      end in
    let matching (b : Bowl.t) : Prop :=
      In b allBowls /\ selected b /\ Bowl.playerId b = playerName /\ Bowl.team b = "yours" in
    ((forall b, ~ matching b) ->
     getPlayerStats cache allBowls allGames playerName filterGameId = (None, cache)) /\
    (fst (getPlayerStats cache allBowls allGames playerName filterGameId) = None ->
     forall b, ~ matching b) /\
    (forall cached,
       getPlayerStats (<[cacheKey playerName filterGameId := cached]> cache)
         allBowls allGames playerName filterGameId =
       (Some cached, <[cacheKey playerName filterGameId := cached]> cache)).
Proof.
  intros cache allBowls allGames playerName filterGameId Hmiss selected matching.
  assert (Hfilter : forall b, In b (filterByGame filterGameId allBowls) <->
                              In b allBowls /\ selected b).
  { intros b. unfold filterByGame, selected.
    destruct filterGameId as [| |gameId]; try tauto.
    unfold falsy, falsy_string.
    destruct (String.eqb_spec gameId "") as [->|Hne]; [tauto|].
    rewrite filter_In, String.eqb_eq. intuition congruence. }
  split; [|split].
  - intros Hnone. rewrite getPlayerStats_miss by assumption.
    rewrite playerBowlsOf_nil; [reflexivity|].
    intros b Hb Hplayer Hteam. apply Hfilter in Hb as [Hin Hsel].
    apply (Hnone b). repeat split; assumption.
  - rewrite getPlayerStats_miss by assumption.
    destruct (playerBowlsOf playerName filterGameId allBowls) as [|b0 r] eqn:Hbowls;
      [|discriminate].
    intros _ b (Hin & Hsel & Hplayer & Hteam).
    assert (Hb : In b (playerBowlsOf playerName filterGameId allBowls)).
    { unfold playerBowlsOf. apply filter_In. split; [apply Hfilter; now split|].
      rewrite Hplayer, Hteam, !String.eqb_refl. reflexivity. }
    rewrite Hbowls in Hb. destruct Hb.
  - intros cached. apply getPlayerStats_hit. apply lookup_insert_eq.
Qed.

(** Bob has a bowl in the first game and none in the second: asked for
    the second game, there is no data. *)
Lemma getPlayerStats_no_data_null_witness :
  getPlayerStats ∅ sampleBowls sampleGames "Bob" (JVal "g2") = (None, ∅).
Proof.
  apply (getPlayerStats_no_data_null ∅ sampleBowls sampleGames "Bob" (JVal "g2")
           (lookup_empty _)).
  intros b (Hin & Hsel & Hplayer & _). vm_compute in Hin.
  destruct Hin as [<-|[<-|[<-|[<-|[<-|[]]]]]];
    try discriminate Hplayer; destruct Hsel as [Hsel|Hsel]; discriminate Hsel.
Defined.

(** The statistics of Ann, once computed, answer the call for Ann after
    the store has been emptied.  In the same way, after the statistics
    of Ann in the game [g1], the call for a player named [Ann_game_g1],
    who has no bowl and gets [null] from an empty cache, finds those
    statistics under its key. *)
Lemma getPlayerStats_cached_counterexample :
  fst (getPlayerStats (snd (getPlayerStats ∅ sampleBowls sampleGames "Ann" JUndefined))
         [] sampleGames "Ann" JUndefined) = Some sampleStats /\
  (forall b, In b sampleBowls -> Bowl.playerId b <> "Ann_game_g1") /\
  fst (getPlayerStats ∅ sampleBowls sampleGames "Ann_game_g1" JUndefined) = None /\
  fst (getPlayerStats (snd (getPlayerStats ∅ sampleBowls sampleGames "Ann" (JVal "g1")))
         sampleBowls sampleGames "Ann_game_g1" JUndefined) =
  Some (statsOf "Ann" (playerBowlsOf "Ann" (JVal "g1") sampleBowls) sampleGames).
Proof.
  split; [vm_compute; reflexivity|].
  split; [|split; vm_compute; reflexivity].
  intros b Hin. vm_compute in Hin.
  destruct Hin as [<-|[<-|[<-|[<-|[<-|[]]]]]]; discriminate.
Qed.

(** The key does not tell a player name that holds [_game_] from a game
    filter. *)
Lemma cacheKey_collision : cacheKey "Ann_game_g1" JUndefined = cacheKey "Ann" (JVal "g1").
Proof. reflexivity. Qed.

(** C10.  A call of [getPlayerStats] either answers from the cache and
    leaves it alone, or finds no matching bowl, returns [null] and writes
    nothing (so that the same call computes again), or computes a
    statistics object and stores exactly that object under the key
    ['player_' + playerName], followed by ['_game_' + filterGameId] when
    a game filter is given; the cache never receives anything but a
    computed statistics object.  [invalidateAnalyticsCache] leaves the
    empty cache. *)
Theorem analyticsCache_holds_only_results :
  forall cache allBowls allGames playerName filterGameId,
    let key := cacheKey playerName filterGameId in
    let playerBowls := playerBowlsOf playerName filterGameId allBowls in
    (invalidateAnalyticsCache cache = ∅ /\
     forall k, invalidateAnalyticsCache cache !! k = None) /\
    (key = "player_" +:+ playerName +:+
           (if truthy filterGameId then "_game_" +:+ jsor_def filterGameId "" else "")) /\
    match getPlayerStats cache allBowls allGames playerName filterGameId with
    | (None, cache') =>
        cache !! key = None /\ playerBowls = [] /\ cache' = cache /\
        getPlayerStats cache' allBowls allGames playerName filterGameId = (None, cache')
    | (Some s, cache') =>
        (cache !! key = Some s /\ cache' = cache) \/
        (cache !! key = None /\ playerBowls <> [] /\
         s = statsOf playerName playerBowls allGames /\
         cache' = <[key := s]> cache /\ cache' !! key = Some s)
    end.
Proof.
  intros cache allBowls allGames playerName filterGameId key playerBowls.
  split; [split; [reflexivity|intros k; apply lookup_empty]|].
  split.
  { unfold key, cacheKey. destruct filterGameId as [| |g]; try reflexivity.
    cbn. now destruct (falsy g). }
  destruct (cache !! key) as [cached|] eqn:Hkey.
  - rewrite (getPlayerStats_hit _ _ _ _ _ cached) by exact Hkey. now left.
  - pose proof (getPlayerStats_miss cache allBowls allGames playerName filterGameId Hkey)
      as Hmiss.
    fold playerBowls in Hmiss. fold key in Hmiss.
    destruct playerBowls as [|b r] eqn:Hbowls.
    + rewrite Hmiss. repeat split; try reflexivity. exact Hmiss.
    + rewrite Hmiss. cbv zeta. right. repeat split; try easy.
      apply lookup_insert_eq.
Qed.

(** ** Arrays: sorting *)

Lemma insert_by_perm {A} (le : A -> A -> bool) x l :
  Permutation (insert_by le x l) (x :: l).
Proof.
  induction l as [|y r IH]; simpl; [reflexivity|].
  destruct (le x y); [reflexivity|].
  rewrite IH. apply perm_swap.
Qed.

Lemma sort_by_perm {A} (le : A -> A -> bool) l : Permutation (sort_by le l) l.
Proof.
  induction l as [|x r IH]; simpl; [reflexivity|].
  rewrite insert_by_perm. now apply perm_skip.
Qed.

Lemma js_sort_perm {A} (cmp : A -> A -> Q) l : Permutation (js_sort cmp l) l.
Proof. apply sort_by_perm. Qed.

Lemma Qlt_bool_iff x y : Qlt_bool x y = true <-> (x < y)%Q.
Proof.
  unfold Qlt_bool. rewrite negb_true_iff, <- not_true_iff_false, Qle_bool_iff.
  split; [apply Qnot_le_lt | apply Qlt_not_le].
Qed.

Lemma Qlt_bool_false_iff x y : Qlt_bool x y = false <-> (y <= x)%Q.
Proof.
  unfold Qlt_bool. rewrite negb_false_iff. apply Qle_bool_iff.
Qed.

(** ** Game summaries *)

Lemma getGameSummaries_perm allGames allBowls :
  Permutation (getGameSummaries allGames allBowls) (map (summaryOf allBowls) allGames).
Proof. apply js_sort_perm. Qed.

Lemma getGameSummaries_empty_bowls_counterexample :
  getGameSummaries [sampleGame "g1" 21 0] [] <> [].
Proof. vm_compute. discriminate. Qed.

(** C4 (amended).  [getGameSummaries] returns one summary per stored
    game, whatever the bowls; with no bowl stored, every summary has
    [totalBowls = 0], [avgScore = 0], [topPerformer = ''] and
    [topAvg = 0], and the result is empty exactly when no game is
    stored.  No case raises an error. *)
Theorem getGameSummaries_one_per_game :
  forall allGames allBowls,
    length (getGameSummaries allGames allBowls) = length allGames /\
    Forall (fun s => Summary.totalBowls s = 0%nat /\ Summary.avgScore s == 0 /\
                     Summary.topPerformer s = "" /\ Summary.topAvg s == 0)
      (getGameSummaries allGames []) /\
    (getGameSummaries allGames [] = [] <-> allGames = []).
Proof.
  intros allGames allBowls. split; [|split].
  - rewrite (Permutation_length (getGameSummaries_perm allGames allBowls)).
    apply length_map.
  - apply List.Forall_forall. intros s Hs.
    apply (Permutation_in _ (getGameSummaries_perm allGames [])) in Hs.
    apply in_map_iff in Hs as [game [<- _]]. now vm_compute.
  - split.
    + intros Hnil.
      pose proof (Permutation_length (getGameSummaries_perm allGames [])) as Hlen.
      rewrite Hnil, length_map in Hlen. destruct allGames; [reflexivity|discriminate].
    + intros ->. reflexivity.
Qed.

(** ** Double precision *)

(** Powers of two. *)

Lemma pow2_pos k : (0 < 2 ^ k)%Q.
Proof. now apply Qpower_0_lt. Qed.

Lemma pow2_add a b : (2 ^ (a + b) == 2 ^ a * 2 ^ b)%Q.
Proof. now apply Qpower_plus. Qed.

Lemma pow2_le a b : a <= b -> (2 ^ a <= 2 ^ b)%Q.
Proof. intros H. apply Qpower_le_compat_l; [exact H|discriminate]. Qed.

Lemma pow2_lt a b : a < b -> (2 ^ a < 2 ^ b)%Q.
Proof. intros H. apply Qpower_lt_compat_l; [exact H|reflexivity]. Qed.

Lemma pow2_lt_inv a b : (2 ^ a < 2 ^ b)%Q -> a < b.
Proof. intros H. apply (Qpower_lt_compat_l_inv 2); [exact H|reflexivity]. Qed.

Lemma pow2_inject k : 0 <= k -> (inject_Z (2 ^ k) == 2 ^ k)%Q.
Proof. intros H. now rewrite Zpower_Qpower. Qed.

(** [ilog2 x] is the binade of a positive [x], and the only one. *)
Lemma ilog2_spec x : (0 < x)%Q -> (2 ^ ilog2 x <= x /\ x < 2 ^ (ilog2 x + 1))%Q.
Proof.
  intros Hx. unfold ilog2.
  destruct x as [n d]. cbn [Qnum Qden].
  assert (Hn : 0 < n) by (unfold Qlt in Hx; cbn in Hx; lia).
  set (a := Z.log2 n). set (b := Z.log2 (Z.pos d)).
  destruct (Z.log2_spec n Hn) as [Ha1 Ha2]. fold a in Ha1, Ha2.
  destruct (Z.log2_spec (Z.pos d) eq_refl) as [Hb1 Hb2]. fold b in Hb1, Hb2.
  assert (Ha0 : 0 <= a) by apply Z.log2_nonneg.
  assert (Hb0 : 0 <= b) by apply Z.log2_nonneg.
  rewrite Zle_Qle, pow2_inject in Ha1, Hb1 by lia.
  rewrite Zlt_Qlt, pow2_inject in Ha2, Hb2 by lia.
  set (N := inject_Z n) in *. set (D := inject_Z (Z.pos d)) in *.
  assert (HD : (0 < D)%Q) by (pose proof (pow2_pos b); lra).
  assert (Hx' : (n # d == N / D)%Q) by apply Qmake_Qdiv.
  assert (Hup : (n # d < 2 ^ (a - b + 1))%Q).
  { rewrite Hx'. apply Qlt_shift_div_r; [exact HD|].
    assert (E : (2 ^ (Z.succ a) == 2 ^ (a - b + 1) * 2 ^ b)%Q).
    { rewrite <- pow2_add. now replace (a - b + 1 + b) with (Z.succ a) by lia. }
    pose proof (pow2_pos (a - b + 1)). 
    assert ((2 ^ (a - b + 1) * 2 ^ b <= 2 ^ (a - b + 1) * D)%Q).
    { apply Qmult_le_l; assumption. }
    lra. }
  assert (Hlow : (2 ^ (a - b - 1) <= n # d)%Q).
  { rewrite Hx'. apply Qle_shift_div_l; [exact HD|].
    assert (E : (2 ^ a == 2 ^ (a - b - 1) * 2 ^ (Z.succ b))%Q).
    { rewrite <- pow2_add. now replace (a - b - 1 + Z.succ b) with a by lia. }
    pose proof (pow2_pos (a - b - 1)).
    assert ((2 ^ (a - b - 1) * D <= 2 ^ (a - b - 1) * 2 ^ (Z.succ b))%Q).
    { apply Qmult_le_l; [assumption|lra]. }
    lra. }
  destruct (Qle_bool (2 ^ (a - b)) (n # d)) eqn:E.
  - apply Qle_bool_iff in E. split; assumption.
  - assert (Hlt : ~ (2 ^ (a - b) <= n # d)%Q).
    { intros H. apply Qle_bool_iff in H. congruence. }
    apply Qnot_le_lt in Hlt.
    replace (a - b - 1 + 1) with (a - b) by lia. split; assumption.
Qed.

Lemma ilog2_unique x e : (2 ^ e <= x)%Q -> (x < 2 ^ (e + 1))%Q -> ilog2 x = e.
Proof.
  intros H1 H2.
  assert (Hx : (0 < x)%Q) by (pose proof (pow2_pos e); lra).
  destruct (ilog2_spec x Hx) as [H3 H4].
  assert (ilog2 x < e + 1) by (apply pow2_lt_inv; lra).
  assert (e < ilog2 x + 1) by (apply pow2_lt_inv; lra).
  lia.
Qed.

Lemma ilog2_mono x y : (0 < x)%Q -> (x <= y)%Q -> ilog2 x <= ilog2 y.
Proof.
  intros Hx Hxy.
  destruct (ilog2_spec x Hx) as [H1 _].
  destruct (ilog2_spec y ltac:(lra)) as [_ H2].
  assert (ilog2 x < ilog2 y + 1) by (apply pow2_lt_inv; lra).
  lia.
Qed.

(** [rne x] lies within one half of [x], and is even when [x] lies
    halfway between two integers; it is the only such integer. *)
Lemma rne_cases x :
  let z := rne x in
  ((inject_Z z - (1 # 2) < x)%Q /\ (x < inject_Z z + (1 # 2))%Q) \/
  ((x == inject_Z z - (1 # 2))%Q /\ Z.even z = true) \/
  ((x == inject_Z z + (1 # 2))%Q /\ Z.even z = true).
Proof.
  cbv zeta. unfold rne.
  pose proof (Qfloor_le x) as Hlo. pose proof (Qlt_floor x) as Hhi.
  set (f := Qfloor x) in *.
  rewrite inject_Z_plus in Hhi. change (inject_Z 1) with 1%Q in Hhi.
  destruct (Qcompare_spec (x - inject_Z f) (1 # 2)) as [E|E|E].
  - destruct (Z.even f) eqn:Hf.
    + right; right. split; [lra|exact Hf].
    + right; left. rewrite inject_Z_plus. change (inject_Z 1) with 1%Q.
      split; [lra|]. rewrite Z.even_add, Hf. reflexivity.
  - left. split; lra.
  - left. rewrite inject_Z_plus. change (inject_Z 1) with 1%Q. split; lra.
Qed.

Lemma rne_bounds x : (inject_Z (rne x) - (1 # 2) <= x <= inject_Z (rne x) + (1 # 2))%Q.
Proof. destruct (rne_cases x) as [[H1 H2]|[[H _]|[H _]]]; split; lra. Qed.

Lemma inject_Z_lt_inv a b : (inject_Z a < inject_Z b + 1)%Q -> a <= b.
Proof.
  intros H. change 1%Q with (inject_Z 1) in H. rewrite <- inject_Z_plus, <- Zlt_Qlt in H. lia.
Qed.

Lemma rne_unique x z :
  (inject_Z z - (1 # 2) <= x <= inject_Z z + (1 # 2))%Q ->
  ((x == inject_Z z - (1 # 2))%Q \/ (x == inject_Z z + (1 # 2))%Q -> Z.even z = true) ->
  rne x = z.
Proof.
  intros [Hlo Hhi] Hties.
  destruct (Z.lt_trichotomy (rne x) z) as [Hlt|[Heq|Hgt]]; [|exact Heq|].
  - exfalso. assert (Hz : z = rne x + 1).
    { destruct (rne_cases x) as [[H1 H2]|[[H _]|[H _]]].
      - assert (z <= rne x); [|lia]. apply inject_Z_lt_inv. lra.
      - assert (z <= rne x); [|lia]. apply inject_Z_lt_inv. lra.
      - assert (z <= rne x + 1); [|lia]. apply inject_Z_lt_inv.
        rewrite inject_Z_plus. change (inject_Z 1) with 1%Q. lra. }
    subst z. rewrite inject_Z_plus in Hlo, Hties. change (inject_Z 1) with 1%Q in Hlo, Hties.
    destruct (rne_cases x) as [[H1 H2]|[[H He]|[H He]]]; try lra.
    assert (Hodd : Z.even (rne x + 1) = true) by (apply Hties; left; lra).
    rewrite Z.even_add, He in Hodd. discriminate Hodd.
  - exfalso. assert (Hz : rne x = z + 1).
    { destruct (rne_cases x) as [[H1 H2]|[[H _]|[H _]]].
      - assert (rne x <= z); [|lia]. apply inject_Z_lt_inv. lra.
      - assert (rne x <= z + 1); [|lia]. apply inject_Z_lt_inv.
        rewrite inject_Z_plus. change (inject_Z 1) with 1%Q. lra.
      - assert (rne x <= z); [|lia]. apply inject_Z_lt_inv. lra. }
    destruct (rne_cases x) as [[H1 H2]|[[H He]|[H He]]];
      rewrite Hz, ?inject_Z_plus in *; change (inject_Z 1) with 1%Q in *; try lra.
    assert (Hev : Z.even z = true) by (apply Hties; right; lra).
    rewrite Z.even_add, Hev in He. discriminate He.
Qed.

Lemma rne_inject n : rne (inject_Z n) = n.
Proof. apply rne_unique; [split; lra|]. intros [H|H]; lra. Qed.

Lemma rne_mono x y : (x <= y)%Q -> rne x <= rne y.
Proof.
  intros Hxy.
  destruct (Z.le_gt_cases (rne x) (rne y)) as [H|H]; [exact H|exfalso].
  assert (Hz : (inject_Z (rne y) + 1 <= inject_Z (rne x))%Q).
  { change 1%Q with (inject_Z 1). rewrite <- inject_Z_plus, <- Zle_Qle. lia. }
  destruct (rne_cases x) as [[H1 H2]|[[Hx Hex]|[Hx Hex]]];
    destruct (rne_cases y) as [[H3 H4]|[[Hy Hey]|[Hy Hey]]]; try lra.
  assert (Heq : rne x = rne y + 1).
  { assert (rne x <= rne y + 1); [|lia]. apply inject_Z_lt_inv.
    rewrite inject_Z_plus. change (inject_Z 1) with 1%Q. lra. }
  rewrite Heq, Z.even_add, Hey in Hex. discriminate Hex.
Qed.

Lemma rne_le x n : (x <= inject_Z n)%Q -> rne x <= n.
Proof. intros H. rewrite <- (rne_inject n). now apply rne_mono. Qed.

Lemma rne_ge x n : (inject_Z n <= x)%Q -> n <= rne x.
Proof. intros H. rewrite <- (rne_inject n). now apply rne_mono. Qed.

Lemma rne_lt_half x n : (x < inject_Z n + (1 # 2))%Q -> rne x <= n.
Proof.
  intros H. pose proof (rne_bounds x) as [Hlo _].
  apply inject_Z_lt_inv. lra.
Qed.

Lemma rne_opp x : rne (- x) = - rne x.
Proof.
  apply rne_unique.
  - pose proof (rne_bounds x) as [Hlo Hhi]. rewrite inject_Z_opp. split; lra.
  - rewrite inject_Z_opp, Z.even_opp. intros Hties.
    destruct (rne_cases x) as [[H1 H2]|[[H He]|[H He]]]; [|exact He|exact He].
    destruct Hties; lra.
Qed.

Lemma rne_comp x y : (x == y)%Q -> rne x = rne y.
Proof.
  intros Hxy. apply rne_unique.
  - pose proof (rne_bounds y) as [Hlo Hhi]. split; lra.
  - intros Hties.
    destruct (rne_cases y) as [[H1 H2]|[[H He]|[H He]]]; [|exact He|exact He].
    destruct Hties; lra.
Qed.

(** Rounding to binary64: [fl] keeps the sign, is odd and monotone. *)

Lemma Qabs_pos_eq x : (0 <= x)%Q -> Qabs x = x.
Proof.
  destruct x as [n d]. unfold Qle. cbn. intros H.
  rewrite Z.abs_eq by lia. reflexivity.
Qed.

Lemma Qabs_opp_eq x : Qabs (- x) = Qabs x.
Proof. destruct x as [n d]. cbn. now rewrite Z.abs_opp. Qed.

Lemma fl_nonzero x :
  ~ (x == 0)%Q -> fl x = (inject_Z (rne (x / 2 ^ ulp_exp x)) * 2 ^ ulp_exp x)%Q.
Proof.
  intros Hx. unfold fl. destruct (Qeq_bool x 0) eqn:E; [|reflexivity].
  apply Qeq_bool_iff in E. contradiction.
Qed.

Lemma fl_zero x : (x == 0)%Q -> fl x = 0%Q.
Proof. intros Hx. unfold fl. apply Qeq_bool_iff in Hx. now rewrite Hx. Qed.

Lemma fl_nonneg x : (0 <= x)%Q -> (0 <= fl x)%Q.
Proof.
  intros Hx. unfold fl. destruct (Qeq_bool x 0); [lra|].
  pose proof (pow2_pos (ulp_exp x)) as Hp.
  apply Qmult_le_0_compat; [|lra].
  change 0%Q with (inject_Z 0). rewrite <- Zle_Qle. apply rne_ge.
  change (inject_Z 0) with 0%Q. apply Qle_shift_div_l; [exact Hp|lra].
Qed.

Lemma fl_opp x : (fl (- x) == - fl x)%Q.
Proof.
  unfold fl.
  assert (Hz : Qeq_bool (- x) 0 = Qeq_bool x 0).
  { destruct (Qeq_bool x 0) eqn:E.
    - apply Qeq_bool_iff in E. apply Qeq_bool_iff. lra.
    - destruct (Qeq_bool (- x) 0) eqn:E'; [|reflexivity].
      apply Qeq_bool_iff in E'. assert (H : (x == 0)%Q) by lra.
      apply Qeq_bool_iff in H. congruence. }
  rewrite Hz. destruct (Qeq_bool x 0); [reflexivity|].
  unfold ulp_exp. rewrite Qabs_opp_eq. fold (ulp_exp x).
  assert (Hdiv : (- x / 2 ^ ulp_exp x == - (x / 2 ^ ulp_exp x))%Q).
  { unfold Qdiv. ring. }
  rewrite (rne_comp _ _ Hdiv), rne_opp, inject_Z_opp. ring.
Qed.

Lemma fl_nonpos x : (x <= 0)%Q -> (fl x <= 0)%Q.
Proof.
  intros Hx. assert (H : (0 <= fl (- x))%Q) by (apply fl_nonneg; lra).
  rewrite fl_opp in H. lra.
Qed.

Lemma ulp_exp_pos x : (0 < x)%Q -> ulp_exp x = Z.max (ilog2 x - 52) (-1074).
Proof. intros Hx. unfold ulp_exp. rewrite Qabs_pos_eq by lra. reflexivity. Qed.

Lemma pow2_split a b : (2 ^ a == 2 ^ (a - b) * 2 ^ b)%Q.
Proof. rewrite <- pow2_add. now replace (a - b + b) with a by lia. Qed.

Lemma fl_mono_pos x y : (0 < x)%Q -> (x <= y)%Q -> (fl x <= fl y)%Q.
Proof.
  intros Hx Hxy.
  assert (Hy : (0 < y)%Q) by lra.
  rewrite (fl_nonzero x), (fl_nonzero y) by lra.
  rewrite (ulp_exp_pos x Hx), (ulp_exp_pos y Hy).
  pose proof (ilog2_mono x y Hx Hxy) as He.
  destruct (ilog2_spec x Hx) as [_ Hxhi].
  destruct (ilog2_spec y Hy) as [Hylo _].
  set (ex := ilog2 x) in *. set (ey := ilog2 y) in *.
  set (qx := Z.max (ex - 52) (-1074)). set (qy := Z.max (ey - 52) (-1074)).
  pose proof (pow2_pos qx) as Hpx. pose proof (pow2_pos qy) as Hpy.
  destruct (Z.eq_dec qx qy) as [Heq|Hne].
  - rewrite <- Heq. apply Qmult_le_compat_r; [|lra].
    rewrite <- Zle_Qle. apply rne_mono.
    apply Qle_shift_div_l; [exact Hpx|].
    assert (E : (x / 2 ^ qx * 2 ^ qx == x)%Q) by (field; lra).
    lra.
  - assert (Hqy : qy = ey - 52) by lia.
    assert (Hqx : qx + 1 <= qy) by lia.
    assert (Hexq : ex + 1 <= qx + 53) by lia.
    assert (H1 : rne (x / 2 ^ qx) <= 2 ^ 53).
    { apply rne_le. apply Qle_shift_div_r; [exact Hpx|].
      rewrite pow2_inject by lia. rewrite <- pow2_add.
      pose proof (pow2_le (ex + 1) (53 + qx) ltac:(lia)). lra. }
    assert (H2 : 2 ^ 52 <= rne (y / 2 ^ qy)).
    { apply rne_ge. apply Qle_shift_div_l; [exact Hpy|].
      rewrite pow2_inject by lia. rewrite <- pow2_add.
      replace (52 + qy) with ey by lia. exact Hylo. }
    rewrite Zle_Qle in H1, H2. rewrite pow2_inject in H1, H2 by lia.
    assert (H3 : (inject_Z (rne (x / 2 ^ qx)) * 2 ^ qx <= 2 ^ 53 * 2 ^ qx)%Q).
    { apply Qmult_le_compat_r; [exact H1|lra]. }
    assert (H4 : (2 ^ 52 * 2 ^ qy <= inject_Z (rne (y / 2 ^ qy)) * 2 ^ qy)%Q).
    { apply Qmult_le_compat_r; [exact H2|lra]. }
    rewrite <- pow2_add in H3, H4.
    pose proof (pow2_le (53 + qx) (52 + qy) ltac:(lia)). lra.
Qed.

Lemma fl_mono x y : (x <= y)%Q -> (fl x <= fl y)%Q.
Proof.
  intros Hxy.
  destruct (Qlt_le_dec 0 x) as [Hx|Hx].
  - now apply fl_mono_pos.
  - destruct (Qlt_le_dec y 0) as [Hy|Hy].
    + assert (H : (fl (- y) <= fl (- x))%Q) by (apply fl_mono_pos; lra).
      rewrite !fl_opp in H. lra.
    + pose proof (fl_nonpos x Hx). pose proof (fl_nonneg y Hy). lra.
Qed.

(** A number of the grid of its binade is kept. *)
Lemma fl_grid n q :
  -1074 <= q -> 2 ^ 52 <= n < 2 ^ 53 -> (fl (inject_Z n * 2 ^ q) == inject_Z n * 2 ^ q)%Q.
Proof.
  intros Hq [Hlo Hhi].
  pose proof (pow2_pos q) as Hp.
  rewrite Zle_Qle in Hlo. rewrite Zlt_Qlt in Hhi.
  rewrite pow2_inject in Hlo, Hhi by lia.
  set (x := (inject_Z n * 2 ^ q)%Q).
  assert (H52 : (0 < 2 ^ 52)%Q) by apply pow2_pos.
  assert (Hx : (0 < x)%Q) by (unfold x; apply Qmult_lt_0_compat; lra).
  assert (He : ilog2 x = 52 + q).
  { apply ilog2_unique; unfold x.
    - rewrite pow2_add. apply Qmult_le_compat_r; lra.
    - replace (52 + q + 1) with (53 + q) by lia. rewrite pow2_add.
      apply Qmult_lt_compat_r; lra. }
  rewrite (fl_nonzero x) by lra. rewrite (ulp_exp_pos x Hx), He.
  replace (Z.max (52 + q - 52) (-1074)) with q by lia.
  assert (E : (x / 2 ^ q == inject_Z n)%Q) by (unfold x; field; lra).
  rewrite (rne_comp _ _ E), rne_inject. reflexivity.
Qed.

(** Around the midpoint below a number [n * 2^q] of even [n] in the
    upper part of its binade: what lies below the midpoint is rounded to
    the number before at most, the midpoint and what lies above to
    [n * 2^q] at least. *)
Lemma fl_midpoint n q p :
  -1074 <= q -> 2 ^ 52 < n <= 2 ^ 53 -> Z.even n = true ->
  ((p < (inject_Z n - (1 # 2)) * 2 ^ q)%Q -> (fl p <= inject_Z (n - 1) * 2 ^ q)%Q) /\
  (((inject_Z n - (1 # 2)) * 2 ^ q <= p)%Q -> (inject_Z n * 2 ^ q <= fl p)%Q).
Proof.
  intros Hq [Hlo Hhi] Heven.
  pose proof (pow2_pos q) as Hp.
  assert (H52 : (0 < 2 ^ 52)%Q) by apply pow2_pos.
  assert (Hlo' : (2 ^ 52 + 1 <= inject_Z n)%Q).
  { rewrite <- pow2_inject by lia. change 1%Q with (inject_Z 1).
    rewrite <- inject_Z_plus, <- Zle_Qle. lia. }
  assert (Hhi' : (inject_Z n <= 2 ^ 53)%Q).
  { rewrite <- pow2_inject by lia. rewrite <- Zle_Qle. lia. }
  assert (Hn1 : (inject_Z (n - 1) == inject_Z n - 1)%Q).
  { unfold Z.sub. rewrite inject_Z_plus, inject_Z_opp. reflexivity. }
  set (m := ((inject_Z n - (1 # 2)) * 2 ^ q)%Q).
  assert (Hm : (0 < m)%Q) by (unfold m; apply Qmult_lt_0_compat; lra).
  assert (Hem : ilog2 m = 52 + q).
  { apply ilog2_unique; unfold m.
    - rewrite pow2_add. apply Qmult_le_compat_r; lra.
    - replace (52 + q + 1) with (53 + q) by lia. rewrite pow2_add.
      apply Qmult_lt_compat_r; lra. }
  assert (Hflm : (fl m == inject_Z n * 2 ^ q)%Q).
  { rewrite (fl_nonzero m) by lra. rewrite (ulp_exp_pos m Hm), Hem.
    replace (Z.max (52 + q - 52) (-1074)) with q by lia.
    assert (E : (m / 2 ^ q == inject_Z n - (1 # 2))%Q) by (unfold m; field; lra).
    assert (Hr : rne (inject_Z n - (1 # 2)) = n).
    { apply rne_unique; [split; lra|]. intros _. exact Heven. }
    now rewrite (rne_comp _ _ E), Hr. }
  split.
  - intros Hlt.
    destruct (Qlt_le_dec p (2 ^ 52 * 2 ^ q)) as [Hsmall|Hbig].
    + assert (Hfl : (fl p <= fl (inject_Z (2 ^ 52) * 2 ^ q))%Q).
      { apply fl_mono. rewrite pow2_inject by lia. lra. }
      rewrite fl_grid in Hfl by lia. rewrite pow2_inject in Hfl by lia.
      assert ((2 ^ 52 * 2 ^ q <= inject_Z (n - 1) * 2 ^ q)%Q);
        [apply Qmult_le_compat_r; lra|lra].
    + assert (Hpp : (0 < p)%Q).
      { assert (0 < 2 ^ 52 * 2 ^ q)%Q by (apply Qmult_lt_0_compat; lra). lra. }
      assert (Hep : ilog2 p = 52 + q).
      { apply ilog2_unique.
        - rewrite pow2_add. exact Hbig.
        - replace (52 + q + 1) with (53 + q) by lia. rewrite pow2_add.
          assert ((m < 2 ^ 53 * 2 ^ q)%Q);
            [unfold m; apply Qmult_lt_compat_r; lra|lra]. }
      rewrite (fl_nonzero p) by lra. rewrite (ulp_exp_pos p Hpp), Hep.
      replace (Z.max (52 + q - 52) (-1074)) with q by lia.
      apply Qmult_le_compat_r; [|lra].
      rewrite <- Zle_Qle.
      apply rne_lt_half. apply Qlt_shift_div_r; [exact Hp|].
      assert (E : ((inject_Z (n - 1) + (1 # 2)) * 2 ^ q == m)%Q)
        by (unfold m; rewrite Hn1; ring).
      rewrite E. exact Hlt.
  - intros Hge. rewrite <- Hflm. now apply fl_mono.
Qed.

(** Some values: the double nearest to 0.3; [0.1 + 0.2], which is the
    next double, 0.30000000000000004; [0.6666666666666666 * 30], which
    is 20; and [1 / 3 * 100], which is 33.33333333333333, the double
    before the one nearest to [100 / 3]. *)
Lemma fl_samples :
  (fl (3 # 10) == 5404319552844595 # 18014398509481984)%Q /\
  (fl (fl (1 # 10) + fl (2 # 10)) == 5404319552844596 # 18014398509481984)%Q /\
  (fl (fl (6666666666666666 # 10000000000000000) * 30) == 20)%Q /\
  (fl (fl (1 # 3) * 100) == 4691249611844266 # 140737488355328)%Q /\
  (fl (100 # 3) == 4691249611844267 # 140737488355328)%Q.
Proof. repeat split; vm_compute; reflexivity. Qed.

(** The two boundaries of the distance zones and the threshold of the
    form indicators, in exact terms. *)
Lemma fl_lt_20 p : (fl p < 20)%Q <-> (p < 11258999068426239 # 562949953421312)%Q.
Proof.
  destruct (fl_midpoint 5629499534213120 (-48) p) as [Hbelow Habove]; try easy.
  assert (Hmid : ((inject_Z 5629499534213120 - (1 # 2)) * 2 ^ (-48) ==
                  11258999068426239 # 562949953421312)%Q) by reflexivity.
  assert (H20 : (inject_Z 5629499534213120 * 2 ^ (-48) == 20)%Q) by reflexivity.
  assert (H19 : (inject_Z (5629499534213120 - 1) * 2 ^ (-48) < 20)%Q) by reflexivity.
  rewrite Hmid in Hbelow, Habove. rewrite H20 in Habove.
  split.
  - intros Hfl. apply Qnot_le_lt. intros Hge. specialize (Habove Hge). lra.
  - intros Hlt. specialize (Hbelow Hlt). lra.
Qed.

Lemma fl_lt_50 p : (fl p < 50)%Q <-> (p < 14073748835532799 # 281474976710656)%Q.
Proof.
  destruct (fl_midpoint 7036874417766400 (-47) p) as [Hbelow Habove]; try easy.
  assert (Hmid : ((inject_Z 7036874417766400 - (1 # 2)) * 2 ^ (-47) ==
                  14073748835532799 # 281474976710656)%Q) by reflexivity.
  assert (H50 : (inject_Z 7036874417766400 * 2 ^ (-47) == 50)%Q) by reflexivity.
  assert (H49 : (inject_Z (7036874417766400 - 1) * 2 ^ (-47) < 50)%Q) by reflexivity.
  rewrite Hmid in Hbelow, Habove. rewrite H50 in Habove.
  split.
  - intros Hfl. apply Qnot_le_lt. intros Hge. specialize (Habove Hge). lra.
  - intros Hlt. specialize (Hbelow Hlt). lra.
Qed.

Lemma fl_gt_03 p :
  (fl (3 # 10) < fl p)%Q <-> (10808639105689191 # 36028797018963968 <= p)%Q.
Proof.
  destruct (fl_midpoint 5404319552844596 (-54) p) as [Hbelow Habove]; try easy.
  assert (Hmid : ((inject_Z 5404319552844596 - (1 # 2)) * 2 ^ (-54) ==
                  10808639105689191 # 36028797018963968)%Q) by reflexivity.
  assert (H03 : (inject_Z (5404319552844596 - 1) * 2 ^ (-54) == fl (3 # 10))%Q)
    by (vm_compute; reflexivity).
  assert (Hnext : (fl (3 # 10) < inject_Z 5404319552844596 * 2 ^ (-54))%Q)
    by (vm_compute; reflexivity).
  rewrite Hmid in Hbelow, Habove. rewrite H03 in Hbelow.
  split.
  - intros Hfl. apply Qnot_lt_le. intros Hlt. specialize (Hbelow Hlt). lra.
  - intros Hge. specialize (Habove Hge). lra.
Qed.

Lemma fl_lt_minus_03 p :
  (fl p < - fl (3 # 10))%Q <-> (p <= - (10808639105689191 # 36028797018963968))%Q.
Proof.
  pose proof (fl_gt_03 (- p)) as H. rewrite fl_opp in H.
  split; intros Hp.
  - assert (10808639105689191 # 36028797018963968 <= - p)%Q by (apply H; lra). lra.
  - assert (fl (3 # 10) < - fl p)%Q by (apply H; lra). lra.
Qed.

(** ** The form indicators *)

Lemma last_opt_snoc {A} (l : list A) x : last_opt (l ++ [x]) = Some x.
Proof. unfold last_opt. rewrite map_app. simpl. apply last_last. Qed.

(** With a single game the comparison table shows the steady icon, not
    an undetermined form; and a latest game that lies 0.3 above the
    overall average in decimal terms, which is not more than 0.3, is
    shown as rising when the averages are 1.2 and 1.5. *)
Lemma form_indicator_counterexample :
  ((length (Stats.gamePerformance sampleStatsOneGame) < 2)%nat /\
   formIcon sampleStatsOneGame = "&#9654;" /\
   formIndicator sampleStatsOneGame = ("form-steady", "--")) /\
  ((2 <= length (Stats.gamePerformance risingStats))%nat /\
   (recentAvg risingStats - Stats.avgScore risingStats == 3 # 10)%Q /\
   formIcon risingStats = "&#9650;" /\
   formIndicator risingStats = ("form-up", "&#9650; Rising")).
Proof.
  split.
  - split; [vm_compute; lia | split; vm_compute; reflexivity].
  - split; [vm_compute; lia|]. split; [vm_compute; reflexivity|].
    split; vm_compute; reflexivity.
Qed.

(** C9 (amended).  With at least two games in [gamePerformance], both
    the comparison table and the player dashboard compare the average of
    the last (most recent) game with the overall average, in double
    precision: the difference of the two stored doubles is rounded and
    compared with the doubles nearest to 0.3 and to -0.3; above is shown
    as rising, below as declining, anything else as steady.  In exact
    terms the form is rising exactly when the difference of the two
    doubles is at least [10808639105689191 / 2^55], the midpoint between
    the double nearest to 0.3 and the next one, and declining exactly
    when it is at most minus that.  With fewer than two games the
    dashboard shows the undetermined mark ["--"], while the comparison
    table shows the steady icon. *)
Theorem form_indicator_thresholds :
  forall s : Stats.t,
    let games := length (Stats.gamePerformance s) in
    let exact := (fl (recentAvg s) - fl (Stats.avgScore s))%Q in
    let diff := fl exact in
    (forall l g, Stats.gamePerformance s = l ++ [g] -> recentAvg s = GamePerf.avgScore g) /\
    ((2 <= games)%nat ->
       ((fl (3 # 10) < diff)%Q ->
          formIcon s = "&#9650;" /\ formIndicator s = ("form-up", "&#9650; Rising")) /\
       ((diff < - fl (3 # 10))%Q ->
          formIcon s = "&#9660;" /\ formIndicator s = ("form-down", "&#9660; Declining")) /\
       ((- fl (3 # 10) <= diff <= fl (3 # 10))%Q ->
          formIcon s = "&#9654;" /\ formIndicator s = ("form-steady", "&#9654; Steady"))) /\
    ((fl (3 # 10) < diff)%Q <-> (10808639105689191 # 36028797018963968 <= exact)%Q) /\
    ((diff < - fl (3 # 10))%Q <-> (exact <= - (10808639105689191 # 36028797018963968))%Q) /\
    ((games < 2)%nat ->
       formIcon s = "&#9654;" /\ formIndicator s = ("form-steady", "--")).
Proof.
  intros s games exact diff.
  assert (Hpos : (0 < fl (3 # 10))%Q) by (vm_compute; reflexivity).
  split; [|split; [|split; [|split]]].
  - intros l g Hl. unfold recentAvg. now rewrite Hl, last_opt_snoc.
  - intros Hgames. apply Nat.leb_le in Hgames.
    unfold formIcon, formIndicator. fold games. rewrite Hgames. fold exact. fold diff.
    split; [|split].
    + intros Hup. apply Qlt_bool_iff in Hup. now rewrite Hup.
    + intros Hdown.
      assert (Hnot : Qlt_bool (fl (3 # 10)) diff = false) by (apply Qlt_bool_false_iff; lra).
      apply Qlt_bool_iff in Hdown. now rewrite Hnot, Hdown.
    + intros [Hlo Hhi].
      apply Qlt_bool_false_iff in Hlo, Hhi. now rewrite Hhi, Hlo.
  - apply fl_gt_03.
  - apply fl_lt_minus_03.
  - intros Hgames. apply Nat.leb_gt in Hgames.
    unfold formIcon, formIndicator. fold games. rewrite Hgames.
    assert (Hzero : fl (fl (Stats.avgScore s) - fl (Stats.avgScore s)) = 0%Q)
      by (apply fl_zero; ring).
    rewrite Hzero.
    assert (Hup : Qlt_bool (fl (3 # 10)) 0 = false) by (apply Qlt_bool_false_iff; lra).
    assert (Hdown : Qlt_bool 0 (- fl (3 # 10)) = false) by (apply Qlt_bool_false_iff; lra).
    now rewrite Hup, Hdown.
Qed.

(** Two players whose latest game lies 0.3 above their overall average
    in decimal terms: from 1.2 to 1.5 the doubles differ by
    0.30000000000000004 and the form is rising; from 0.2 to 0.5 they
    differ by the double nearest to 0.3 and the form is steady. *)
Lemma form_indicator_thresholds_witness :
  ((Stats.avgScore risingStats == 6 # 5)%Q /\ (recentAvg risingStats == 3 # 2)%Q /\
   formIcon risingStats = "&#9650;" /\
   formIndicator risingStats = ("form-up", "&#9650; Rising")) /\
  ((Stats.avgScore steadyStats == 1 # 5)%Q /\ (recentAvg steadyStats == 1 # 2)%Q /\
   formIcon steadyStats = "&#9654;" /\
   formIndicator steadyStats = ("form-steady", "&#9654; Steady")).
Proof.
  split.
  - split; [vm_compute; reflexivity|]. split; [vm_compute; reflexivity|].
    pose proof (form_indicator_thresholds risingStats) as H. cbv zeta in H.
    destruct H as (_ & H & _).
    apply H; [vm_compute; lia|vm_compute; reflexivity].
  - split; [vm_compute; reflexivity|]. split; [vm_compute; reflexivity|].
    pose proof (form_indicator_thresholds steadyStats) as H. cbv zeta in H.
    destruct H as (_ & H & _).
    apply H; [vm_compute; lia|split; vm_compute; discriminate].
Defined.

(** ** Distance zones *)

Lemma zoneOf_cases b :
  (zoneOf b = "Close (<20cm)" /\ (fl (fl (distOr0 b) * 30) < 20)%Q) \/
  (zoneOf b = "Medium (20-50cm)" /\ (20 <= fl (fl (distOr0 b) * 30) < 50)%Q) \/
  (zoneOf b = "Far (>50cm)" /\ (50 <= fl (fl (distOr0 b) * 30))%Q).
Proof.
  unfold zoneOf.
  destruct (Qlt_bool (fl (fl (distOr0 b) * 30)) 20) eqn:H20.
  - left. split; [reflexivity|now apply Qlt_bool_iff].
  - apply Qlt_bool_false_iff in H20.
    destruct (Qlt_bool (fl (fl (distOr0 b) * 30)) 50) eqn:H50.
    + right; left. split; [reflexivity|]. split; [exact H20|now apply Qlt_bool_iff].
    + right; right. split; [reflexivity|now apply Qlt_bool_false_iff].
Qed.

Lemma distanceZonesOf_fold pb : forall t1 g1 t2 g2 t3 g3,
  fold_left (fun zones b =>
               let zone := zoneOf b in
               let zones := JsObj.alter (fun d => Zone.mk (S (Zone.total d)) (Zone.good d))
                              zone zones in
               let score := rawScore b in
               if ge3 score
               then JsObj.alter (fun d => Zone.mk (Zone.total d) (S (Zone.good d))) zone zones
               else zones)
    pb [("Close (<20cm)", Zone.mk t1 g1);
        ("Medium (20-50cm)", Zone.mk t2 g2);
        ("Far (>50cm)", Zone.mk t3 g3)] =
  [("Close (<20cm)",
     Zone.mk (length (zoneBowls "Close (<20cm)" pb) + t1)
       (length (goodBowls (zoneBowls "Close (<20cm)" pb)) + g1));
   ("Medium (20-50cm)",
     Zone.mk (length (zoneBowls "Medium (20-50cm)" pb) + t2)
       (length (goodBowls (zoneBowls "Medium (20-50cm)" pb)) + g2));
   ("Far (>50cm)",
     Zone.mk (length (zoneBowls "Far (>50cm)" pb) + t3)
       (length (goodBowls (zoneBowls "Far (>50cm)" pb)) + g3))]%nat.
Proof.
  induction pb as [|b r IH]; intros; [reflexivity|].
  cbn [fold_left]. unfold zoneBowls, goodBowls. cbn [List.filter].
  destruct (zoneOf_cases b) as [[-> _]|[[-> _]|[-> _]]]; cbn -[Nat.add];
    destruct (ge3 (rawScore b)); cbn -[Nat.add]; rewrite IH; unfold zoneBowls, goodBowls.
  all: repeat lazymatch goal with
              | |- _ :: _ = _ :: _ => f_equal
              | |- (_, _) = (_, _) => f_equal
              | |- Zone.mk _ _ = Zone.mk _ _ => f_equal
              end; cbn [length]; lia.
Qed.

Lemma distanceZonesOf_eq pb :
  distanceZonesOf pb =
  [("Close (<20cm)",
     Zone.mk (length (zoneBowls "Close (<20cm)" pb))
       (length (goodBowls (zoneBowls "Close (<20cm)" pb))));
   ("Medium (20-50cm)",
     Zone.mk (length (zoneBowls "Medium (20-50cm)" pb))
       (length (goodBowls (zoneBowls "Medium (20-50cm)" pb))));
   ("Far (>50cm)",
     Zone.mk (length (zoneBowls "Far (>50cm)" pb))
       (length (goodBowls (zoneBowls "Far (>50cm)" pb))))].
Proof.
  unfold distanceZonesOf, distanceZones0. rewrite distanceZonesOf_fold.
  now rewrite !Nat.add_0_r.
Qed.

Lemma successRate_of_bowls l :
  successRate (Zone.mk (length l) (length (goodBowls l))) = successRateOf l.
Proof. destruct l; reflexivity. Qed.

Lemma distanceSuccessRatesOf_eq pb :
  distanceSuccessRatesOf (distanceZonesOf pb) =
  [("Close (<20cm)", successRateOf (zoneBowls "Close (<20cm)" pb));
   ("Medium (20-50cm)", successRateOf (zoneBowls "Medium (20-50cm)" pb));
   ("Far (>50cm)", successRateOf (zoneBowls "Far (>50cm)" pb))].
Proof.
  rewrite distanceZonesOf_eq. rewrite <- !successRate_of_bowls. reflexivity.
Qed.

Lemma goodBowls_length l : (length (goodBowls l) <= length l)%nat.
Proof. apply filter_length_le. Qed.

Lemma successRateOf_bounds l : (0 <= successRateOf l <= 100)%Q.
Proof.
  destruct l as [|b r]; [split; discriminate|].
  unfold successRateOf.
  pose proof (goodBowls_length (b :: r)) as Hgood.
  set (good := length (goodBowls (b :: r))) in *.
  set (total := length (b :: r)) in *.
  assert (Htotal : (0 < inject_Z (Z.of_nat total))%Q).
  { change 0%Q with (inject_Z 0). rewrite <- Zlt_Qlt. subst total. simpl. lia. }
  assert (Hg0 : (0 <= inject_Z (Z.of_nat good))%Q).
  { change 0%Q with (inject_Z 0). rewrite <- Zle_Qle. lia. }
  assert (Hgt : (inject_Z (Z.of_nat good) <= inject_Z (Z.of_nat total))%Q).
  { rewrite <- Zle_Qle. lia. }
  assert (H0 : (0 <= inject_Z (Z.of_nat good) / inject_Z (Z.of_nat total))%Q).
  { apply Qle_shift_div_l; [exact Htotal|]. now rewrite Qmult_0_l. }
  assert (H1 : (inject_Z (Z.of_nat good) / inject_Z (Z.of_nat total) <= 1)%Q).
  { apply Qle_shift_div_r; [exact Htotal|]. now rewrite Qmult_1_l. }
  set (quotient := fl (inject_Z (Z.of_nat good) / inject_Z (Z.of_nat total))).
  assert (Hq0 : (0 <= quotient)%Q) by now apply fl_nonneg.
  assert (Hq1 : (quotient <= 1)%Q).
  { assert (E : (fl 1 == 1)%Q) by reflexivity.
    pose proof (fl_mono _ _ H1) as Hfl. fold quotient in Hfl. lra. }
  split.
  - apply fl_nonneg. lra.
  - assert (E : (fl 100 == 100)%Q) by reflexivity.
    assert (Hfl : (fl (quotient * 100) <= fl 100)%Q) by (apply fl_mono; lra).
    lra.
Qed.

Lemma zoneBowls_partition pb :
  Permutation pb
    (zoneBowls "Close (<20cm)" pb ++ zoneBowls "Medium (20-50cm)" pb
     ++ zoneBowls "Far (>50cm)" pb).
Proof.
  induction pb as [|b r IH]; [reflexivity|].
  unfold zoneBowls in *. cbn [List.filter].
  destruct (zoneOf_cases b) as [[-> _]|[[-> _]|[-> _]]]; cbn.
  - now apply perm_skip.
  - rewrite <- Permutation_middle. now apply perm_skip.
  - rewrite app_assoc, <- Permutation_middle, <- app_assoc. now apply perm_skip.
Qed.

Lemma zoneBowls_In zone pb b :
  In b (zoneBowls zone pb) <-> In b pb /\ zoneOf b = zone.
Proof.
  unfold zoneBowls. rewrite filter_In. now rewrite String.eqb_eq.
Qed.

(** C6 (amended).  The distance success rates of a computed statistics
    object have exactly the three zones; the matching bowls are
    partitioned by the product of the stored distance and 30 as the
    processor rounds it: below 20, from 20 and below 50, from 50.  The
    rounded product is below 20 exactly when the exact product is below
    [20 - 2^-49], and below 50 exactly when the exact product is below
    [50 - 2^-48].  The rate of a zone is the number of its bowls with a
    score of at least 3 over the number of its bowls, times 100, the
    quotient and the product rounded to doubles, and is 0 for a zone
    without bowls; every rate lies between 0 and 100. *)
Theorem distanceSuccessRates_zones :
  forall cache allBowls allGames playerName filterGameId s cache',
    cache !! cacheKey playerName filterGameId = None ->
    getPlayerStats cache allBowls allGames playerName filterGameId = (Some s, cache') ->
    let playerBowls := playerBowlsOf playerName filterGameId allBowls in
    let feet (b : Bowl.t) : Q := fl (distOr0 b) in
    let distCm (b : Bowl.t) : Q := fl (feet b * 30) in
    let close := zoneBowls "Close (<20cm)" playerBowls in
    let medium := zoneBowls "Medium (20-50cm)" playerBowls in
    let far := zoneBowls "Far (>50cm)" playerBowls in
    let rate (zone : list Bowl.t) : Q :=
      match zone with
      | [] => 0%Q
      | _ => fl (fl (inject_Z (Z.of_nat (length (List.filter (fun b => ge3 (rawScore b)) zone)))
                     / inject_Z (Z.of_nat (length zone))) * 100)
      end in
    Permutation playerBowls (close ++ medium ++ far) /\
    (forall b, In b close <-> In b playerBowls /\ (distCm b < 20)%Q) /\
    (forall b, In b medium <-> In b playerBowls /\ (20 <= distCm b < 50)%Q) /\
    (forall b, In b far <-> In b playerBowls /\ (50 <= distCm b)%Q) /\
    (forall b, ((distCm b < 20)%Q <->
                (feet b * 30 < 11258999068426239 # 562949953421312)%Q) /\
               ((distCm b < 50)%Q <->
                (feet b * 30 < 14073748835532799 # 281474976710656)%Q)) /\
    Stats.distanceSuccessRates s =
      [("Close (<20cm)", rate close); ("Medium (20-50cm)", rate medium);
       ("Far (>50cm)", rate far)] /\
    (0 <= rate close <= 100)%Q /\ (0 <= rate medium <= 100)%Q /\ (0 <= rate far <= 100)%Q /\
    (forall zone, In zone [close; medium; far] -> zone = [] -> rate zone = 0%Q).
Proof.
  intros cache allBowls allGames playerName filterGameId s cache' Hmiss Hcall
    playerBowls feet distCm close medium far rate.
  destruct (getPlayerStats_computed _ _ _ _ _ _ _ Hmiss Hcall) as [_ ->].
  fold playerBowls.
  split; [apply zoneBowls_partition|].
  split; [|split; [|split; [|split]]].
  - intros b. unfold close, distCm, feet. rewrite zoneBowls_In.
    destruct (zoneOf_cases b) as [[Hz Hd]|[[Hz Hd]|[Hz Hd]]]; rewrite Hz;
      (split; intros [Hin H]; split; try exact Hin; try reflexivity; try discriminate H; lra).
  - intros b. unfold medium, distCm, feet. rewrite zoneBowls_In.
    destruct (zoneOf_cases b) as [[Hz Hd]|[[Hz Hd]|[Hz Hd]]]; rewrite Hz;
      (split; intros [Hin H]; split; try exact Hin; try reflexivity; try discriminate H; lra).
  - intros b. unfold far, distCm, feet. rewrite zoneBowls_In.
    destruct (zoneOf_cases b) as [[Hz Hd]|[[Hz Hd]|[Hz Hd]]]; rewrite Hz;
      (split; intros [Hin H]; split; try exact Hin; try reflexivity; try discriminate H; lra).
  - intros b. split; [apply fl_lt_20|apply fl_lt_50].
  - split; [apply distanceSuccessRatesOf_eq|].
    split; [apply successRateOf_bounds|].
    split; [apply successRateOf_bounds|].
    split; [apply successRateOf_bounds|].
    intros zone _ ->. reflexivity.
Qed.

Lemma sample_call :
  getPlayerStats ∅ sampleBowls sampleGames "Ann" JUndefined =
    (Some sampleStats, <[cacheKey "Ann" JUndefined := sampleStats]> ∅).
Proof. vm_compute. reflexivity. Qed.

(** The rates of a log with five bowls: three in the close zone, of
    which one is good, one at 0.6666666666666666 ft in the medium zone,
    and one in the far zone.  The rate of the close zone is the double
    that [1 / 3 * 100] evaluates to, 33.33333333333333, one step below
    the double nearest to [100 / 3]. *)
Lemma distanceSuccessRates_zones_witness :
  map (fun zr => (fst zr, Qred (snd zr))) (Stats.distanceSuccessRates zoneStats) =
    [("Close (<20cm)", 2345624805922133 # 70368744177664);
     ("Medium (20-50cm)", 100%Q); ("Far (>50cm)", 0%Q)].
Proof.
  assert (Hcall : getPlayerStats ∅ zoneSampleBowls sampleGames "Ann" JUndefined =
                    (Some zoneStats, <[cacheKey "Ann" JUndefined := zoneStats]> ∅))
    by (vm_compute; reflexivity).
  destruct (distanceSuccessRates_zones ∅ zoneSampleBowls sampleGames "Ann" JUndefined
              zoneStats _ (lookup_empty _) Hcall)
    as (_ & _ & _ & _ & _ & Hrates & _).
  rewrite Hrates. vm_compute. reflexivity.
Defined.

(** A bowl at 0.6666666666666666 ft: the exact product with 30 lies
    below 20, the rounded product is 20, and the bowl counts in the
    medium zone.  And a zone with one good bowl of three: its rate lies
    below [100 / 3], while the double nearest to [100 / 3] lies
    above. *)
Lemma zone_boundary_counterexample :
  (distOr0 boundaryBowl * 30 < 20)%Q /\
  (fl (distOr0 boundaryBowl) * 30 < 20)%Q /\
  zoneOf boundaryBowl = "Medium (20-50cm)" /\
  match fst (getPlayerStats ∅ [boundaryBowl] sampleGames "Ann" JUndefined) with
  | Some s =>
      map (fun zr => (fst zr, Qred (snd zr))) (Stats.distanceSuccessRates s) =
        [("Close (<20cm)", 0%Q); ("Medium (20-50cm)", 100%Q); ("Far (>50cm)", 0%Q)]
  | None => False
  end /\
  match JsObj.get "Close (<20cm)" (Stats.distanceSuccessRates zoneStats) with
  | Some rate => (rate < 100 # 3)%Q /\ (100 # 3 < fl (100 # 3))%Q
  | None => False
  end.
Proof.
  split; [vm_compute; reflexivity|]. split; [vm_compute; reflexivity|].
  split; [vm_compute; reflexivity|]. split; [vm_compute; reflexivity|].
  vm_compute. split; reflexivity.
Qed.

(** ** Rounding to two decimals *)

Lemma round2_rounded2 x : rounded2 x (round2 x).
Proof.
  unfold rounded2, round2. exists (Qfloor (x * 100 + (1 # 2))).
  split; [reflexivity|].
  pose proof (Qfloor_le (x * 100 + (1 # 2))) as Hlo.
  pose proof (Qlt_floor (x * 100 + (1 # 2))) as Hhi.
  rewrite inject_Z_plus in Hhi. change (inject_Z 1) with 1%Q in Hhi.
  set (k := inject_Z (Qfloor (x * 100 + (1 # 2)))) in *.
  apply Qabs_Qle_condition.
  assert (E : (k / 100 == k * (1 # 100))%Q) by (unfold Qdiv; reflexivity).
  rewrite E. split; lra.
Qed.

(** Away from the halves the rounded value is determined. *)
Lemma rounded2_between x r k :
  rounded2 x r ->
  (inject_Z k - (1 # 2) < x * 100)%Q -> (x * 100 < inject_Z k + (1 # 2))%Q ->
  (r == inject_Z k / 100)%Q.
Proof.
  intros [k' [Hr Habs]] Hlo Hhi.
  apply Qabs_Qle_condition in Habs. destruct Habs as [H1 H2].
  assert (E : (inject_Z k' / 100 == inject_Z k' * (1 # 100))%Q) by (unfold Qdiv; reflexivity).
  rewrite Hr, E in H1, H2.
  assert (Hk : k' = k).
  { assert (Hle : k' <= k) by (apply inject_Z_lt_inv; lra).
    assert (Hge : k <= k') by (apply inject_Z_lt_inv; lra).
    lia. }
  now rewrite <- Hk.
Qed.

Lemma rounded2_zero r : rounded2 0 r -> (r == 0)%Q.
Proof.
  intros H. rewrite (rounded2_between 0 r 0 H); reflexivity.
Qed.

(** ** Objects used as dictionaries *)

Lemma JsObj_get_set {V} k k' (v : V) o :
  JsObj.get k (JsObj.set k' v o) = if String.eqb k k' then Some v else JsObj.get k o.
Proof.
  induction o as [|[k0 v0] r IH]; simpl.
  - destruct (String.eqb k k'); reflexivity.
  - destruct (String.eqb_spec k' k0) as [->|Hne]; simpl.
    + destruct (String.eqb k k0); reflexivity.
    + destruct (String.eqb_spec k k0) as [->|Hne'].
      * destruct (String.eqb_spec k0 k') as [->|_]; [congruence|reflexivity].
      * exact IH.
Qed.


(** ** Average score and score distribution *)

Lemma fold_left_add_map {A} (f : A -> Z) l : forall z,
  fold_left (fun sum b => sum + f b) l z = fold_left Z.add (map f l) z.
Proof. induction l as [|x r IH]; intros z; simpl; [reflexivity|apply IH]. Qed.

Lemma meanScore_meanOf l : meanScore l = meanOf (map scoreOr0 l).
Proof.
  unfold meanScore, meanOf. destruct l as [|b r]; [reflexivity|].
  rewrite fold_left_add_map, length_map. reflexivity.
Qed.








(** ** Clutch average *)

Lemma clutchBowlsOf_filter playerBowls allGames :
  clutchBowlsOf playerBowls allGames =
  List.filter (fun b => match findGame allGames (Bowl.gameId b) with
                        | Some game => totalEndsOf game - 3 <? Bowl.endNumber b
                        | None => false
                        end) playerBowls.
Proof.
  unfold clutchBowlsOf. apply filter_ext. intros b.
  destruct (findGame allGames (Bowl.gameId b)); [|reflexivity].
  cbv zeta. apply Z.gtb_ltb.
Qed.

Lemma totalEndsOf_cases game :
  (forall n, Game.endCount game = JVal n -> n <> 0 -> totalEndsOf game = n) /\
  (forall n, truthy (Game.endCount game) = false ->
             Game.totalEnds game = JVal n -> n <> 0 -> totalEndsOf game = n) /\
  (truthy (Game.endCount game) = false -> truthy (Game.totalEnds game) = false ->
   totalEndsOf game = 21).
Proof.
  unfold totalEndsOf, jsor.
  split; [|split].
  - intros n Hcount Hn. rewrite Hcount. apply Z.eqb_neq in Hn.
    cbn [truthy]. unfold falsy, falsy_Z. rewrite Hn. cbn [negb jsor_def].
    unfold falsy, falsy_Z. now rewrite Hn.
  - intros n Hcount Hends Hn. rewrite Hcount, Hends. apply Z.eqb_neq in Hn.
    cbn [jsor_def]. unfold falsy, falsy_Z. now rewrite Hn.
  - intros Hcount Hends. rewrite Hcount.
    destruct (Game.totalEnds game) as [| |n]; try reflexivity.
    cbn [truthy jsor_def] in *. now destruct (falsy n).
Qed.

(** A bowl recorded for end 25 of a game of 21 ends, which no
    description of the final three ends of the game covers, is a clutch
    bowl. *)
Lemma clutchAvg_beyond_last_end_counterexample :
  totalEndsOf (sampleGame "g1" 21 1000) = 21 /\
  (forall b, In b beyondBowls -> inFinalThree sampleGames b = false) /\
  match fst (getPlayerStats ∅ beyondBowls sampleGames "Ann" JUndefined) with
  | Some s => (Stats.clutchAvg s == 4)%Q
  | None => False
  end.
Proof.
  split; [reflexivity|]. split; [|vm_compute; reflexivity].
  intros b [<-|[<-|[]]]; vm_compute; reflexivity.
Qed.

(** C5 (amended).  [clutchAvg] is the mean score, rounded to 2 decimals,
    of the matching bowls with a score (a [null] score counting for 0)
    whose game is on record and whose end number is above that game's
    own number of ends minus 3, and 0 when no bowl qualifies.  The
    number of ends of a game is its [endCount], else its [totalEnds],
    else 21.  The end number has no upper bound: for a game of 21 ends
    every end from 19 on qualifies.  For bowls whose end number does not
    exceed the number of ends of their game, the qualifying ends are
    the final three of the game, 19, 20 and 21 of 21: in a log of such
    bowls the clutch bowls are the bowls with a score of the final three
    ends of their games. *)
Theorem clutchAvg_final_three_ends :
  forall cache allBowls allGames playerName filterGameId s cache',
    cache !! cacheKey playerName filterGameId = None ->
    getPlayerStats cache allBowls allGames playerName filterGameId = (Some s, cache') ->
    let playerBowls := playerBowlsOf playerName filterGameId allBowls in
    let qualifies (b : Bowl.t) : bool :=
      match findGame allGames (Bowl.gameId b) with
      | Some game => totalEndsOf game - 3 <? Bowl.endNumber b
      | None => false
      end in
    let clutch :=
      List.filter (fun b => defined (Bowl.score b)) (List.filter qualifies playerBowls) in
    rounded2 (meanOf (map scoreOr0 clutch)) (Stats.clutchAvg s) /\
    (clutch = [] -> Stats.clutchAvg s == 0) /\
    ((forall b game, In b playerBowls -> findGame allGames (Bowl.gameId b) = Some game ->
                     Bowl.endNumber b <= totalEndsOf game) ->
     clutch = List.filter (fun b => defined (Bowl.score b))
                (List.filter (inFinalThree allGames) playerBowls)) /\
    (forall b game,
        findGame allGames (Bowl.gameId b) = Some game ->
        (Bowl.endNumber b <= totalEndsOf game -> qualifies b = inFinalThree allGames b) /\
        (totalEndsOf game = 21 ->
         (qualifies b = true <-> 19 <= Bowl.endNumber b) /\
         (inFinalThree allGames b = true <->
          Bowl.endNumber b = 19 \/ Bowl.endNumber b = 20 \/ Bowl.endNumber b = 21))) /\
    (forall game,
        (forall n, Game.endCount game = JVal n -> n <> 0 -> totalEndsOf game = n) /\
        (forall n, truthy (Game.endCount game) = false ->
                   Game.totalEnds game = JVal n -> n <> 0 -> totalEndsOf game = n) /\
        (truthy (Game.endCount game) = false -> truthy (Game.totalEnds game) = false ->
         totalEndsOf game = 21)).
Proof.
  intros cache allBowls allGames playerName filterGameId s cache' Hmiss Hcall
    playerBowls qualifies clutch.
  destruct (getPlayerStats_computed _ _ _ _ _ _ _ Hmiss Hcall) as [_ ->].
  fold playerBowls.
  assert (Havg : Stats.clutchAvg (statsOf playerName playerBowls allGames) =
                 round2 (meanOf (map scoreOr0 clutch))).
  { cbn [statsOf Stats.clutchAvg]. unfold clutchAvgOf. cbv zeta.
    rewrite clutchBowlsOf_filter. now rewrite meanScore_meanOf. }
  split; [rewrite Havg; apply round2_rounded2|]. split; [|split; [|split]].
  - intros Hnone. rewrite Havg, Hnone. reflexivity.
  - intros Hrange. unfold clutch. f_equal. apply filter_ext_in. intros b Hb.
    unfold qualifies, inFinalThree.
    destruct (findGame allGames (Bowl.gameId b)) as [game|] eqn:Hgame; [|reflexivity].
    specialize (Hrange b game Hb Hgame). apply Z.leb_le in Hrange.
    rewrite Hrange. now rewrite andb_true_r.
  - intros b game Hgame. unfold qualifies, inFinalThree. rewrite Hgame. split.
    + intros Hle. apply Z.leb_le in Hle. rewrite Hle. now rewrite andb_true_r.
    + intros ->. split.
      * rewrite Z.ltb_lt. lia.
      * rewrite andb_true_iff, Z.ltb_lt, Z.leb_le. lia.
  - apply totalEndsOf_cases.
Qed.

(** Six bowls: ends 18, 19 and 21 of a game of 21 ends, with the scores
    4, 3 and 2; ends 15 and 16 of a game of 18 ends, with the scores 4
    and 2; and a bowl of a game that is not on record.  The clutch bowls
    are those of the ends 19 and 21 of the first game and of end 16 of
    the second: their mean 7/3 is shown as 2.33. *)
Lemma clutchAvg_final_three_ends_witness :
  (Stats.clutchAvg clutchStats == 233 # 100)%Q.
Proof.
  assert (Hcall : getPlayerStats ∅ clutchSampleBowls sampleGames "Ann" JUndefined =
                    (Some clutchStats, <[cacheKey "Ann" JUndefined := clutchStats]> ∅))
    by (vm_compute; reflexivity).
  destruct (clutchAvg_final_three_ends ∅ clutchSampleBowls sampleGames "Ann" JUndefined
              clutchStats _ (lookup_empty _) Hcall) as (Havg & _).
  apply (rounded2_between _ _ 233 Havg); vm_compute; reflexivity.
Defined.

(** ** Strings: the keys of the ends *)

Lemma string_app_nil_l s : "" +:+ s = s.
Proof. reflexivity. Qed.

Lemma string_app_cons c r s : String c r +:+ s = String c (r +:+ s).
Proof. reflexivity. Qed.

Lemma has_underscore_app s1 s2 :
  has_underscore (s1 +:+ s2) = has_underscore s1 || has_underscore s2.
Proof.
  induction s1 as [|c r IH]; simpl; [reflexivity|].
  now rewrite IH, orb_assoc.
Qed.

Lemma pretty_N_char_no_underscore d : Ascii.eqb (pretty_N_char d) "_" = false.
Proof. unfold pretty_N_char. now repeat case_match. Qed.

Lemma pretty_N_go_no_underscore x : forall s,
  has_underscore (pretty_N_go x s) = has_underscore s.
Proof.
  induction (N.lt_wf_0 x) as [x _ IH]. intros s.
  destruct (N.eq_dec x 0%N) as [->|Hx].
  - now rewrite pretty_N_go_0.
  - rewrite pretty_N_go_step by lia.
    rewrite IH by (apply N.div_lt; lia).
    simpl. now rewrite pretty_N_char_no_underscore.
Qed.

Lemma pretty_N_no_underscore (x : N) : has_underscore (pretty x) = false.
Proof.
  unfold pretty, pretty_N. case_decide; [reflexivity|].
  apply pretty_N_go_no_underscore.
Qed.

Lemma pretty_Z_no_underscore (z : Z) : has_underscore (pretty z) = false.
Proof.
  destruct z as [|p|p]; [reflexivity| |].
  - apply (pretty_N_no_underscore (N.pos p)).
  - change (pretty (Z.neg p)) with ("-" +:+ pretty (N.pos p)).
    rewrite has_underscore_app. now rewrite pretty_N_no_underscore.
Qed.

Lemma underscore_split_inj g1 : forall g2 d1 d2,
  has_underscore d1 = false -> has_underscore d2 = false ->
  g1 +:+ "_" +:+ d1 = g2 +:+ "_" +:+ d2 -> g1 = g2 /\ d1 = d2.
Proof.
  induction g1 as [|c r IH]; intros [|c2 r2] d1 d2 H1 H2 Heq;
    rewrite ?string_app_nil_l, ?string_app_cons, ?string_app_nil_l in Heq.
  - injection Heq as ->. now split.
  - injection Heq as <- ->. rewrite has_underscore_app in H1. simpl in H1.
    rewrite orb_true_r in H1. discriminate.
  - injection Heq as -> <-. rewrite has_underscore_app in H2. simpl in H2.
    rewrite orb_true_r in H2. discriminate.
  - injection Heq as -> Heq. destruct (IH _ _ _ H1 H2 Heq) as [-> ->]. now split.
Qed.

Lemma endKey_eqb a b : String.eqb (endKey a) (endKey b) = sameEnd a b.
Proof.
  unfold sameEnd, endKey.
  destruct (String.eqb_spec (Bowl.gameId a +:+ "_" +:+ pretty (Bowl.endNumber a))
              (Bowl.gameId b +:+ "_" +:+ pretty (Bowl.endNumber b))) as [Heq|Hne].
  - apply underscore_split_inj in Heq as [-> Hend]; try apply pretty_Z_no_underscore.
    apply (inj pretty) in Hend. rewrite Hend.
    now rewrite String.eqb_refl, Z.eqb_refl.
  - destruct (String.eqb_spec (Bowl.gameId a) (Bowl.gameId b)) as [Hg|_]; [|reflexivity].
    destruct (Z.eqb_spec (Bowl.endNumber a) (Bowl.endNumber b)) as [He|_]; [|reflexivity].
    rewrite Hg, He in Hne. now destruct Hne.
Qed.

Lemma afterUnderscore_none d : has_underscore d = false -> afterUnderscore d = None.
Proof.
  induction d as [|c r IH]; [reflexivity|]. cbn [has_underscore afterUnderscore].
  intros H. apply orb_false_iff in H as [Hc Hr]. now rewrite IH, Hc.
Qed.

Lemma afterUnderscore_app g d :
  has_underscore d = false -> afterUnderscore (g +:+ "_" +:+ d) = Some d.
Proof.
  intros Hd. induction g as [|c r IH].
  - rewrite string_app_nil_l, string_app_cons, string_app_nil_l.
    cbn [afterUnderscore]. now rewrite afterUnderscore_none.
  - rewrite string_app_cons. cbn [afterUnderscore]. now rewrite IH.
Qed.

Lemma pretty_N_go_nonempty x : forall s, s <> "" -> pretty_N_go x s <> "".
Proof.
  induction (N.lt_wf_0 x) as [x _ IH]. intros s Hs.
  destruct (N.eq_dec x 0%N) as [->|Hx].
  - now rewrite pretty_N_go_0.
  - rewrite pretty_N_go_step by lia. apply IH; [apply N.div_lt; lia|easy].
Qed.

Lemma pretty_N_nonempty (x : N) : pretty x <> "".
Proof.
  unfold pretty, pretty_N. case_decide; [easy|].
  rewrite pretty_N_go_step by lia. now apply pretty_N_go_nonempty.
Qed.

Lemma pretty_Z_nonempty (z : Z) : pretty z <> "".
Proof.
  destruct z as [|p|p]; [easy| |easy]. apply (pretty_N_nonempty (N.pos p)).
Qed.

(** The key of an end is never a name inherited from
    [Object.prototype]: it ends in [_] and a number. *)
Lemma inherited_endKey b : JsObj.inherited (endKey b) = false.
Proof.
  apply not_true_is_false. intros H. unfold JsObj.inherited in H.
  apply existsb_exists in H as [name [Hin Heq]]. apply String.eqb_eq in Heq.
  apply (f_equal afterUnderscore) in Heq. unfold endKey in Heq.
  rewrite afterUnderscore_app in Heq by apply pretty_Z_no_underscore.
  pose proof (pretty_Z_nonempty (Bowl.endNumber b)) as Hne.
  remember (pretty (Bowl.endNumber b)) as d eqn:Hd. clear Hd.
  cbn [In] in Hin.
  repeat (destruct Hin as [<-|Hin];
          [vm_compute in Heq; first [discriminate Heq | injection Heq as ->; now destruct Hne]|]).
  destruct Hin.
Qed.

Lemma ownKeyed_endKey l : ownKeyed endKey l = l.
Proof.
  unfold ownKeyed. induction l as [|b r IH]; [reflexivity|].
  cbn [List.filter]. now rewrite inherited_endKey, IH.
Qed.

Lemma parse_digits_underscore s1 : forall acc s2,
  JsObj.parse_digits acc (s1 +:+ "_" +:+ s2) = None.
Proof.
  induction s1 as [|c r IH]; intros acc s2; [reflexivity|].
  rewrite string_app_cons. cbn [JsObj.parse_digits].
  destruct (JsObj.digit_of c); [apply IH|reflexivity].
Qed.

Lemma arrayIndex_endKey b : JsObj.arrayIndex (endKey b) = None.
Proof. unfold JsObj.arrayIndex, endKey. now rewrite parse_digits_underscore. Qed.

(** ** Grouping into an object *)

Lemma firstsOf_snoc {B} (same : B -> B -> bool) l b :
  firstsOf same (l ++ [b]) =
  if existsb (fun a => same a b) (firstsOf same l) then firstsOf same l
  else firstsOf same l ++ [b].
Proof. unfold firstsOf. now rewrite fold_left_app. Qed.

Lemma filter_none {A} (f : A -> bool) l :
  (forall a, In a l -> f a = false) -> List.filter f l = [].
Proof.
  induction l as [|x r IH]; intros Hf; simpl; [reflexivity|].
  rewrite (Hf x) by now left. apply IH. intros a Ha. apply Hf. now right.
Qed.

Lemma existsb_pointwise {A} (f g : A -> bool) l :
  (forall a, f a = g a) -> existsb f l = existsb g l.
Proof.
  intros Hfg. induction l as [|x r IH]; simpl; [reflexivity|]. now rewrite Hfg, IH.
Qed.

Lemma firstsOf_ext {B} (same same' : B -> B -> bool) l :
  (forall a b, same a b = same' a b) -> firstsOf same l = firstsOf same' l.
Proof.
  intros Hext. induction l as [|b r IH] using rev_ind; [reflexivity|].
  rewrite !firstsOf_snoc, IH.
  now rewrite (existsb_pointwise _ (fun a => same' a b)) by (intros a; apply Hext).
Qed.

Lemma firstsOf_In {B} (same : B -> B -> bool) l a :
  In a (firstsOf same l) -> In a l.
Proof.
  induction l as [|b r IH] using rev_ind; [easy|].
  rewrite firstsOf_snoc, in_app_iff.
  destruct (existsb _ _); [now left; apply IH|].
  rewrite in_app_iff. intros [Ha|Ha]; [left; now apply IH|now right].
Qed.

Lemma JsObj_get_None_set {V} k (v : V) o :
  JsObj.get k o = None -> JsObj.set k v o = o ++ [(k, v)].
Proof.
  induction o as [|[k0 v0] r IH]; simpl; [reflexivity|].
  destruct (String.eqb k k0); [discriminate|]. intros Hr. now rewrite IH.
Qed.

Lemma JsObj_alter_last {V} (f : V -> V) k v o :
  JsObj.get k o = None -> JsObj.alter f k (o ++ [(k, v)]) = o ++ [(k, f v)].
Proof.
  induction o as [|[k0 v0] r IH]; simpl.
  - now rewrite String.eqb_refl.
  - destruct (String.eqb k k0); [discriminate|]. intros Hr. now rewrite IH.
Qed.

Section GroupFold.

Context {B V : Type} (key : B -> string) (init : B -> V) (upd : B -> V -> V).

Let same (a b : B) : bool := String.eqb (key a) (key b).

Lemma firstsOf_covers l a :
  In a l -> existsb (fun x => same x a) (firstsOf same l) = true.
Proof.
  induction l as [|b r IH] using rev_ind; [easy|].
  rewrite in_app_iff, firstsOf_snoc. intros [Ha|[<-|[]]].
  - specialize (IH Ha). destruct (existsb (fun x => same x b) _); [exact IH|].
    now rewrite existsb_app, IH.
  - destruct (existsb (fun x => same x b) _) eqn:E; [exact E|].
    rewrite existsb_app, E. simpl. unfold same. now rewrite String.eqb_refl.
Qed.

Lemma firstsOf_absent l b :
  existsb (fun x => same x b) (firstsOf same l) = false ->
  forall a, In a l -> same a b = false.
Proof.
  intros Hno a Ha. destruct (same a b) eqn:Hab; [|reflexivity].
  pose proof (firstsOf_covers l a Ha) as Hcov.
  apply existsb_exists in Hcov as [x [Hx Hxa]].
  assert (Hex : existsb (fun x => same x b) (firstsOf same l) = true).
  { apply existsb_exists. exists x. split; [exact Hx|].
    unfold same in *. apply String.eqb_eq in Hxa, Hab. rewrite Hxa, Hab.
    apply String.eqb_refl. }
  congruence.
Qed.

Lemma firstsOf_NoDup l : List.NoDup (map key (firstsOf same l)).
Proof.
  induction l as [|b r IH] using rev_ind; [constructor|].
  rewrite firstsOf_snoc. destruct (existsb _ _) eqn:E; [exact IH|].
  rewrite map_app. simpl. apply List.NoDup_app; [exact IH| |].
  - constructor; [easy|constructor].
  - intros k Hk [<-|[]]. apply in_map_iff in Hk as [a [Hka Ha]].
    assert (Hex : existsb (fun x => same x b) (firstsOf same r) = true).
    { apply existsb_exists. exists a. split; [exact Ha|].
      unfold same. rewrite Hka. apply String.eqb_refl. }
    congruence.
Qed.

Lemma get_keyed (h : B -> V) fs k :
  JsObj.get k (map (fun b0 => (key b0, h b0)) fs) =
  option_map h (List.find (fun a => String.eqb k (key a)) fs).
Proof.
  induction fs as [|a r IH]; simpl; [reflexivity|].
  destruct (String.eqb k (key a)); [reflexivity|exact IH].
Qed.

Lemma alter_keyed (f : V -> V) (h : B -> V) fs k :
  List.NoDup (map key fs) ->
  JsObj.alter f k (map (fun b0 => (key b0, h b0)) fs) =
  map (fun b0 => (key b0, if String.eqb (key b0) k then f (h b0) else h b0)) fs.
Proof.
  induction fs as [|a r IH]; simpl; [reflexivity|].
  intros Hnd. apply List.NoDup_cons_iff in Hnd as [Hnotin Hnd].
  rewrite (String.eqb_sym k).
  destruct (String.eqb_spec (key a) k) as [<-|Hne].
  - f_equal. apply map_ext_in. intros b0 Hb0.
    destruct (String.eqb_spec (key b0) (key a)) as [Heq|_]; [|reflexivity].
    destruct Hnotin. rewrite <- Heq. now apply in_map.
  - f_equal. now apply IH.
Qed.

Lemma groupsBy_snoc l b :
  groupsBy key init upd (l ++ [b]) =
  JsObj.alter (upd b) (key b)
    (match JsObj.get (key b) (groupsBy key init upd l) with
     | Some _ => groupsBy key init upd l
     | None => JsObj.set (key b) (init b) (groupsBy key init upd l)
     end).
Proof.
  unfold groupsBy. fold same. rewrite firstsOf_snoc.
  set (fs := firstsOf same l).
  set (val := fun l b0 => fold_left (fun v b => upd b v)
                            (List.filter (fun b => String.eqb (key b0) (key b)) l) (init b0)).
  assert (Hval : forall b0, val (l ++ [b]) b0 =
                            if same b0 b then upd b (val l b0) else val l b0).
  { intros b0. unfold val. rewrite List.filter_app. cbn [List.filter]. fold (same b0 b).
    destruct (same b0 b); [now rewrite fold_left_app|now rewrite app_nil_r]. }
  change (map (fun b0 => (key b0, val (l ++ [b]) b0))
            (if existsb (fun a => same a b) fs then fs else fs ++ [b]) =
          JsObj.alter (upd b) (key b)
            (match JsObj.get (key b) (map (fun b0 => (key b0, val l b0)) fs) with
             | Some _ => map (fun b0 => (key b0, val l b0)) fs
             | None => JsObj.set (key b) (init b) (map (fun b0 => (key b0, val l b0)) fs)
             end)).
  rewrite get_keyed.
  destruct (existsb (fun a => same a b) fs) eqn:E.
  - destruct (List.find _ fs) as [a|] eqn:Hfind.
    + simpl. rewrite alter_keyed by apply firstsOf_NoDup.
      apply map_ext. intros b0. now rewrite Hval.
    + apply existsb_exists in E as [a [Ha Hab]].
      apply (find_none _ _ Hfind) in Ha. unfold same in Hab.
      rewrite String.eqb_sym in Ha. congruence.
  - assert (Hget : JsObj.get (key b) (map (fun b0 => (key b0, val l b0)) fs) = None).
    { rewrite get_keyed. destruct (List.find _ fs) as [a|] eqn:Hfind; [|reflexivity].
      apply find_some in Hfind as [Ha Hab].
      assert (Hex : existsb (fun a => same a b) fs = true).
      { apply existsb_exists. exists a. split; [exact Ha|].
        unfold same. now rewrite String.eqb_sym. }
      congruence. }
    rewrite get_keyed in Hget.
    destruct (List.find _ fs) as [a|] eqn:Hfind; [discriminate|]. simpl.
    assert (Hget' : JsObj.get (key b) (map (fun b0 => (key b0, val l b0)) fs) = None)
      by (now rewrite get_keyed, Hfind).
    rewrite JsObj_get_None_set, JsObj_alter_last by exact Hget'.
    rewrite map_app. simpl. f_equal.
    + apply map_ext_in. intros b0 Hb0. rewrite Hval.
      assert (Hb0b : same b0 b = false).
      { destruct (same b0 b) eqn:Hs; [|reflexivity].
        assert (Hex : existsb (fun a => same a b) fs = true)
          by (apply existsb_exists; now exists b0).
        congruence. }
      now rewrite Hb0b.
    + rewrite Hval. unfold same at 1. rewrite String.eqb_refl.
      do 3 f_equal. unfold val.
      assert (Hnone : List.filter (fun b1 => String.eqb (key b) (key b1)) l = []).
      { apply filter_none. intros a Ha.
        pose proof (firstsOf_absent l b E a Ha) as Hab. unfold same in Hab.
        now rewrite String.eqb_sym, Hab. }
      now rewrite Hnone.
Qed.

Lemma JsObj_alter_absent (f : V -> V) k o : JsObj.get k o = None -> JsObj.alter f k o = o.
Proof.
  induction o as [|[k0 v0] r IH]; simpl; [reflexivity|].
  destruct (String.eqb k k0); [discriminate|]. intros Hr. now rewrite IH.
Qed.

Lemma groupsBy_get_inherited l k :
  JsObj.inherited k = true ->
  JsObj.get k (groupsBy key init upd (ownKeyed key l)) = None.
Proof.
  intros Hk. unfold groupsBy. rewrite get_keyed.
  destruct (List.find _ _) as [a|] eqn:Hfind; [|reflexivity].
  apply find_some in Hfind as [Ha Hka]. apply firstsOf_In in Ha.
  apply filter_In in Ha as [_ Ha]. apply String.eqb_eq in Hka. subst k.
  rewrite Hk in Ha. discriminate.
Qed.

(** The loop builds one property per key that can be an own property. *)
Lemma groupFold_groupsBy l :
  groupFold key init upd l = groupsBy key init upd (ownKeyed key l).
Proof.
  induction l as [|b r IH] using rev_ind; [reflexivity|].
  unfold groupFold. rewrite fold_left_app. cbn [fold_left].
  fold (groupFold key init upd r). rewrite IH.
  unfold ownKeyed. rewrite List.filter_app. cbn [List.filter].
  fold (ownKeyed key r).
  destruct (JsObj.inherited (key b)) eqn:Hb; cbn [negb].
  - rewrite app_nil_r, groupsBy_get_inherited by exact Hb.
    apply JsObj_alter_absent. now apply groupsBy_get_inherited.
  - rewrite groupsBy_snoc.
    now destruct (JsObj.get (key b) (groupsBy key init upd (ownKeyed key r))).
Qed.

End GroupFold.

(** ** Sorting by descending value: the first and the last element *)

Lemma last_opt_cons {A} (x : A) l :
  last_opt (x :: l) = match l with [] => Some x | _ => last_opt l end.
Proof. destruct l; reflexivity. Qed.

Lemma last_opt_insert_by {A} (le : A -> A -> bool) a l :
  last_opt (insert_by le a l) =
  if forallb (fun y => negb (le a y)) l then Some a else last_opt l.
Proof.
  induction l as [|y r IH]; [reflexivity|].
  cbn [insert_by forallb]. destruct (le a y) eqn:E; cbn [negb andb].
  - rewrite last_opt_cons. reflexivity.
  - rewrite last_opt_cons, IH. rewrite (last_opt_cons y r).
    destruct r as [|z r']; [reflexivity|].
    cbn [insert_by]. destruct (le a z); reflexivity.
Qed.

Lemma forallb_false_exists {A} (p : A -> bool) l :
  forallb p l = false -> exists z, In z l /\ p z = false.
Proof.
  induction l as [|x r IH]; [discriminate|]. cbn [forallb].
  destruct (p x) eqn:E; cbn [andb].
  - intros H. destruct (IH H) as (z & Hz & Hpz). exists z. split; [now right|exact Hpz].
  - intros _. exists x. split; [now left|exact E].
Qed.

Section SortDescending.

Context {A : Type} (f : A -> Q).

Lemma cmp_le a b : Qle_bool (f b - f a) 0 = true <-> (f b <= f a)%Q.
Proof. rewrite Qle_bool_iff. split; intros H; lra. Qed.

(** The first element of the sorted list is the first of the greatest. *)
Lemma js_sort_desc_head l x :
  head (js_sort (fun a b => (f b - f a)%Q) l) = Some x ->
  exists l1 l2, l = l1 ++ x :: l2 /\
                (forall y, In y l1 -> (f y < f x)%Q) /\
                (forall y, In y l2 -> (f y <= f x)%Q).
Proof.
  revert x. induction l as [|a r IH]; intros x; [discriminate|].
  unfold js_sort in *. cbn [sort_by fold_right].
  fold (sort_by (fun x y : A => Qle_bool (f y - f x) 0) r) in *.
  pose proof (sort_by_perm (fun x y : A => Qle_bool (f y - f x) 0) r) as Hperm.
  destruct (sort_by _ r) as [|h t].
  - apply Permutation_nil in Hperm. subst r. intros [= <-].
    exists [], []. repeat split; easy.
  - cbn [insert_by]. destruct (IH h eq_refl) as (l1 & l2 & -> & H1 & H2).
    destruct (Qle_bool (f h - f a) 0) eqn:E; intros [= <-].
    + apply cmp_le in E. exists [], (l1 ++ h :: l2). split; [reflexivity|].
      split; [easy|]. intros y Hy. apply in_app_iff in Hy as [Hy|[<-|Hy]].
      * specialize (H1 y Hy). lra.
      * exact E.
      * specialize (H2 y Hy). lra.
    + assert (Hlt : (f a < f h)%Q).
      { apply Qnot_le_lt. intros Hle. apply cmp_le in Hle. congruence. }
      exists (a :: l1), l2. split; [reflexivity|]. split; [|exact H2].
      intros y [<-|Hy]; [exact Hlt|now apply H1].
Qed.

(** The last element of the sorted list is the last of the least. *)
Lemma js_sort_desc_last l x :
  last_opt (js_sort (fun a b => (f b - f a)%Q) l) = Some x ->
  exists l1 l2, l = l1 ++ x :: l2 /\
                (forall y, In y l1 -> (f x <= f y)%Q) /\
                (forall y, In y l2 -> (f x < f y)%Q).
Proof.
  revert x. induction l as [|a r IH]; intros x; [discriminate|].
  unfold js_sort in *. cbn [sort_by fold_right].
  fold (sort_by (fun x y : A => Qle_bool (f y - f x) 0) r) in *.
  pose proof (sort_by_perm (fun x y : A => Qle_bool (f y - f x) 0) r) as Hperm.
  rewrite last_opt_insert_by.
  destruct (forallb _ _) eqn:Hall.
  - intros [= <-]. exists [], r. split; [reflexivity|]. split; [easy|].
    intros y Hy. apply (Permutation_in _ (Permutation_sym Hperm)) in Hy.
    rewrite forallb_forall in Hall. specialize (Hall y Hy).
    apply negb_true_iff in Hall.
    apply Qnot_le_lt. intros Hle. apply cmp_le in Hle. congruence.
  - intros Hlast. destruct (IH x Hlast) as (l1 & l2 & -> & H1 & H2).
    exists (a :: l1), l2. split; [reflexivity|]. split; [|exact H2].
    assert (Hxa : (f x <= f a)%Q).
    { destruct (forallb_false_exists _ _ Hall) as (z & Hz & Hzle).
      apply negb_false_iff, cmp_le in Hzle.
      apply (Permutation_in _ Hperm) in Hz.
      apply in_app_iff in Hz as [Hz|[<-|Hz]].
      - specialize (H1 z Hz). lra.
      - exact Hzle.
      - specialize (H2 z Hz). lra. }
    intros y [<-|Hy]; [exact Hxa|now apply H1].
Qed.

Lemma js_sort_head_some (c : A -> A -> Q) l :
  l <> [] -> exists x, head (js_sort c l) = Some x.
Proof.
  intros Hl. pose proof (Permutation_length (js_sort_perm c l)) as Hlen.
  destruct (js_sort c l) as [|x t]; [|now exists x].
  destruct l; [easy|discriminate].
Qed.

Lemma js_sort_last_some (c : A -> A -> Q) l :
  l <> [] -> exists x, last_opt (js_sort c l) = Some x.
Proof.
  intros Hl. pose proof (Permutation_length (js_sort_perm c l)) as Hlen.
  destruct (js_sort c l) as [|x t _] using rev_ind.
  - destruct l; [easy|discriminate].
  - exists x. apply last_opt_snoc.
Qed.

End SortDescending.

(** ** Best and worst end *)

Lemma JsObj_entries_named {V} (o : JsObj.t V) :
  (forall kv, In kv o -> JsObj.arrayIndex (fst kv) = None) -> JsObj.entries o = o.
Proof.
  intros Hnamed. unfold JsObj.entries.
  assert (Hidx : JsObj.indexed o = []).
  { unfold JsObj.indexed. induction o as [|kv r IH]; [reflexivity|]. simpl.
    rewrite (Hnamed kv) by now left. apply IH. intros kv' H. apply Hnamed. now right. }
  assert (Hnam : JsObj.named o = o).
  { unfold JsObj.named. induction o as [|kv r IH]; [reflexivity|]. simpl.
    rewrite (Hnamed kv) by now left. f_equal. apply IH.
    - intros kv' H. apply Hnamed. now right.
    - unfold JsObj.indexed in *. simpl in Hidx.
      rewrite (Hnamed kv) in Hidx by now left. exact Hidx. }
  now rewrite Hidx, Hnam.
Qed.

Lemma fold_left_add_init l : forall z, fold_left Z.add l z = z + fold_left Z.add l 0.
Proof.
  induction l as [|x r IH]; intros z; cbn [fold_left]; [lia|].
  rewrite IH, (IH (0 + x)). lia.
Qed.

Lemma endScore_fold group : forall total count end_ gameId,
  fold_left (fun e b => EndScore.mk (EndScore.total e + scoreOr0 b) (S (EndScore.count e))
                          (EndScore.end_ e) (EndScore.gameId e))
    group (EndScore.mk total count end_ gameId) =
  EndScore.mk (total + fold_left Z.add (map scoreOr0 group) 0) (count + length group)
    end_ gameId.
Proof.
  induction group as [|b r IH]; intros; simpl.
  - f_equal; lia.
  - rewrite IH. cbn. rewrite (fold_left_add_init _ (scoreOr0 b)). f_equal; lia.
Qed.

Lemma endScoresOf_groupsBy playerBowls :
  endScoresOf playerBowls =
  groupsBy endKey
    (fun b => EndScore.mk 0 0 (Bowl.endNumber b) (Bowl.gameId b))
    (fun b e => EndScore.mk (EndScore.total e + scoreOr0 b) (S (EndScore.count e))
                  (EndScore.end_ e) (EndScore.gameId e))
    playerBowls.
Proof.
  rewrite <- (ownKeyed_endKey playerBowls) at 2. rewrite <- groupFold_groupsBy.
  reflexivity.
Qed.

Lemma ratio_meanOf group :
  (if (0 <? length group)%nat
   then ratio (fold_left Z.add (map scoreOr0 group) 0) (length group) else 0%Q) =
  meanOf (map scoreOr0 group).
Proof. destruct group; [reflexivity|]. unfold meanOf. now rewrite length_map. Qed.

(** The array that is sorted: the ends in order of first occurrence. *)
Lemma endAvgs_endGroups playerBowls :
  map endAvgOf (JsObj.values (endScoresOf playerBowls)) = endGroups playerBowls.
Proof.
  unfold JsObj.values. rewrite JsObj_entries_named.
  - rewrite endScoresOf_groupsBy. unfold groupsBy, endGroups.
    rewrite !map_map.
    rewrite (firstsOf_ext _ sameEnd) by apply endKey_eqb.
    apply map_ext. intros b0. cbn [snd].
    rewrite (filter_ext _ (sameEnd b0)) by (intros b; apply endKey_eqb).
    rewrite endScore_fold. unfold endAvgOf.
    cbn [EndScore.total EndScore.count EndScore.end_ EndScore.gameId].
    rewrite Z.add_0_l, Nat.add_0_l. now rewrite ratio_meanOf.
  - rewrite endScoresOf_groupsBy. unfold groupsBy. intros kv Hkv.
    apply in_map_iff in Hkv as [b0 [<- _]]. apply arrayIndex_endKey.
Qed.

Lemma firstsOf_nonempty {B} (same : B -> B -> bool) l : l <> [] -> firstsOf same l <> [].
Proof.
  destruct l as [|b r] using rev_ind; [easy|]. intros _.
  rewrite firstsOf_snoc. destruct (existsb _ _) eqn:E.
  - intros Hnil. rewrite Hnil in E. discriminate.
  - now destruct (firstsOf same r).
Qed.

Lemma worstEnd_tie_counterexample :
  match fst (getPlayerStats ∅ tiedEndsBowls sampleGames "Ann" JUndefined) with
  | Some s =>
      map EndAvg.end_ (endGroups tiedEndsBowls) = [1; 2; 3; 4] /\
      map EndAvg.avg (endGroups tiedEndsBowls) = [2 # 1; 2 # 1; 4 # 1; 4 # 1]%Q /\
      option_map EndAvg.end_ (Stats.bestEnd s) = Some 3 /\
      option_map EndAvg.end_ (Stats.worstEnd s) = Some 2
  | None => False
  end.
Proof. vm_compute. repeat split; reflexivity. Qed.

(** C3 (amended).  The bowls of a player are grouped by game and end
    number, in order of first occurrence, each group with the mean of
    its bowls (a bowl without score counting for 0).  [bestEnd] is the
    group of the highest mean, the first such group among equals;
    [worstEnd] is the group of the lowest mean, the last such group
    among equals. *)
Theorem bestEnd_first_worstEnd_last :
  forall cache allBowls allGames playerName filterGameId s cache',
    cache !! cacheKey playerName filterGameId = None ->
    getPlayerStats cache allBowls allGames playerName filterGameId = (Some s, cache') ->
    let groups := endGroups (playerBowlsOf playerName filterGameId allBowls) in
    (exists best before after,
        Stats.bestEnd s = Some best /\ groups = before ++ best :: after /\
        (forall g, In g before -> EndAvg.avg g < EndAvg.avg best)%Q /\
        (forall g, In g after -> EndAvg.avg g <= EndAvg.avg best)%Q) /\
    (exists worst before after,
        Stats.worstEnd s = Some worst /\ groups = before ++ worst :: after /\
        (forall g, In g before -> EndAvg.avg worst <= EndAvg.avg g)%Q /\
        (forall g, In g after -> EndAvg.avg worst < EndAvg.avg g)%Q).
Proof.
  intros cache allBowls allGames playerName filterGameId s cache' Hmiss Hcall groups.
  destruct (getPlayerStats_computed _ _ _ _ _ _ _ Hmiss Hcall) as [Hne ->].
  cbn [Stats.bestEnd Stats.worstEnd statsOf]. unfold bestEndOf, worstEndOf, endAvgsOf.
  rewrite endAvgs_endGroups. fold groups.
  assert (Hgroups : groups <> []).
  { unfold groups, endGroups. intros Hnil. apply map_eq_nil in Hnil.
    now apply firstsOf_nonempty in Hnil. }
  split.
  - destruct (js_sort_head_some (fun a b => (EndAvg.avg b - EndAvg.avg a)%Q) groups Hgroups)
      as [best Hbest].
    destruct (js_sort_desc_head EndAvg.avg groups best Hbest) as (l1 & l2 & H).
    exists best, l1, l2. split; [exact Hbest|exact H].
  - destruct (js_sort_last_some (fun a b => (EndAvg.avg b - EndAvg.avg a)%Q) groups Hgroups)
      as [worst Hworst].
    destruct (js_sort_desc_last EndAvg.avg groups worst Hworst) as (l1 & l2 & H).
    exists worst, l1, l2. split; [exact Hworst|exact H].
Qed.

Lemma bestEnd_first_worstEnd_last_witness :
  exists best before after,
    Stats.bestEnd sampleStats = Some best /\
    endGroups (playerBowlsOf "Ann" JUndefined sampleBowls) = before ++ best :: after /\
    (forall g, In g before -> EndAvg.avg g < EndAvg.avg best)%Q /\
    (forall g, In g after -> EndAvg.avg g <= EndAvg.avg best)%Q.
Proof.
  exact (proj1 (bestEnd_first_worstEnd_last ∅ sampleBowls sampleGames "Ann" JUndefined
                  sampleStats _ (lookup_empty _) sample_call)).
Defined.

(** ** Top performer *)

Lemma JsObj_entries_perm {V} (o : JsObj.t V) : Permutation (JsObj.entries o) o.
Proof.
  unfold JsObj.entries.
  rewrite (Permutation_map snd (sort_by_perm _ (JsObj.indexed o))).
  unfold JsObj.indexed, JsObj.named.
  induction o as [|kv r IH]; [reflexivity|]. simpl.
  destruct (JsObj.arrayIndex (fst kv)); simpl.
  - now apply perm_skip.
  - rewrite <- Permutation_middle. now apply perm_skip.
Qed.





(** The loop keeps the first entry whose average is the greatest, if
    that average is above the one it starts from. *)
Lemma topPerformer_fold entries : forall top0 : string * Q,
  ((forall e, In e entries -> (playerAvg (snd e) <= snd top0)%Q) /\
   fold_left (fun top nd => let avg := playerAvg (snd nd) in
                            if Qlt_bool (snd top) avg then (fst nd, avg) else top)
     entries top0 = top0) \/
  (exists before top after,
      entries = before ++ top :: after /\
      fold_left (fun top nd => let avg := playerAvg (snd nd) in
                               if Qlt_bool (snd top) avg then (fst nd, avg) else top)
        entries top0 = (fst top, playerAvg (snd top)) /\
      (snd top0 < playerAvg (snd top))%Q /\
      (forall e, In e before -> (playerAvg (snd e) < playerAvg (snd top))%Q) /\
      (forall e, In e after -> (playerAvg (snd e) <= playerAvg (snd top))%Q)).
Proof.
  induction entries as [|e r IH]; intros top0.
  - left. split; [easy|reflexivity].
  - cbn [fold_left]. cbv zeta.
    destruct (Qlt_bool (snd top0) (playerAvg (snd e))) eqn:E.
    + apply Qlt_bool_iff in E.
      destruct (IH (fst e, playerAvg (snd e))) as [[Hall Hres]|(l1 & t & l2 & H)].
      * right. exists [], e, r. cbn [snd] in Hall.
        split; [reflexivity|]. split; [exact Hres|]. split; [exact E|].
        split; [easy|exact Hall].
      * destruct H as (-> & Hres & Hlt & H1 & H2). cbn [snd] in Hlt.
        right. exists (e :: l1), t, l2.
        split; [reflexivity|]. split; [exact Hres|]. split; [lra|].
        split; [|exact H2]. intros x [<-|Hx]; [exact Hlt|now apply H1].
    + apply Qlt_bool_false_iff in E.
      destruct (IH top0) as [[Hall Hres]|(l1 & t & l2 & H)].
      * left. split; [|exact Hres]. intros x [<-|Hx]; [exact E|now apply Hall].
      * destruct H as (-> & Hres & Hlt & H1 & H2).
        right. exists (e :: l1), t, l2.
        split; [reflexivity|]. split; [exact Hres|]. split; [exact Hlt|].
        split; [|exact H2]. intros x [<-|Hx]; [lra|now apply H1].
Qed.




(** ** The rounded square root, against the real square root *)

Lemma Q2R_inject_Z z : Q2R (inject_Z z) = IZR z.
Proof. unfold Q2R, inject_Z. cbn [Qnum Qden]. rewrite Rinv_1. apply Rmult_1_r. Qed.

(** [round2_sqrt v] is [k / 100] for the integer [k] that [Math.round]
    gives on the real number [sqrt v * 100]: the floor of
    [sqrt v * 100 + 1/2]. *)
Lemma round2_sqrt_real (v : Q) :
  (0 <= v)%Q ->
  let k := (Z.sqrt (Qfloor (v * 40000)) + 1) / 2 in
  round2_sqrt v = (inject_Z k / 100)%Q /\
  (IZR k <= sqrt (Q2R v) * 100 + / 2 < IZR k + 1)%R.
Proof.
  intros Hv k. split; [reflexivity|].
  set (w := (v * 40000)%Q) in *. set (m := Qfloor w) in *. set (s := Z.sqrt m) in *.
  assert (Hw0 : (0 <= w)%Q) by (unfold w; lra).
  assert (Hm0 : 0 <= m).
  { change 0 with (Qfloor 0). now apply Qfloor_resp_le. }
  pose proof (Z.sqrt_spec m Hm0) as Hs. fold s in Hs. cbv zeta in Hs.
  pose proof (Z.sqrt_nonneg m) as Hs0. fold s in Hs0.
  assert (Hlo : (IZR m <= Q2R w)%R).
  { rewrite <- Q2R_inject_Z. apply Qle_Rle. apply Qfloor_le. }
  assert (Hhi : (Q2R w < IZR (m + 1))%R).
  { rewrite <- Q2R_inject_Z. apply Qlt_Rlt. apply Qlt_floor. }
  assert (Hs0r : (0 <= IZR s)%R) by now apply IZR_le.
  assert (Hs1r : (0 <= IZR (s + 1))%R) by (apply IZR_le; lia).
  assert (Hsq1 : (IZR s * IZR s <= Q2R w)%R).
  { rewrite <- mult_IZR. apply Rle_trans with (IZR m); [apply IZR_le; lia|exact Hlo]. }
  assert (Hsq2 : (Q2R w < IZR (s + 1) * IZR (s + 1))%R).
  { rewrite <- mult_IZR. apply Rlt_le_trans with (IZR (m + 1)); [exact Hhi|].
    apply IZR_le. lia. }
  assert (Hw0r : (0 <= Q2R w)%R).
  { apply Rle_trans with (IZR s * IZR s)%R; [|exact Hsq1]. now apply Rmult_le_pos. }
  assert (Ht1 : (IZR s <= sqrt (Q2R w))%R).
  { rewrite <- (sqrt_square (IZR s)) at 1 by exact Hs0r. now apply sqrt_le_1_alt. }
  assert (Ht2 : (sqrt (Q2R w) < IZR (s + 1))%R).
  { rewrite <- (sqrt_square (IZR (s + 1))) by exact Hs1r.
    apply sqrt_lt_1_alt. split; [exact Hw0r|exact Hsq2]. }
  assert (Hv0r : (0 <= Q2R v)%R).
  { rewrite <- RMicromega.Q2R_0. now apply Qle_Rle. }
  assert (Ht : (sqrt (Q2R w) = sqrt (Q2R v) * 200)%R).
  { unfold w. rewrite Q2R_mult.
    replace (Q2R 40000) with (200 * 200)%R by (unfold Q2R; cbn; Lra.lra).
    rewrite sqrt_mult by Lra.lra. now rewrite sqrt_square by Lra.lra. }
  assert (Hk : 2 * k <= s + 1 <= 2 * k + 1).
  { unfold k. pose proof (Z.div_mod (s + 1) 2). pose proof (Z.mod_pos_bound (s + 1) 2). lia. }
  destruct Hk as [Hk1 Hk2].
  apply IZR_le in Hk1, Hk2.
  rewrite ?plus_IZR, ?mult_IZR in *.
  split; Lra.lra.
Qed.

(** ** Consistency *)

(** [Math.round(Math.sqrt(v) * 100)] is 0 exactly when [v] is below
    [0.005^2]. *)
Lemma round2_sqrt_zero_iff v : round2_sqrt v == 0 <-> (v * 40000 < 1)%Q.
Proof.
  unfold round2_sqrt.
  set (m := Qfloor (v * 40000)).
  assert (Hfloor : (v * 40000 < 1)%Q <-> m < 1).
  { unfold m. split; intros H.
    - pose proof (Qfloor_le (v * 40000)) as Hle.
      assert (Hlt : (inject_Z (Qfloor (v * 40000)) < inject_Z 1)%Q)
        by (eapply Qle_lt_trans; [exact Hle|exact H]).
      now rewrite <- Zlt_Qlt in Hlt.
    - pose proof (Qlt_floor (v * 40000)) as Hlt.
      eapply Qlt_le_trans; [exact Hlt|].
      change 1%Q with (inject_Z 1). rewrite <- Zle_Qle. lia. }
  rewrite Hfloor.
  assert (Hk : (Z.sqrt m + 1) / 2 = 0 <-> m < 1).
  { destruct (Z_lt_le_dec m 1) as [Hm|Hm].
    - assert (Hs : Z.sqrt m = 0).
      { destruct (Z_lt_le_dec m 0) as [Hneg|Hpos]; [now apply Z.sqrt_neg|].
        assert (m = 0) as -> by lia. reflexivity. }
      rewrite Hs. split; [intros _; exact Hm|reflexivity].
    - assert (Hs : 1 <= Z.sqrt m).
      { change 1 with (Z.sqrt 1). now apply Z.sqrt_le_mono. }
      split; [|lia]. intros H0.
      assert (Hdiv : 1 <= (Z.sqrt m + 1) / 2) by (apply Z.div_le_lower_bound; lia).
      lia. }
  rewrite <- Hk. generalize ((Z.sqrt m + 1) / 2). intros k. split.
  - intros Hq. unfold Qeq in Hq. cbn in Hq. lia.
  - intros ->. reflexivity.
Qed.

Lemma sumOf_cons x l : sumOf (x :: l) = x + sumOf l.
Proof. unfold sumOf. cbn [fold_left]. rewrite fold_left_add_init. lia. Qed.

Lemma sumSqOf_cons x l : sumSqOf (x :: l) = x * x + sumSqOf l.
Proof. unfold sumSqOf. cbn [map]. apply sumOf_cons. Qed.

(** The sum of the squared deviations from any [m]. *)
Lemma squares_fold (m : Q) l : forall acc : Q,
  fold_left (fun sum s => (sum + (inject_Z s - m) ^ 2)%Q) l acc ==
  (acc + inject_Z (sumSqOf l) - 2 * m * inject_Z (sumOf l)
   + inject_Z (Z.of_nat (length l)) * m * m)%Q.
Proof.
  induction l as [|x r IH]; intros acc.
  - cbn. ring.
  - cbn [fold_left]. rewrite IH, sumSqOf_cons, sumOf_cons.
    cbn [length]. rewrite Nat2Z.inj_succ, !inject_Z_plus, inject_Z_mult.
    unfold Z.succ. rewrite inject_Z_plus. simpl (inject_Z 1). ring.
Qed.

(** The population variance in closed form:
    [(n * sum of squares - square of the sum) / n^2]. *)
Lemma varianceOf_closed l :
  l <> [] ->
  varianceOf l (meanOf l) ==
  inject_Z (Z.of_nat (length l) * sumSqOf l - sumOf l * sumOf l)
  / inject_Z (Z.of_nat (length l) * Z.of_nat (length l)).
Proof.
  intros Hl. unfold varianceOf, meanOf.
  destruct l as [|x r]; [easy|].
  change (0 <? length (x :: r))%nat with true. cbv iota.
  rewrite squares_fold. unfold ratio. fold (sumOf (x :: r)).
  set (n := Z.of_nat (length (x :: r))).
  assert (Hn : ~ inject_Z n == 0).
  { change 0%Q with (inject_Z 0). rewrite inject_Z_injective.
    subst n. cbn [length]. lia. }
  unfold Z.sub. rewrite inject_Z_plus, inject_Z_opp, !inject_Z_mult. fold n.
  field. exact Hn.
Qed.

Lemma deviations_expand x l :
  sumOf (map (fun y => (y - x) * (y - x)) l) =
  sumSqOf l - 2 * x * sumOf l + Z.of_nat (length l) * x * x.
Proof.
  induction l as [|y r IH].
  - unfold sumSqOf, sumOf. cbn. lia.
  - cbn [map length]. rewrite sumOf_cons, sumSqOf_cons, sumOf_cons, IH. lia.
Qed.

Lemma deviations_nonneg x l : 0 <= sumOf (map (fun y => (y - x) * (y - x)) l).
Proof.
  induction l as [|y r IH]; [reflexivity|].
  cbn [map]. rewrite sumOf_cons. pose proof (Z.square_nonneg (y - x)). lia.
Qed.

Lemma deviations_differ x l y :
  In y l -> y <> x -> 1 <= sumOf (map (fun y => (y - x) * (y - x)) l).
Proof.
  induction l as [|z r IH]; [easy|].
  cbn [map]. rewrite sumOf_cons. intros [->|Hy] Hne.
  - pose proof (deviations_nonneg x r).
    assert (1 <= (y - x) * (y - x)) by nia. lia.
  - specialize (IH Hy Hne). pose proof (Z.square_nonneg (z - x)). lia.
Qed.

Lemma deviations_all_differ x l :
  (forall y, In y l -> y <> x) ->
  Z.of_nat (length l) <= sumOf (map (fun y => (y - x) * (y - x)) l).
Proof.
  induction l as [|z r IH]; intros Hall; [reflexivity|].
  cbn [map length]. rewrite sumOf_cons.
  assert (Hz : z <> x) by (apply Hall; now left).
  assert (Hr : Z.of_nat (length r) <= sumOf (map (fun y => (y - x) * (y - x)) r))
    by (apply IH; intros y Hy; apply Hall; now right).
  assert (1 <= (z - x) * (z - x)) by nia. lia.
Qed.

(** [n * sum of squares - square of the sum] grows by the squared
    distances to the new element. *)
Lemma spread_cons x l :
  Z.of_nat (length (x :: l)) * sumSqOf (x :: l) - sumOf (x :: l) * sumOf (x :: l) =
  (Z.of_nat (length l) * sumSqOf l - sumOf l * sumOf l)
  + sumOf (map (fun y => (y - x) * (y - x)) l).
Proof.
  rewrite deviations_expand, sumSqOf_cons, sumOf_cons. cbn [length]. lia.
Qed.

Lemma spread_nonneg l : 0 <= Z.of_nat (length l) * sumSqOf l - sumOf l * sumOf l.
Proof.
  induction l as [|x r IH]; [reflexivity|].
  rewrite spread_cons. pose proof (deviations_nonneg x r). lia.
Qed.

Lemma allEqual_cases l :
  allEqual l \/ exists a b, In a l /\ In b l /\ a <> b.
Proof.
  destruct l as [|c r]; [left; intros x y []|].
  destruct (forallb (Z.eqb c) r) eqn:E.
  - left. rewrite forallb_forall in E.
    assert (Hc : forall x, In x (c :: r) -> x = c).
    { intros x [<-|Hx]; [reflexivity|]. symmetry. apply Z.eqb_eq. now apply E. }
    intros x y Hx Hy. now rewrite (Hc x Hx), (Hc y Hy).
  - right. destruct (forallb_false_exists _ _ E) as (z & Hz & Hcz).
    exists c, z. split; [now left|]. split; [now right|]. now apply Z.eqb_neq.
Qed.

Lemma spread_allEqual l :
  allEqual l -> Z.of_nat (length l) * sumSqOf l - sumOf l * sumOf l = 0.
Proof.
  induction l as [|x r IH]; intros Hall; [reflexivity|].
  rewrite spread_cons, IH.
  - rewrite (map_ext_in _ (fun _ => 0)).
    + clear. induction r as [|y r IH]; [reflexivity|]. cbn [map]. now rewrite sumOf_cons, IH.
    + intros y Hy. rewrite (Hall y x) by (simpl; auto). lia.
  - intros a b Ha Hb. apply Hall; now right.
Qed.

(** Scores that are not all equal spread by at least [n - 1]. *)
Lemma spread_lower l :
  (exists a b, In a l /\ In b l /\ a <> b) ->
  Z.of_nat (length l) - 1 <= Z.of_nat (length l) * sumSqOf l - sumOf l * sumOf l.
Proof.
  induction l as [|x r IH]; intros (a & b & Ha & Hb & Hab); [easy|].
  rewrite spread_cons. cbn [length]. rewrite Nat2Z.inj_succ.
  destruct (allEqual_cases r) as [Hall|Hdiff].
  - assert (Hx : forall y, In y r -> y <> x).
    { intros y Hy ->. apply Hab.
      assert (Hc : forall z, In z (x :: r) -> z = x).
      { intros z [<-|Hz]; [reflexivity|]. now apply Hall. }
      now rewrite (Hc a Ha), (Hc b Hb). }
    pose proof (deviations_all_differ x r Hx). pose proof (spread_nonneg r). lia.
  - specialize (IH Hdiff). destruct Hdiff as (c & d & Hc & Hd & Hcd).
    assert (Hone : 1 <= sumOf (map (fun y => (y - x) * (y - x)) r)).
    { destruct (Z.eq_dec c x) as [->|Hcx].
      - apply (deviations_differ x r d Hd). congruence.
      - now apply (deviations_differ x r c Hc). }
    lia.
Qed.

Lemma consistency_statsOf playerName playerBowls allGames :
  Stats.consistency (statsOf playerName playerBowls allGames) =
  round2_sqrt (varianceOf (map scoreOr0 (scoredBowlsOf playerBowls))
                 (meanOf (map scoreOr0 (scoredBowlsOf playerBowls)))).
Proof.
  cbn [Stats.consistency statsOf]. unfold avgScoreOf. now rewrite meanScore_meanOf.
Qed.

Lemma variance_small_spread l :
  l <> [] ->
  (varianceOf l (meanOf l) * 40000 < 1)%Q <->
  40000 * (Z.of_nat (length l) * sumSqOf l - sumOf l * sumOf l)
  < Z.of_nat (length l) * Z.of_nat (length l).
Proof.
  intros Hl. rewrite varianceOf_closed by exact Hl.
  set (D := Z.of_nat (length l) * sumSqOf l - sumOf l * sumOf l).
  set (N := Z.of_nat (length l) * Z.of_nat (length l)).
  assert (HN : 0 < N) by (subst N; destruct l; [easy|cbn [length]; nia]).
  assert (HNq : (0 < inject_Z N)%Q) by (change 0%Q with (inject_Z 0); now rewrite <- Zlt_Qlt).
  rewrite Zlt_Qlt, inject_Z_mult. change (inject_Z 40000) with 40000%Q.
  split; intros H.
  - assert (E : (40000 * inject_Z D == inject_Z D / inject_Z N * 40000 * inject_Z N)%Q)
      by (field; lra).
    rewrite E. apply Qlt_le_trans with (1 * inject_Z N)%Q.
    + now apply Qmult_lt_compat_r.
    + rewrite Qmult_1_l. apply Qle_refl.
  - assert (E : (inject_Z D / inject_Z N * 40000 == 40000 * inject_Z D / inject_Z N)%Q)
      by (field; lra).
    rewrite E. apply Qlt_shift_div_r; [exact HNq|]. now rewrite Qmult_1_l.
Qed.

Lemma filter_repeat {A} (f : A -> bool) x n :
  f x = true -> List.filter f (repeat x n) = repeat x n.
Proof. intros Hx. induction n as [|n IH]; [reflexivity|]. simpl. now rewrite Hx, IH. Qed.

Lemma sumOf_app l1 l2 : sumOf (l1 ++ l2) = sumOf l1 + sumOf l2.
Proof. unfold sumOf. rewrite fold_left_app. apply fold_left_add_init. Qed.

Lemma sumOf_repeat z n : sumOf (repeat z n) = Z.of_nat n * z.
Proof.
  induction n as [|n IH]; [reflexivity|].
  cbn [repeat]. rewrite sumOf_cons, IH. lia.
Qed.

(** Many bowls of score 0 and a single bowl of score 1: the scores are
    not all equal, and their standard deviation rounds to 0 as soon as
    [40000 * n < (n + 1)^2]. *)
Lemma nearlyConstant_consistency n :
  40000 * Z.of_nat n < (Z.of_nat n + 1) * (Z.of_nat n + 1) ->
  (0 < n)%nat ->
  let bowls := repeat (sampleBowl "g1" "Ann" 1 (JVal 0) (1 # 2)) n
               ++ [sampleBowl "g1" "Ann" 2 (JVal 1) (1 # 2)] in
  playerBowlsOf "Ann" JUndefined bowls = bowls /\
  fst (getPlayerStats ∅ bowls sampleGames "Ann" JUndefined) =
    Some (statsOf "Ann" bowls sampleGames) /\
  Stats.consistency (statsOf "Ann" bowls sampleGames) == 0 /\
  ~ allEqual (map scoreOr0 (scoredBowlsOf bowls)).
Proof.
  intros Hn Hpos bowls.
  assert (Hpb : playerBowlsOf "Ann" JUndefined bowls = bowls).
  { unfold playerBowlsOf, filterByGame, bowls. rewrite List.filter_app.
    now rewrite filter_repeat by reflexivity. }
  assert (Hscores : map scoreOr0 (scoredBowlsOf bowls) = repeat 0 n ++ [1]).
  { unfold scoredBowlsOf, bowls. rewrite List.filter_app.
    rewrite filter_repeat by reflexivity. now rewrite map_app, List.map_repeat. }
  split; [exact Hpb|]. split; [|split].
  - rewrite getPlayerStats_miss by apply lookup_empty. rewrite Hpb.
    destruct bowls as [|b r] eqn:Hbowls; [|reflexivity].
    apply (f_equal (@length _)) in Hbowls. unfold bowls in Hbowls.
    rewrite List.length_app in Hbowls. cbn [length] in Hbowls. lia.
  - rewrite consistency_statsOf, Hscores.
    apply round2_sqrt_zero_iff. apply variance_small_spread.
    + now destruct (repeat 0 n).
    + unfold sumSqOf. rewrite map_app, List.map_repeat, !sumOf_app, !sumOf_repeat.
      rewrite List.length_app, List.repeat_length. cbn [length map].
      rewrite Nat2Z.inj_add. change (sumOf [1 * 1]) with 1. change (sumOf [1]) with 1.
      change (Z.of_nat 1) with 1. lia.
  - rewrite Hscores. intros Hall. specialize (Hall 0 1).
    assert (H01 : 0 = 1); [|discriminate].
    apply Hall; apply in_app_iff; [left|right; now left].
    destruct n; [lia|now left].
Qed.

Lemma nearlyConstant_counterexample :
  match fst (getPlayerStats ∅ nearlyConstantBowls sampleGames "Ann" JUndefined) with
  | Some s =>
      Stats.consistency s == 0 /\
      ~ allEqual (map scoreOr0
                    (scoredBowlsOf (playerBowlsOf "Ann" JUndefined nearlyConstantBowls)))
  | None => False
  end.
Proof.
  destruct (nearlyConstant_consistency (Z.to_nat 50000)) as (Hpb & Hcall & Hzero & Hdiff).
  - rewrite Z2Nat.id by lia. lia.
  - lia.
  - unfold nearlyConstantBowls. rewrite Hcall, Hpb. split; [exact Hzero|exact Hdiff].
Qed.

(** C7 (amended).  [consistency] is 0 exactly when the population
    variance of the scores is below [1/40000] (a standard deviation
    below 0.005, which rounds to 0.00).  So it is 0 whenever all scores
    are equal, the empty and the single-element case included; and with
    at most 39998 scored bowls it is 0 only if all scores are equal. *)
Theorem consistency_zero_iff_small_variance :
  forall cache allBowls allGames playerName filterGameId s cache',
    cache !! cacheKey playerName filterGameId = None ->
    getPlayerStats cache allBowls allGames playerName filterGameId = (Some s, cache') ->
    let scores :=
      map scoreOr0 (scoredBowlsOf (playerBowlsOf playerName filterGameId allBowls)) in
    (Stats.consistency s == 0 <-> (varianceOf scores (meanOf scores) < 1 # 40000)%Q) /\
    (scores <> [] ->
     varianceOf scores (meanOf scores) ==
     inject_Z (Z.of_nat (length scores) * sumSqOf scores - sumOf scores * sumOf scores)
     / inject_Z (Z.of_nat (length scores) * Z.of_nat (length scores))) /\
    (allEqual scores -> Stats.consistency s == 0) /\
    (Z.of_nat (length scores) <= 39998 -> Stats.consistency s == 0 -> allEqual scores).
Proof.
  intros cache allBowls allGames playerName filterGameId s cache' Hmiss Hcall scores.
  destruct (getPlayerStats_computed _ _ _ _ _ _ _ Hmiss Hcall) as [_ ->].
  rewrite consistency_statsOf. fold scores.
  assert (Hzero : round2_sqrt (varianceOf scores (meanOf scores)) == 0 <->
                  (varianceOf scores (meanOf scores) < 1 # 40000)%Q).
  { rewrite round2_sqrt_zero_iff. split; intros H; lra. }
  split; [exact Hzero|]. split; [apply varianceOf_closed|]. split.
  - intros Hall. apply round2_sqrt_zero_iff.
    destruct scores as [|x r] eqn:Hscores; [reflexivity|].
    apply variance_small_spread; [easy|].
    rewrite (spread_allEqual _ Hall). cbn [length]. lia.
  - intros Hlen Hcons. apply round2_sqrt_zero_iff in Hcons.
    destruct (allEqual_cases scores) as [Hall|Hdiff]; [exact Hall|].
    assert (Hne : scores <> []) by (destruct Hdiff as (a & _ & Ha & _); now destruct scores).
    apply (variance_small_spread _ Hne) in Hcons.
    pose proof (spread_lower scores Hdiff) as Hlow.
    assert (Hn : 2 <= Z.of_nat (length scores)).
    { destruct Hdiff as (a & b & Ha & Hb & Hab).
      destruct scores as [|x [|y r]]; cbn [length]; try lia; [easy|].
      destruct Ha as [<-|[]], Hb as [<-|[]]. now destruct Hab. }
    set (n := Z.of_nat (length scores)) in *.
    assert (0 <= (n - 2) * (39998 - n)) by (apply Z.mul_nonneg_nonneg; lia).
    lia.
Qed.

Lemma consistency_zero_iff_small_variance_witness :
  Stats.consistency sampleStats == 0 <->
  (varianceOf [4; 2; 3; 3]%Z (meanOf [4; 2; 3; 3]%Z) < 1 # 40000)%Q.
Proof.
  exact (proj1 (consistency_zero_iff_small_variance ∅ sampleBowls sampleGames "Ann"
                  JUndefined sampleStats _ (lookup_empty _) sample_call)).
Defined.

(** ** Sorting: order and stability *)

Lemma insert_by_In {A} (le : A -> A -> bool) x l a :
  In a (insert_by le x l) <-> a = x \/ In a l.
Proof.
  split.
  - intros Ha. apply (Permutation_in _ (insert_by_perm le x l)) in Ha.
    destruct Ha as [<-|Ha]; [now left|now right].
  - intros Ha. apply (Permutation_in _ (Permutation_sym (insert_by_perm le x l))).
    destruct Ha as [->|Ha]; [now left|now right].
Qed.

Section SortByKey.

Context {A : Type} (cmp : A -> A -> Q) (key : A -> Q) (dom : A -> Prop).

Hypothesis cmp_key :
  forall a b, dom a -> dom b -> (Qle_bool (cmp a b) 0 = true <-> (key a <= key b)%Q).

Let ascending (a b : A) : Prop := (key a <= key b)%Q.

Lemma insert_by_ascending x l :
  dom x -> Forall dom l -> StronglySorted ascending l ->
  StronglySorted ascending (insert_by (fun a b => Qle_bool (cmp a b) 0) x l).
Proof.
  intros Hx. induction l as [|y r IH]; intros Hdom Hsorted; simpl.
  - repeat constructor.
  - apply List.Forall_cons_iff in Hdom as [Hy Hr].
    apply StronglySorted_inv in Hsorted as [Hsorted Hall].
    destruct (Qle_bool (cmp x y) 0) eqn:Hle.
    + apply (cmp_key x y Hx Hy) in Hle. constructor.
      * now constructor.
      * constructor; [exact Hle|].
        apply List.Forall_forall. intros z Hz.
        pose proof (proj1 (List.Forall_forall _ _) Hall z Hz) as Hyz.
        unfold ascending in *. lra.
    + constructor; [now apply IH|].
      apply List.Forall_forall. intros z Hz. apply insert_by_In in Hz as [->|Hz].
      * assert (Hnot : ~ (key x <= key y)%Q).
        { intros Hxy. apply (cmp_key x y Hx Hy) in Hxy. congruence. }
        unfold ascending. lra.
      * exact (proj1 (List.Forall_forall _ _) Hall z Hz).
Qed.

Lemma js_sort_ascending l :
  Forall dom l -> StronglySorted ascending (js_sort cmp l).
Proof.
  induction l as [|x r IH]; intros Hdom; simpl; [constructor|].
  apply List.Forall_cons_iff in Hdom as [Hx Hr].
  apply insert_by_ascending; [exact Hx| |now apply IH].
  apply List.Forall_forall. intros z Hz.
  apply (Permutation_in _ (js_sort_perm cmp r)) in Hz.
  exact (proj1 (List.Forall_forall _ _) Hr z Hz).
Qed.

End SortByKey.

(** A stable sort leaves the elements that compare equal in the order
    they had. *)
Lemma insert_by_filter {A} (le : A -> A -> bool) (p : A -> bool) x l :
  (forall y, In y l -> p x = true -> p y = true -> le x y = true) ->
  List.filter p (insert_by le x l) = List.filter p (x :: l).
Proof.
  induction l as [|y r IH]; intros Hle; [reflexivity|].
  cbn [insert_by]. destruct (le x y) eqn:Hxy; [reflexivity|].
  cbn [List.filter]. rewrite IH by (intros z Hz; apply Hle; now right).
  cbn [List.filter].
  destruct (p x) eqn:Hpx; [|reflexivity].
  destruct (p y) eqn:Hpy; [|reflexivity].
  rewrite (Hle y (or_introl eq_refl) eq_refl Hpy) in Hxy. discriminate.
Qed.

Lemma sort_by_stable {A} (le : A -> A -> bool) (p : A -> bool) l :
  (forall x y, In x l -> In y l -> p x = true -> p y = true -> le x y = true) ->
  List.filter p (sort_by le l) = List.filter p l.
Proof.
  induction l as [|x r IH]; intros Hle; [reflexivity|].
  cbn [sort_by fold_right]. fold (sort_by le r).
  rewrite insert_by_filter.
  - cbn [List.filter]. rewrite IH; [reflexivity|].
    intros a b Ha Hb. apply Hle; now right.
  - intros y Hy. apply (Permutation_in _ (sort_by_perm le r)) in Hy.
    apply Hle; [now left|now right].
Qed.

(** ** Distinct values: [[...new Set(l)]] *)

Lemma uniq_firstsOf l : uniq l = firstsOf (fun a b => String.eqb a b) l.
Proof.
  transitivity (firstsOf (fun a b => String.eqb b a) l); [reflexivity|].
  apply firstsOf_ext. intros a b. apply String.eqb_sym.
Qed.

Lemma uniq_NoDup l : List.NoDup (uniq l).
Proof.
  rewrite uniq_firstsOf.
  pose proof (firstsOf_NoDup (fun s : string => s) l) as Hnd.
  now rewrite map_id in Hnd.
Qed.

Lemma uniq_In l x : In x (uniq l) <-> In x l.
Proof.
  rewrite uniq_firstsOf. split; [apply firstsOf_In|].
  intros Hx. pose proof (firstsOf_covers (fun s : string => s) l x Hx) as Hcov.
  apply existsb_exists in Hcov as [y [Hy Hyx]].
  apply String.eqb_eq in Hyx. now subst y.
Qed.

Lemma filter_NoDup {A} (f : A -> bool) l : List.NoDup l -> List.NoDup (List.filter f l).
Proof.
  induction 1 as [|x r Hx Hnd IH]; simpl; [constructor|].
  destruct (f x); [|exact IH].
  constructor; [|exact IH]. intros Hin. apply filter_In in Hin as [Hin _]. now apply Hx.
Qed.

(** ** The player names *)

Lemma getAllPlayerNames_In allBowls n :
  In n (getAllPlayerNames allBowls) <->
  n <> "" /\ n <> "opponent" /\
  exists b, In b allBowls /\ Bowl.team b = "yours" /\ Bowl.playerId b = n.
Proof.
  unfold getAllPlayerNames. rewrite filter_In, uniq_In, in_map_iff.
  rewrite andb_true_iff, !negb_true_iff.
  unfold falsy, falsy_string.
  split.
  - intros [[b [Hn Hb]] [Hne Hno]].
    apply filter_In in Hb as [Hb Ht]. apply String.eqb_eq in Ht.
    apply String.eqb_neq in Hne, Hno. repeat split; try assumption. now exists b.
  - intros (Hne & Hno & b & Hb & Ht & Hn). split.
    + exists b. split; [exact Hn|]. apply filter_In. split; [exact Hb|].
      now apply String.eqb_eq.
    + split; now apply String.eqb_neq.
Qed.

Lemma getAllPlayerNames_NoDup allBowls : List.NoDup (getAllPlayerNames allBowls).
Proof. apply filter_NoDup, uniq_NoDup. Qed.

Lemma playerBowlsOf_listed allBowls p :
  In p (getAllPlayerNames allBowls) -> playerBowlsOf p JUndefined allBowls <> [].
Proof.
  intros Hp. apply getAllPlayerNames_In in Hp as (_ & _ & b & Hb & Ht & Hn).
  unfold playerBowlsOf. cbn [filterByGame].
  assert (Hin : In b (List.filter (fun b => String.eqb (Bowl.playerId b) p
                                            && String.eqb (Bowl.team b) "yours") allBowls)).
  { apply filter_In. split; [exact Hb|].
    apply andb_true_iff. split; now apply String.eqb_eq. }
  intros Hnil. rewrite Hnil in Hin. destruct Hin.
Qed.

(** X1.  [getAllPlayerNames] lists every player exactly once: a name is
    listed exactly when it is not empty, is not ['opponent'] and is the
    [playerId] of a stored bowl of the team ['yours']. *)
Theorem getAllPlayerNames_distinct_named :
  forall allBowls,
    List.NoDup (getAllPlayerNames allBowls) /\
    (forall n, In n (getAllPlayerNames allBowls) <->
               n <> "" /\ n <> "opponent" /\
               exists b, In b allBowls /\ Bowl.team b = "yours" /\ Bowl.playerId b = n).
Proof.
  intros allBowls. split; [apply getAllPlayerNames_NoDup|apply getAllPlayerNames_In].
Qed.

(** X2.  Every name that [getAllPlayerNames] lists has statistics:
    [getPlayerStats] without game filter never returns [null] for it,
    whatever the cache holds; when the call computes, the statistics are
    those of the player's bowls, which are at least one. *)
Theorem getAllPlayerNames_have_stats :
  forall cache allBowls allGames p,
    In p (getAllPlayerNames allBowls) ->
    exists s cache',
      getPlayerStats cache allBowls allGames p JUndefined = (Some s, cache') /\
      (cache !! cacheKey p JUndefined = None ->
       Stats.playerName s = p /\ (1 <= Stats.totalBowls s)%nat /\
       s = statsOf p (playerBowlsOf p JUndefined allBowls) allGames).
Proof.
  intros cache allBowls allGames p Hp.
  pose proof (playerBowlsOf_listed allBowls p Hp) as Hne.
  destruct (cache !! cacheKey p JUndefined) as [cached|] eqn:Hkey.
  - exists cached, cache. split; [now apply getPlayerStats_hit|discriminate].
  - rewrite getPlayerStats_miss by exact Hkey.
    destruct (playerBowlsOf p JUndefined allBowls) as [|b r] eqn:Hbowls; [easy|].
    eexists _, _. split; [reflexivity|]. intros _. cbn. repeat split. lia.
Qed.

Lemma getAllPlayerNames_have_stats_witness :
  exists s cache',
    getPlayerStats ∅ sampleBowls sampleGames "Bob" JUndefined = (Some s, cache') /\
    ((∅ : gmap string Stats.t) !! cacheKey "Bob" JUndefined = None ->
     Stats.playerName s = "Bob" /\ (1 <= Stats.totalBowls s)%nat /\
     s = statsOf "Bob" (playerBowlsOf "Bob" JUndefined sampleBowls) sampleGames).
Proof.
  apply (getAllPlayerNames_have_stats ∅ sampleBowls sampleGames "Bob").
  vm_compute. right. left. reflexivity.
Defined.

(** ** The cache across calls *)

Lemma string_app_nil_r (s : string) : s +:+ "" = s.
Proof. induction s as [|c r IH]; [reflexivity|]. now rewrite string_app_cons, IH. Qed.

Lemma cacheKey_player p : cacheKey p JUndefined = "player_" +:+ p.
Proof. unfold cacheKey. now rewrite string_app_nil_r. Qed.

Lemma cacheKey_inj p q : cacheKey p JUndefined = cacheKey q JUndefined -> p = q.
Proof. rewrite !cacheKey_player. cbn. intros [= H]. exact H. Qed.

(** A call writes under its own key only. *)
Lemma getPlayerStats_other_key cache allBowls allGames p g k :
  k <> cacheKey p g ->
  snd (getPlayerStats cache allBowls allGames p g) !! k = cache !! k.
Proof.
  intros Hk. unfold getPlayerStats.
  destruct (cache !! cacheKey p g); [reflexivity|].
  destruct (length _ =? 0)%nat; [reflexivity|].
  cbn [snd]. rewrite lookup_insert_ne; [reflexivity|]. congruence.
Qed.

(** ** The comparison of the players *)

(** The statistics computed from the store for a player. *)
Lemma collectStats_from keep allBowls allGames players rows cache :
  fst (fold_left (collectStep keep allBowls allGames) players (rows, cache)) =
  rows ++ fst (fold_left (collectStep keep allBowls allGames) players ([], cache)) /\
  snd (fold_left (collectStep keep allBowls allGames) players (rows, cache)) =
  snd (fold_left (collectStep keep allBowls allGames) players ([], cache)).
Proof.
  revert rows cache. induction players as [|p r IH]; intros rows cache.
  - cbn. now rewrite app_nil_r.
  - cbn [fold_left]. unfold collectStep at 2 4 6 8. cbn [fst snd].
    destruct (getPlayerStats cache allBowls allGames p JUndefined) as [[s|] cache'].
    + destruct (keep s).
      * destruct (IH (rows ++ [s]) cache') as [-> ->].
        destruct (IH ([] ++ [s]) cache') as [-> ->].
        now rewrite <- app_assoc.
      * apply IH.
    + apply IH.
Qed.

Lemma collectStats_cons keep cache allBowls allGames p players :
  collectStats keep cache allBowls allGames (p :: players) =
  let first := getPlayerStats cache allBowls allGames p JUndefined in
  let rest := collectStats keep (snd first) allBowls allGames players in
  (match fst first with
   | Some s => if keep s then s :: fst rest else fst rest
   | None => fst rest
   end, snd rest).
Proof.
  unfold collectStats. cbn [fold_left]. unfold collectStep at 2. cbn [fst snd].
  destruct (getPlayerStats cache allBowls allGames p JUndefined) as [[s|] cache'];
    cbn [fst snd]; [destruct (keep s)|]; try now destruct (fold_left _ _ _).
  destruct (collectStats_from keep allBowls allGames players ([] ++ [s]) cache') as [H1 H2].
  destruct (fold_left _ players ([] ++ [s], cache')) as [rows c]. cbn [fst snd] in *.
  now rewrite H1, H2.
Qed.

(** With every name listed, every call gives statistics: the table has
    one row per player that passes the filter, whatever the cache
    holds. *)
Lemma collectStats_all cache allBowls allGames players :
  (forall p, In p players -> In p (getAllPlayerNames allBowls)) ->
  length (fst (collectStats (fun _ => true) cache allBowls allGames players)) = length players.
Proof.
  revert cache. induction players as [|p r IH]; intros cache Hlisted; [reflexivity|].
  rewrite collectStats_cons. cbv zeta.
  assert (Hp : In p (getAllPlayerNames allBowls)) by (apply Hlisted; now left).
  pose proof (playerBowlsOf_listed allBowls p Hp) as Hne.
  assert (Hsome : exists s, fst (getPlayerStats cache allBowls allGames p JUndefined) = Some s).
  { destruct (cache !! cacheKey p JUndefined) as [cached|] eqn:Hkey.
    - exists cached. now rewrite (getPlayerStats_hit _ _ _ _ _ cached).
    - rewrite getPlayerStats_miss by exact Hkey.
      destruct (playerBowlsOf p JUndefined allBowls); [easy|]. now eexists. }
  destruct Hsome as [s ->]. cbn [fst length]. f_equal.
  apply IH. intros q Hq. apply Hlisted. now right.
Qed.

(** From a cache that holds none of the players, the rows are the
    statistics computed from the store. *)
Lemma collectStats_fresh keep cache allBowls allGames players :
  List.NoDup players ->
  (forall p, In p players -> In p (getAllPlayerNames allBowls)) ->
  (forall p, In p players -> cache !! cacheKey p JUndefined = None) ->
  fst (collectStats keep cache allBowls allGames players) =
  List.filter keep
    (map (fun p => statsOf p (playerBowlsOf p JUndefined allBowls) allGames) players).
Proof.
  revert cache. induction players as [|p r IH]; intros cache Hnd Hlisted Hfresh; [reflexivity|].
  apply List.NoDup_cons_iff in Hnd as [Hp Hnd].
  rewrite collectStats_cons. cbv zeta. cbn [fst snd map List.filter].
  rewrite IH.
  - rewrite getPlayerStats_miss by (apply Hfresh; now left).
    pose proof (playerBowlsOf_listed allBowls p (Hlisted p (or_introl eq_refl))) as Hne.
    destruct (playerBowlsOf p JUndefined allBowls) as [|b bs] eqn:Hbowls; [easy|].
    reflexivity.
  - exact Hnd.
  - intros q Hq. apply Hlisted. now right.
  - intros q Hq. rewrite getPlayerStats_other_key; [apply Hfresh; now right|].
    intros Heq. apply cacheKey_inj in Heq. now subst q.
Qed.

Lemma StronglySorted_impl {A} (R R' : A -> A -> Prop) l :
  (forall a b, R a b -> R' a b) -> StronglySorted R l -> StronglySorted R' l.
Proof.
  intros Himpl. induction 1 as [|x r Hsorted IH Hall]; constructor; [exact IH|].
  apply List.Forall_forall. intros y Hy. apply Himpl.
  exact (proj1 (List.Forall_forall _ _) Hall y Hy).
Qed.

Lemma Forall_True {A} (l : list A) : Forall (fun _ => True) l.
Proof. apply List.Forall_forall. easy. Qed.

(** [l.sort((a, b) => key(b) - key(a))] orders by descending key,
    [l.sort((a, b) => key(a) - key(b))] by ascending key. *)
Lemma js_sort_desc_key {A} (key : A -> Q) l :
  StronglySorted (fun a b => (key b <= key a)%Q) (js_sort (fun a b => (key b - key a)%Q) l).
Proof.
  apply (StronglySorted_impl (fun a b => (- key a <= - key b)%Q)); [intros a b; lra|].
  apply (js_sort_ascending _ (fun a => (- key a)%Q) (fun _ => True)); [|apply Forall_True].
  intros a b _ _. rewrite Qle_bool_iff. split; lra.
Qed.

Lemma js_sort_asc_key {A} (key : A -> Q) l :
  StronglySorted (fun a b => (key a <= key b)%Q) (js_sort (fun a b => (key a - key b)%Q) l).
Proof.
  apply (js_sort_ascending _ key (fun _ => True)); [|apply Forall_True].
  intros a b _ _. rewrite Qle_bool_iff. split; lra.
Qed.

Lemma sortComparison_perm sortBy l : Permutation (sortComparison sortBy l) l.
Proof.
  unfold sortComparison.
  repeat (destruct (String.eqb sortBy _); [apply js_sort_perm|]). reflexivity.
Qed.

Lemma existsb_eqb_In x l : existsb (String.eqb x) l = true <-> In x l.
Proof.
  rewrite existsb_exists. split.
  - intros [y [Hy Hxy]]. apply String.eqb_eq in Hxy. now subst y.
  - intros Hx. exists x. split; [exact Hx|apply String.eqb_refl].
Qed.

(** X3.  [filterComparison] orders the rows by the chosen column: average
    score, clutch average and number of bowls from the highest down,
    consistency from the lowest up; the choice of the column changes the
    order of the rows only. *)
Theorem filterComparison_sorted :
  forall position cache allBowls allGames,
    let rows sortBy := fst (filterComparison position sortBy cache allBowls allGames) in
    StronglySorted (fun a b => (Stats.avgScore b <= Stats.avgScore a)%Q) (rows "avgScore") /\
    StronglySorted (fun a b => (Stats.consistency a <= Stats.consistency b)%Q)
      (rows "consistency") /\
    StronglySorted (fun a b => (Stats.clutchAvg b <= Stats.clutchAvg a)%Q) (rows "clutchAvg") /\
    StronglySorted (fun a b => (Stats.totalBowls b <= Stats.totalBowls a)%nat)
      (rows "totalBowls") /\
    forall sortBy sortBy', Permutation (rows sortBy) (rows sortBy').
Proof.
  intros position cache allBowls allGames rows. unfold rows, filterComparison. cbn [fst].
  set (collected := fst (collectStats _ cache allBowls allGames _)).
  repeat split.
  - apply (js_sort_desc_key Stats.avgScore).
  - apply (js_sort_asc_key Stats.consistency).
  - apply (js_sort_desc_key Stats.clutchAvg).
  - apply (StronglySorted_impl
             (fun a b => (- inject_Z (Z.of_nat (Stats.totalBowls a))
                          <= - inject_Z (Z.of_nat (Stats.totalBowls b)))%Q)).
    + intros a b Hab. apply Qopp_le_compat in Hab. rewrite !Qopp_involutive in Hab.
      rewrite <- Zle_Qle in Hab. lia.
    + unfold sortComparison. cbn [String.eqb Ascii.eqb Bool.eqb].
      apply (js_sort_ascending _ (fun s => (- inject_Z (Z.of_nat (Stats.totalBowls s)))%Q)
               (fun _ => True)); [|apply Forall_True].
      intros a b _ _. rewrite Qle_bool_iff.
      change 0%Q with (inject_Z 0). rewrite <- Zle_Qle.
      split.
      * intros Hle. apply Qopp_le_compat. rewrite <- Zle_Qle. lia.
      * intros Hle. apply Qopp_le_compat in Hle. rewrite !Qopp_involutive in Hle.
        rewrite <- Zle_Qle in Hle. lia.
  - intros sortBy sortBy'. now rewrite !sortComparison_perm.
Qed.

Lemma positionsOf_In playerBowls position :
  In position (positionsOf playerBowls) <->
  exists b, In b playerBowls /\ Bowl.position b = position.
Proof.
  unfold positionsOf. rewrite uniq_In, in_map_iff.
  split; intros [b [H1 H2]]; now exists b.
Qed.

(** X4.  When the cache holds none of the players (as after
    [invalidateAnalyticsCache]), the rows of [filterComparison] are the
    statistics computed from the store, one row for every listed player
    who passes the position filter: with ['all'] every player, else the
    players with at least one bowl in that position. *)
Theorem filterComparison_rows :
  forall position sortBy cache allBowls allGames,
    (forall p, In p (getAllPlayerNames allBowls) -> cache !! cacheKey p JUndefined = None) ->
    let computed p := statsOf p (playerBowlsOf p JUndefined allBowls) allGames in
    let rows := fst (filterComparison position sortBy cache allBowls allGames) in
    Permutation rows
      (List.filter (fun s => String.eqb position "all"
                             || existsb (String.eqb position) (Stats.positions s))
         (map computed (getAllPlayerNames allBowls))) /\
    forall s, In s rows <->
              exists p, In p (getAllPlayerNames allBowls) /\ s = computed p /\
                        (position = "all" \/
                         exists b, In b (playerBowlsOf p JUndefined allBowls) /\
                                   Bowl.position b = position).
Proof.
  intros position sortBy cache allBowls allGames Hfresh computed rows.
  assert (Hperm : Permutation rows
            (List.filter (fun s => String.eqb position "all"
                                   || existsb (String.eqb position) (Stats.positions s))
               (map computed (getAllPlayerNames allBowls)))).
  { unfold rows, filterComparison. cbn [fst]. rewrite sortComparison_perm.
    rewrite collectStats_fresh; [reflexivity|apply getAllPlayerNames_NoDup|easy|exact Hfresh]. }
  split; [exact Hperm|]. intros s.
  assert (Hkeep : forall p, (String.eqb position "all"
                     || existsb (String.eqb position) (Stats.positions (computed p))) = true <->
                    (position = "all" \/
                     exists b, In b (playerBowlsOf p JUndefined allBowls) /\
                               Bowl.position b = position)).
  { intros p. rewrite orb_true_iff, String.eqb_eq, existsb_eqb_In.
    unfold computed. cbn [Stats.positions statsOf]. now rewrite positionsOf_In. }
  split.
  - intros Hs. apply (Permutation_in _ Hperm) in Hs.
    apply filter_In in Hs as [Hs Hk]. apply in_map_iff in Hs as [p [<- Hp]].
    exists p. repeat split; [exact Hp|]. now apply Hkeep.
  - intros (p & Hp & -> & Hk).
    apply (Permutation_in _ (Permutation_sym Hperm)).
    apply filter_In. split; [now apply in_map|]. now apply Hkeep.
Qed.

Lemma filterComparison_rows_witness :
  Permutation (fst (filterComparison "Lead" "avgScore" ∅ sampleBowls sampleGames))
    [statsOf "Ann" (playerBowlsOf "Ann" JUndefined sampleBowls) sampleGames;
     statsOf "Bob" (playerBowlsOf "Bob" JUndefined sampleBowls) sampleGames].
Proof.
  destruct (filterComparison_rows "Lead" "avgScore" ∅ sampleBowls sampleGames
              (fun p _ => lookup_empty _)) as [Hperm _].
  exact Hperm.
Defined.

(** X5.  [renderTeamComparison] shows the message when fewer than two players
    are listed; otherwise the table has exactly one row per listed
    player, whatever the cache holds, ordered from the highest average
    score down. *)
Theorem renderTeamComparison_rows :
  forall cache allBowls allGames,
    match fst (renderTeamComparison cache allBowls allGames) with
    | None => (length (getAllPlayerNames allBowls) < 2)%nat
    | Some rows =>
        (2 <= length rows)%nat /\
        length rows = length (getAllPlayerNames allBowls) /\
        StronglySorted (fun a b => (Stats.avgScore b <= Stats.avgScore a)%Q) rows
    end.
Proof.
  intros cache allBowls allGames. unfold renderTeamComparison.
  destruct (length (getAllPlayerNames allBowls) <? 2)%nat eqn:Hlen; cbn [fst].
  - now apply Nat.ltb_lt.
  - apply Nat.ltb_ge in Hlen.
    assert (Hrows : length (js_sort (fun a b => (Stats.avgScore b - Stats.avgScore a)%Q)
                              (fst (collectStats (fun _ => true) cache allBowls allGames
                                      (getAllPlayerNames allBowls))))
                    = length (getAllPlayerNames allBowls)).
    { rewrite (Permutation_length (js_sort_perm _ _)). now apply collectStats_all. }
    repeat split; [now rewrite Hrows|exact Hrows|apply (js_sort_desc_key Stats.avgScore)].
Qed.

(** X6.  Once [getPlayerStats] has returned statistics for a player and game
    filter, the same call returns the same object from the cache,
    whatever the store holds by then (a bowl stored later does not
    show); after [invalidateAnalyticsCache] the call computes from the
    store as it then is. *)
Theorem getPlayerStats_memoized :
  forall cache allBowls allGames playerName filterGameId s cache',
    getPlayerStats cache allBowls allGames playerName filterGameId = (Some s, cache') ->
    forall allBowls' allGames',
      getPlayerStats cache' allBowls' allGames' playerName filterGameId = (Some s, cache') /\
      fst (getPlayerStats (invalidateAnalyticsCache cache') allBowls' allGames'
             playerName filterGameId) =
      match playerBowlsOf playerName filterGameId allBowls' with
      | [] => None
      | playerBowls => Some (statsOf playerName playerBowls allGames')
      end.
Proof.
  intros cache allBowls allGames playerName filterGameId s cache' Hcall allBowls' allGames'.
  split.
  - apply getPlayerStats_hit.
    destruct (cache !! cacheKey playerName filterGameId) as [cached|] eqn:Hkey.
    + rewrite (getPlayerStats_hit _ _ _ _ _ cached) in Hcall by exact Hkey.
      injection Hcall as <- <-. exact Hkey.
    + rewrite getPlayerStats_miss in Hcall by exact Hkey.
      destruct (playerBowlsOf playerName filterGameId allBowls); [discriminate|].
      cbv zeta in Hcall. injection Hcall as <- <-. apply lookup_insert_eq.
  - unfold invalidateAnalyticsCache.
    rewrite getPlayerStats_miss by apply lookup_empty.
    now destruct (playerBowlsOf playerName filterGameId allBowls').
Qed.

Lemma getPlayerStats_memoized_witness :
  getPlayerStats (<[cacheKey "Ann" JUndefined := sampleStats]> ∅) [] [] "Ann" JUndefined =
    (Some sampleStats, <[cacheKey "Ann" JUndefined := sampleStats]> ∅).
Proof.
  exact (proj1 (getPlayerStats_memoized ∅ sampleBowls sampleGames "Ann" JUndefined
                  sampleStats _ sample_call [] [])).
Defined.

(** X7.  A call of [getPlayerStats] does not change what a call under another
    cache key returns. *)
Theorem getPlayerStats_keys_independent :
  forall cache allBowls allGames p g q g',
    cacheKey q g' <> cacheKey p g ->
    fst (getPlayerStats (snd (getPlayerStats cache allBowls allGames p g))
           allBowls allGames q g') =
    fst (getPlayerStats cache allBowls allGames q g').
Proof.
  intros cache allBowls allGames p g q g' Hkey.
  pose proof (getPlayerStats_other_key cache allBowls allGames p g _ Hkey) as Hsame.
  unfold getPlayerStats at 1 3. rewrite Hsame.
  destruct (cache !! cacheKey q g'); [reflexivity|].
  now destruct (length _ =? 0)%nat.
Qed.

Lemma getPlayerStats_keys_independent_witness :
  fst (getPlayerStats (snd (getPlayerStats ∅ sampleBowls sampleGames "Ann" JUndefined))
         sampleBowls sampleGames "Bob" JUndefined) =
  fst (getPlayerStats ∅ sampleBowls sampleGames "Bob" JUndefined).
Proof.
  apply getPlayerStats_keys_independent. vm_compute. discriminate.
Defined.

(** ** The distributions of a player's bowls *)




Lemma handDistribution_fold l a b :
  fold_left (fun d b =>
               let hand := jsor_def (Bowl.hand b) "forehand" in
               if String.eqb hand "backhand"
               then HandDistribution.mk (HandDistribution.forehand d)
                      (S (HandDistribution.backhand d))
               else HandDistribution.mk (S (HandDistribution.forehand d))
                      (HandDistribution.backhand d))
    l (HandDistribution.mk a b) =
  HandDistribution.mk
    (a + length (List.filter (fun b => negb (String.eqb (jsor_def (Bowl.hand b) "forehand")
                                               "backhand")) l))
    (b + length (List.filter (fun b => String.eqb (jsor_def (Bowl.hand b) "forehand")
                                         "backhand") l)).
Proof.
  revert a b. induction l as [|x r IH]; intros a b.
  - cbn. now rewrite !Nat.add_0_r.
  - cbn [fold_left List.filter]. cbv zeta.
    cbn [HandDistribution.forehand HandDistribution.backhand].
    destruct (String.eqb (jsor_def (Bowl.hand x) "forehand") "backhand");
      rewrite IH; cbn [negb length]; f_equal; lia.
Qed.

Lemma hand_backhand b :
  String.eqb (jsor_def (Bowl.hand b) "forehand") "backhand" =
  match Bowl.hand b with
  | JVal h => String.eqb h "backhand"
  | _ => false
  end.
Proof.
  destruct (Bowl.hand b) as [| |h]; try reflexivity.
  cbn [jsor_def]. unfold falsy, falsy_string.
  destruct (String.eqb_spec h "") as [->|_]; reflexivity.
Qed.

Lemma filter_complement {A} (p : A -> bool) l :
  (length (List.filter (fun x => negb (p x)) l) + length (List.filter p l) = length l)%nat.
Proof.
  induction l as [|x r IH]; [reflexivity|].
  cbn [List.filter length]. destruct (p x); cbn [negb length]; lia.
Qed.

(** X9.  [handDistribution] counts as backhand the bowls whose [hand] is
    ['backhand'] and as forehand every other bowl, also one without a
    [hand]; the two counts add up to [totalBowls]. *)
Theorem handDistribution_partition :
  forall playerName playerBowls allGames,
    let s := statsOf playerName playerBowls allGames in
    let d := Stats.handDistribution s in
    let isBackhand b := match Bowl.hand b with
                        | JVal h => String.eqb h "backhand"
                        | _ => false
                        end in
    HandDistribution.backhand d = length (List.filter isBackhand playerBowls) /\
    HandDistribution.forehand d =
      length (List.filter (fun b => negb (isBackhand b)) playerBowls) /\
    (HandDistribution.forehand d + HandDistribution.backhand d = Stats.totalBowls s)%nat.
Proof.
  intros playerName playerBowls allGames s d isBackhand.
  assert (Hd : d = HandDistribution.mk
                     (length (List.filter (fun b => negb (isBackhand b)) playerBowls))
                     (length (List.filter isBackhand playerBowls))).
  { unfold d, s. cbn [statsOf Stats.handDistribution]. unfold handDistributionOf.
    rewrite handDistribution_fold. cbn [Nat.add]. f_equal; f_equal.
    - apply filter_ext. intros b. now rewrite hand_backhand.
    - apply filter_ext. intros b. apply hand_backhand. }
  rewrite Hd. cbn [HandDistribution.forehand HandDistribution.backhand].
  repeat split. apply filter_complement.
Qed.

(** ** The direction breakdown *)

Lemma JsObj_get_alter {V} (f : V -> V) k k' o :
  JsObj.get k (JsObj.alter f k' o) =
  if String.eqb k k' then option_map f (JsObj.get k o) else JsObj.get k o.
Proof.
  induction o as [|[k0 v0] r IH]; cbn [JsObj.alter JsObj.get].
  - now destruct (String.eqb k k').
  - destruct (String.eqb_spec k' k0) as [->|Hne]; cbn [JsObj.get].
    + now destruct (String.eqb k k0).
    + destruct (String.eqb_spec k k0) as [->|Hk].
      * destruct (String.eqb_spec k0 k'); [congruence|reflexivity].
      * exact IH.
Qed.

Lemma JsObj_keys_alter {V} (f : V -> V) k o :
  map fst (JsObj.alter f k o) = map fst o.
Proof.
  induction o as [|[k0 v0] r IH]; [reflexivity|].
  cbn [JsObj.alter]. destruct (String.eqb k k0); cbn [map fst]; [reflexivity|].
  now rewrite IH.
Qed.

(** One turn of the loop over the player's bowls. *)
Lemma directionBreakdownOf_snoc l b :
  directionBreakdownOf (l ++ [b]) =
  let d := directionBreakdownOf l in
  let dir := jsor_def (jsor (Bowl.resultCategory b) (Bowl.direction b)) "" in
  match JsObj.get dir d with
  | Some _ => JsObj.alter (option_map S) dir d
  | None => if JsObj.inherited dir && negb (String.eqb dir "__proto__")
            then JsObj.set dir None d
            else d
  end.
Proof. unfold directionBreakdownOf. now rewrite fold_left_app. Qed.

Lemma directionBreakdownOf_invariant l :
  let tag b := jsor_def (jsor (Bowl.resultCategory b) (Bowl.direction b)) "" in
  (forall k, In k ["Short"; "Jack High"; "Past"] ->
             JsObj.get k (directionBreakdownOf l) =
             Some (Some (length (List.filter (fun b => String.eqb (tag b) k) l)))) /\
  (forall k v, JsObj.get k (directionBreakdownOf l) = Some v ->
               ~ In k ["Short"; "Jack High"; "Past"] ->
               v = None /\ JsObj.inherited k = true).
Proof.
  intros tag. induction l as [|b r [IHa IHb]] using rev_ind.
  - split.
    + intros k [<-|[<-|[<-|[]]]]; reflexivity.
    + intros k v Hget Hk. exfalso. apply Hk. cbn in Hget.
      destruct (String.eqb_spec k "Short") as [->|_]; [now left|].
      destruct (String.eqb_spec k "Jack High") as [->|_]; [right; now left|].
      destruct (String.eqb_spec k "Past") as [->|_]; [right; right; now left|].
      discriminate.
  - rewrite directionBreakdownOf_snoc. cbv zeta. fold (tag b).
    set (d := directionBreakdownOf r) in *.
    assert (Hcount : forall k, length (List.filter (fun b => String.eqb (tag b) k) (r ++ [b]))
                               = if String.eqb k (tag b)
                                 then S (length (List.filter
                                                   (fun b => String.eqb (tag b) k) r))
                                 else length (List.filter
                                                (fun b => String.eqb (tag b) k) r)).
    { intros k. rewrite List.filter_app, List.length_app. cbn [List.filter].
      rewrite (String.eqb_sym (tag b) k).
      destruct (String.eqb k (tag b)); cbn [length]; lia. }
    destruct (JsObj.get (tag b) d) as [v0|] eqn:Hget.
    + split.
      * intros k Hk. rewrite JsObj_get_alter, (IHa k Hk), Hcount.
        now destruct (String.eqb k (tag b)).
      * intros k v. rewrite JsObj_get_alter.
        destruct (String.eqb_spec k (tag b)) as [->|Hne]; [|apply IHb].
        rewrite Hget. cbn [option_map]. intros [= <-] Hk.
        destruct (IHb (tag b) v0 Hget Hk) as [-> Hinh]. easy.
    + assert (Hnot : ~ In (tag b) ["Short"; "Jack High"; "Past"]).
      { intros Hin. rewrite (IHa _ Hin) in Hget. discriminate. }
      assert (Hother : forall k, In k ["Short"; "Jack High"; "Past"] ->
                                 String.eqb k (tag b) = false).
      { intros k Hk. apply String.eqb_neq. intros ->. now apply Hnot. }
      destruct (JsObj.inherited (tag b) && negb (String.eqb (tag b) "__proto__")) eqn:Hinh.
      * apply andb_true_iff in Hinh as [Hinh _]. split.
        -- intros k Hk. rewrite JsObj_get_set, Hcount, (Hother k Hk). now apply IHa.
        -- intros k v. rewrite JsObj_get_set.
           destruct (String.eqb_spec k (tag b)) as [->|Hne]; [|apply IHb].
           now intros [= <-] _.
      * split.
        -- intros k Hk. rewrite Hcount, (Hother k Hk). now apply IHa.
        -- exact IHb.
Qed.

Lemma directionBreakdownOf_keys l :
  (forall b, In b l ->
     JsObj.inherited (jsor_def (jsor (Bowl.resultCategory b) (Bowl.direction b)) "") = false) ->
  map fst (directionBreakdownOf l) = ["Short"; "Jack High"; "Past"].
Proof.
  induction l as [|b r IH] using rev_ind; intros Hplain; [reflexivity|].
  rewrite directionBreakdownOf_snoc. cbv zeta.
  rewrite (Hplain b) by (apply in_app_iff; right; now left). cbn [andb].
  assert (IH' := IH (fun x Hx => Hplain x (proj2 (in_app_iff _ _ _) (or_introl Hx)))).
  destruct (JsObj.get _ _); [|exact IH'].
  now rewrite JsObj_keys_alter.
Qed.

(** X10.  [directionBreakdown] counts under ['Short'], ['Jack High'] and
    ['Past'] the bowls whose [resultCategory] (else [direction]) is that
    tag; a bowl with any other tag, or with none, is counted nowhere.
    The object gets no further key unless a tag is a name inherited from
    [Object.prototype], whose entry is then NaN. *)
Theorem directionBreakdown_counts :
  forall playerName playerBowls allGames,
    let s := statsOf playerName playerBowls allGames in
    let tag b := jsor_def (jsor (Bowl.resultCategory b) (Bowl.direction b)) "" in
    (forall k, In k ["Short"; "Jack High"; "Past"] ->
               JsObj.get k (Stats.directionBreakdown s) =
               Some (Some (length (List.filter (fun b => String.eqb (tag b) k) playerBowls)))) /\
    (forall k v, JsObj.get k (Stats.directionBreakdown s) = Some v ->
                 ~ In k ["Short"; "Jack High"; "Past"] ->
                 v = None /\ JsObj.inherited k = true) /\
    ((forall b, In b playerBowls -> JsObj.inherited (tag b) = false) ->
     map fst (Stats.directionBreakdown s) = ["Short"; "Jack High"; "Past"]).
Proof.
  intros playerName playerBowls allGames s tag.
  unfold s. cbn [statsOf Stats.directionBreakdown].
  destruct (directionBreakdownOf_invariant playerBowls) as [Ha Hb].
  split; [exact Ha|]. split; [exact Hb|]. apply directionBreakdownOf_keys.
Qed.

(** ** The games of a player, and the order of the game lists *)

Lemma list_sum_perm l l' : Permutation l l' -> list_sum l = list_sum l'.
Proof. unfold list_sum. induction 1; cbn [fold_right]; lia. Qed.

(** Counting a list by a key, over keys that are distinct and cover the
    list. *)
Lemma count_by_key {B} (key : B -> string) keys l :
  List.NoDup keys ->
  (forall b, In b l -> In (key b) keys) ->
  list_sum (map (fun k => length (List.filter (fun b => String.eqb (key b) k) l)) keys)
  = length l.
Proof.
  intros Hnd. induction l as [|x r IH]; intros Hcover.
  - clear Hnd Hcover. induction keys as [|k ks IHk]; [reflexivity|exact IHk].
  - assert (Hone : forall ks, List.NoDup ks ->
              list_sum (map (fun k => length (List.filter (fun b => String.eqb (key b) k)
                                                (x :: r))) ks)
              = ((if existsb (String.eqb (key x)) ks then 1 else 0)
                 + list_sum (map (fun k => length (List.filter
                                                     (fun b => String.eqb (key b) k) r)) ks))%nat).
    { induction ks as [|k ks IHk]; intros Hks; [reflexivity|].
      apply List.NoDup_cons_iff in Hks as [Hk Hks].
      cbn [map existsb].
      change (list_sum (?a :: ?t)) with (a + list_sum t)%nat.
      rewrite (IHk Hks). cbn [List.filter].
      destruct (String.eqb_spec (key x) k) as [<-|Hne]; cbn [orb length].
      - assert (Hno : existsb (String.eqb (key x)) ks = false).
        { apply not_true_iff_false. rewrite existsb_eqb_In. exact Hk. }
        rewrite Hno. lia.
      - lia. }
    rewrite (Hone keys Hnd), IH by (intros b Hb; apply Hcover; now right).
    assert (Hx : existsb (String.eqb (key x)) keys = true).
    { apply existsb_eqb_In. apply Hcover. now left. }
    now rewrite Hx.
Qed.

Lemma gamePerformanceOf_perm playerBowls allGames gameIds :
  Permutation (gamePerformanceOf playerBowls allGames gameIds)
    (map (gamePerfOf playerBowls allGames gameIds) gameIds).
Proof. apply js_sort_perm. Qed.

(** X11.  [gamePerformance] has one entry for each game the player has a bowl
    in ([gamesPlayed] entries, with distinct [gameId]), also for a game
    that is not on record; the [bowlCount] of an entry is the number of
    the player's bowls in that game, at least one, and the counts add up
    to [totalBowls]. *)
Theorem gamePerformance_one_per_game :
  forall playerName playerBowls allGames,
    let s := statsOf playerName playerBowls allGames in
    let games := Stats.gamePerformance s in
    List.NoDup (map GamePerf.gameId games) /\
    (forall gid, In gid (map GamePerf.gameId games) <->
                 exists b, In b playerBowls /\ Bowl.gameId b = gid) /\
    length games = Stats.gamesPlayed s /\
    Forall (fun g => GamePerf.bowlCount g =
                       length (List.filter (fun b => String.eqb (Bowl.gameId b)
                                                       (GamePerf.gameId g)) playerBowls) /\
                     (1 <= GamePerf.bowlCount g)%nat) games /\
    list_sum (map GamePerf.bowlCount games) = Stats.totalBowls s.
Proof.
  intros playerName playerBowls allGames s games.
  unfold games, s. cbn [statsOf Stats.gamePerformance Stats.gamesPlayed Stats.totalBowls].
  set (gameIds := gameIdsOf playerBowls).
  pose proof (gamePerformanceOf_perm playerBowls allGames gameIds) as Hperm.
  assert (Hids : Permutation (map GamePerf.gameId
                                (gamePerformanceOf playerBowls allGames gameIds)) gameIds).
  { rewrite Hperm, map_map. cbn [gamePerfOf GamePerf.gameId]. now rewrite map_id. }
  assert (Hin : forall gid, In gid gameIds <->
                            exists b, In b playerBowls /\ Bowl.gameId b = gid).
  { intros gid. unfold gameIds, gameIdsOf. rewrite uniq_In, in_map_iff.
    split; intros [b [H1 H2]]; now exists b. }
  split; [|split; [|split; [|split]]].
  - apply (Permutation_NoDup (Permutation_sym Hids)). apply uniq_NoDup.
  - intros gid. rewrite <- Hin. split; apply Permutation_in; [exact Hids|].
    now apply Permutation_sym.
  - now rewrite (Permutation_length Hperm), length_map.
  - apply List.Forall_forall. intros g Hg.
    apply (Permutation_in _ Hperm) in Hg. apply in_map_iff in Hg as [gid [<- Hgid]].
    cbn [gamePerfOf GamePerf.bowlCount GamePerf.gameId]. split; [reflexivity|].
    apply Hin in Hgid as [b [Hb Hgid]].
    assert (Hbin : In b (List.filter (fun b => String.eqb (Bowl.gameId b) gid) playerBowls)).
    { apply filter_In. split; [exact Hb|]. now apply String.eqb_eq. }
    destruct (List.filter _ playerBowls); [destruct Hbin|cbn; lia].
  - rewrite (list_sum_perm _ _ (Permutation_map GamePerf.bowlCount Hperm)), map_map.
    cbn [gamePerfOf GamePerf.bowlCount].
    apply (count_by_key Bowl.gameId); [apply uniq_NoDup|].
    intros b Hb. apply Hin. now exists b.
Qed.

Lemma StronglySorted_impl_in {A} (R R' : A -> A -> Prop) l :
  (forall a b, In a l -> In b l -> R a b -> R' a b) ->
  StronglySorted R l -> StronglySorted R' l.
Proof.
  intros Himpl Hsorted. induction Hsorted as [|x r Hsorted IH Hall]; constructor.
  - apply IH. intros a b Ha Hb. apply Himpl; now right.
  - apply List.Forall_forall. intros y Hy. apply Himpl; [now left|now right|].
    exact (proj1 (List.Forall_forall _ _) Hall y Hy).
Qed.

Lemma filter_map_comm {A B} (f : A -> B) (p : B -> bool) l :
  List.filter p (map f l) = map f (List.filter (fun a => p (f a)) l).
Proof.
  induction l as [|x r IH]; [reflexivity|].
  cbn [map List.filter]. destruct (p (f x)); cbn [map]; now rewrite IH.
Qed.

(** Sorting records by a date that every record has: [date] ascending
    with the comparator [new Date(a.date) - new Date(b.date)],
    descending with the arguments exchanged; records of the same date
    keep their order. *)
Section SortByDate.

Context {A : Type} (date : A -> option Z).

Let onDate (t : Z) (a : A) : bool :=
  match date a with
  | Some x => x =? t
  | None => false
  end.

Lemma js_sort_date_ascending l :
  (forall a, In a l -> date a <> None) ->
  StronglySorted (fun a b => exists x y, date a = Some x /\ date b = Some y /\ x <= y)
    (js_sort (fun a b => dateDiff (date a) (date b)) l).
Proof.
  intros Hvalid.
  apply (StronglySorted_impl_in
           (fun a b => (inject_Z (default 0%Z (date a)) <= inject_Z (default 0%Z (date b)))%Q)).
  - intros a b Ha Hb Hab.
    apply (Permutation_in _ (js_sort_perm _ l)) in Ha, Hb.
    apply Hvalid in Ha, Hb.
    destruct (date a) as [x|]; [|easy]. destruct (date b) as [y|]; [|easy].
    exists x, y. repeat split. cbn in Hab. rewrite <- Zle_Qle in Hab. exact Hab.
  - apply (js_sort_ascending _ _ (fun a => date a <> None)).
    + intros a b Ha Hb.
      destruct (date a) as [x|]; [|easy]. destruct (date b) as [y|]; [|easy].
      cbn [dateDiff default]. rewrite Qle_bool_iff.
      change 0%Q with (inject_Z 0). rewrite <- !Zle_Qle. unfold Datatypes.id. lia.
    + apply List.Forall_forall. exact Hvalid.
Qed.

Lemma js_sort_date_descending l :
  (forall a, In a l -> date a <> None) ->
  StronglySorted (fun a b => exists x y, date a = Some x /\ date b = Some y /\ y <= x)
    (js_sort (fun a b => dateDiff (date b) (date a)) l).
Proof.
  intros Hvalid.
  apply (StronglySorted_impl_in
           (fun a b => (inject_Z (- default 0%Z (date a))
                        <= inject_Z (- default 0%Z (date b)))%Q)).
  - intros a b Ha Hb Hab.
    apply (Permutation_in _ (js_sort_perm _ l)) in Ha, Hb.
    apply Hvalid in Ha, Hb.
    destruct (date a) as [x|]; [|easy]. destruct (date b) as [y|]; [|easy].
    exists x, y. repeat split. cbn in Hab. rewrite <- Zle_Qle in Hab. lia.
  - apply (js_sort_ascending _ _ (fun a => date a <> None)).
    + intros a b Ha Hb.
      destruct (date a) as [x|]; [|easy]. destruct (date b) as [y|]; [|easy].
      cbn [dateDiff default]. rewrite Qle_bool_iff.
      change 0%Q with (inject_Z 0). rewrite <- !Zle_Qle. unfold Datatypes.id. lia.
    + apply List.Forall_forall. exact Hvalid.
Qed.

Lemma js_sort_date_stable (flip : bool) l t :
  List.filter (onDate t)
    (js_sort (fun a b => if flip then dateDiff (date b) (date a)
                         else dateDiff (date a) (date b)) l)
  = List.filter (onDate t) l.
Proof.
  apply sort_by_stable. intros a b _ _. unfold onDate.
  destruct (date a) as [x|]; [|discriminate]. destruct (date b) as [y|]; [|discriminate].
  intros Hx Hy. apply Z.eqb_eq in Hx, Hy. subst x y.
  destruct flip; cbn [dateDiff]; rewrite Z.sub_diag; reflexivity.
Qed.

End SortByDate.

(** X12.  When every game the player has a bowl in is on record with a date
    that parses, [gamePerformance] runs from the oldest game to the most
    recent one; games of the same date stay in the order in which the
    player's bowls first reach them. *)
Theorem gamePerformance_oldest_first :
  forall playerName playerBowls allGames,
    (forall b, In b playerBowls ->
               exists g t, findGame allGames (Bowl.gameId b) = Some g /\ Game.date g = Some t) ->
    let s := statsOf playerName playerBowls allGames in
    let onDate t g := match GamePerf.date g with Some x => x =? t | None => false end in
    StronglySorted (fun a b => exists x y, GamePerf.date a = Some x /\
                                           GamePerf.date b = Some y /\ x <= y)
      (Stats.gamePerformance s) /\
    forall t, List.filter (onDate t) (Stats.gamePerformance s) =
              List.filter (onDate t)
                (map (gamePerfOf playerBowls allGames (gameIdsOf playerBowls))
                   (gameIdsOf playerBowls)).
Proof.
  intros playerName playerBowls allGames Hrecord s onDate.
  unfold s. cbn [statsOf Stats.gamePerformance]. unfold gamePerformanceOf. split.
  - apply (js_sort_date_ascending GamePerf.date).
    intros g Hg. apply in_map_iff in Hg as [gid [<- Hgid]].
    unfold gameIdsOf in Hgid. apply (proj1 (uniq_In _ _)) in Hgid.
    apply in_map_iff in Hgid as [b [<- Hb]].
    destruct (Hrecord b Hb) as (game & t & Hfind & Hdate).
    cbn [gamePerfOf GamePerf.date]. now rewrite Hfind, Hdate.
  - intros t. exact (js_sort_date_stable GamePerf.date false _ t).
Qed.

Lemma gamePerformance_oldest_first_witness :
  StronglySorted (fun a b => exists x y, GamePerf.date a = Some x /\
                                         GamePerf.date b = Some y /\ x <= y)
    (Stats.gamePerformance sampleStats).
Proof.
  refine (proj1 (gamePerformance_oldest_first "Ann"
                   (playerBowlsOf "Ann" JUndefined sampleBowls) sampleGames _)).
  intros b Hb. vm_compute in Hb.
  destruct Hb as [<-|[<-|[<-|[<-|[]]]]]; vm_compute; eauto.
Defined.

(** X13.  When the date of every stored game parses, [getGameSummaries] lists
    the games from the most recent to the oldest; games of the same date
    stay in the order of the store. *)
Theorem getGameSummaries_newest_first :
  forall allGames allBowls,
    (forall g, In g allGames -> Game.date g <> None) ->
    let onDate t (d : option Z) := match d with Some x => x =? t | None => false end in
    StronglySorted (fun a b => exists x y, Summary.date a = Some x /\
                                           Summary.date b = Some y /\ y <= x)
      (getGameSummaries allGames allBowls) /\
    forall t, List.filter (fun s => onDate t (Summary.date s))
                (getGameSummaries allGames allBowls) =
              map (summaryOf allBowls)
                (List.filter (fun g => onDate t (Game.date g)) allGames).
Proof.
  intros allGames allBowls Hvalid onDate. unfold getGameSummaries. split.
  - apply (js_sort_date_descending Summary.date).
    intros s Hs. apply in_map_iff in Hs as [g [<- Hg]]. now apply Hvalid.
  - intros t.
    etransitivity; [exact (js_sort_date_stable Summary.date true _ t)|].
    exact (filter_map_comm (summaryOf allBowls) (fun s => onDate t (Summary.date s)) allGames).
Qed.

Lemma getGameSummaries_newest_first_witness :
  map Summary.id (getGameSummaries sampleGames sampleBowls) = ["g2"; "g1"] /\
  StronglySorted (fun a b => exists x y, Summary.date a = Some x /\
                                         Summary.date b = Some y /\ y <= x)
    (getGameSummaries sampleGames sampleBowls).
Proof.
  split; [vm_compute; reflexivity|].
  refine (proj1 (getGameSummaries_newest_first sampleGames sampleBowls _)).
  intros g [<-|[<-|[]]]; discriminate.
Defined.

(** ** The selection threshold *)

Lemma round2_ge_iff (x : Q) (k : Z) :
  (inject_Z k / 100 <= round2 x)%Q <-> (inject_Z k - (1 # 2) <= x * 100)%Q.
Proof.
  unfold round2. set (y := (x * 100 + (1 # 2))%Q).
  assert (Hk : (inject_Z k / 100 <= inject_Z (Qfloor y) / 100)%Q <-> k <= Qfloor y).
  { rewrite Zle_Qle. split; intros H.
    - apply (Qmult_le_r _ _ (/ 100)%Q); [reflexivity|exact H].
    - apply (Qmult_le_r _ _ (/ 100)%Q) in H; [exact H|reflexivity]. }
  rewrite Hk. split.
  - intros Hle. rewrite Zle_Qle in Hle. pose proof (Qfloor_le y) as Hfloor.
    unfold y in *. lra.
  - intros Hle. assert (Hy : (inject_Z k <= y)%Q) by (unfold y; lra).
    apply Qfloor_resp_le in Hy. now rewrite Qfloor_Z in Hy.
Qed.

(** X14.  A row of the comparison table is marked as recommended when the
    rounded average reaches 2.5, that is when the mean of the player's
    scored bowls is 2.495 or more. *)
Theorem isRecommended_from_2495 :
  forall playerName playerBowls allGames,
    isRecommended (statsOf playerName playerBowls allGames) = true <->
    (499 # 200 <= meanOf (map scoreOr0 (scoredBowlsOf playerBowls)))%Q.
Proof.
  intros playerName playerBowls allGames.
  unfold isRecommended. cbn [statsOf Stats.avgScore]. unfold avgScoreOf.
  rewrite meanScore_meanOf, Qle_bool_iff.
  set (m := meanOf _).
  assert (H250 : (5 # 2 == inject_Z 250 / 100)%Q) by reflexivity.
  rewrite H250, round2_ge_iff. change (inject_Z 250) with (250 # 1)%Q. split; intros H; lra.
Qed.

(** ** The drill-down of a game *)

Lemma breakdownOf_snoc l b : breakdownOf (l ++ [b]) = breakdownStep (breakdownOf l) b.
Proof. unfold breakdownOf. now rewrite fold_left_app. Qed.

Lemma ownKeyed_all {B} (key : B -> string) l :
  existsb (fun b => JsObj.inherited (key b)) l = false -> ownKeyed key l = l.
Proof.
  unfold ownKeyed. induction l as [|b r IH]; [reflexivity|].
  cbn [existsb List.filter]. intros Hno. apply orb_false_iff in Hno as [Hb Hr].
  rewrite Hb. cbn [negb]. now rewrite IH.
Qed.

(** The loop throws exactly when a name is inherited from
    [Object.prototype]; else it builds one entry per name. *)
Lemma breakdownOf_groupsBy l :
  breakdownOf l =
  if existsb (fun b => JsObj.inherited (nameKey (bowlName b))) l then None
  else Some (groupsBy (fun b => nameKey (bowlName b))
               (fun _ => PlayerBreakdown.mk 0 0 [])
               (fun b d => PlayerBreakdown.mk
                             (PlayerBreakdown.total d + scoreOr0 (BowlRow.bowl b))
                             (S (PlayerBreakdown.count d))
                             (PlayerBreakdown.bowls d ++ [b])) l).
Proof.
  induction l as [|b r IH] using rev_ind; [reflexivity|].
  rewrite breakdownOf_snoc, IH, existsb_app. cbn [existsb]. rewrite orb_false_r.
  destruct (existsb _ r) eqn:Hr; [reflexivity|].
  cbn [orb breakdownStep]. cbv zeta.
  destruct (JsObj.inherited (nameKey (bowlName b))) eqn:Hb.
  - rewrite <- (ownKeyed_all _ r Hr) at 1.
    now rewrite groupsBy_get_inherited.
  - rewrite groupsBy_snoc. now destruct (JsObj.get _ _).
Qed.

Lemma breakdown_fold group : forall total count bowls,
  fold_left (fun d b => PlayerBreakdown.mk
                          (PlayerBreakdown.total d + scoreOr0 (BowlRow.bowl b))
                          (S (PlayerBreakdown.count d))
                          (PlayerBreakdown.bowls d ++ [b]))
    group (PlayerBreakdown.mk total count bowls) =
  PlayerBreakdown.mk
    (total + fold_left Z.add (map (fun b => scoreOr0 (BowlRow.bowl b)) group) 0)
    (count + length group) (bowls ++ group).
Proof.
  induction group as [|b r IH]; intros; cbn [fold_left map length].
  - rewrite app_nil_r. f_equal; lia.
  - rewrite IH. cbn [PlayerBreakdown.total PlayerBreakdown.count PlayerBreakdown.bowls].
    rewrite (fold_left_add_init _ (0 + scoreOr0 (BowlRow.bowl b))), <- app_assoc.
    f_equal; lia.
Qed.

(** The entries of [playerBreakdown] when the loop does not throw. *)
Lemma breakdownOf_entries l playerBreakdown :
  breakdownOf l = Some playerBreakdown ->
  existsb (fun b => JsObj.inherited (nameKey (bowlName b))) l = false /\
  playerBreakdown =
  map (fun b0 =>
         let group := List.filter (fun b => String.eqb (nameKey (bowlName b0))
                                              (nameKey (bowlName b))) l in
         (nameKey (bowlName b0),
          PlayerBreakdown.mk
            (fold_left Z.add (map (fun b => scoreOr0 (BowlRow.bowl b)) group) 0)
            (length group) group))
    (firstsOf (fun a b => String.eqb (nameKey (bowlName a)) (nameKey (bowlName b))) l).
Proof.
  rewrite breakdownOf_groupsBy. destruct (existsb _ l); [discriminate|].
  intros [= <-]. split; [reflexivity|]. unfold groupsBy.
  apply map_ext. intros b0. cbv zeta. now rewrite breakdown_fold.
Qed.

Lemma existsb_false_iff {A} (f : A -> bool) l :
  existsb f l = false <-> forall a, In a l -> f a = false.
Proof.
  split.
  - intros Hno a Ha. destruct (f a) eqn:Hfa; [|reflexivity].
    assert (Hex : existsb f l = true) by (apply existsb_exists; now exists a).
    congruence.
  - intros Hall. apply not_true_iff_false. intros Hex.
    apply existsb_exists in Hex as [a [Ha Hfa]]. rewrite (Hall a Ha) in Hfa. discriminate.
Qed.

(** X15.  [showGameDrillDown] returns without showing anything when the game
    is not in the store, and throws a TypeError exactly when the game
    has a bowl of the team ['yours'] whose player name is a name that
    objects inherit from [Object.prototype] (such as ['constructor']);
    in every other case it shows the page. *)
Theorem showGameDrillDown_throws :
  forall game bowls,
    (showGameDrillDown game bowls = NoGame <-> game = None) /\
    (showGameDrillDown game bowls = Threw <->
     game <> None /\
     exists b, In b bowls /\ Bowl.team (BowlRow.bowl b) = "yours" /\
               JsObj.inherited (nameKey (bowlName b)) = true).
Proof.
  intros [game|] bowls; cbn [showGameDrillDown].
  - rewrite breakdownOf_groupsBy.
    set (yourBowls := List.filter _ bowls).
    destruct (existsb _ yourBowls) eqn:Hex.
    + split; [easy|]. split; [|reflexivity]. intros _. split; [easy|].
      apply existsb_exists in Hex as [b [Hb Hinh]].
      apply filter_In in Hb as [Hb Hteam]. apply String.eqb_eq in Hteam. now exists b.
    + split; [easy|]. split; [discriminate|].
      intros [_ (b & Hb & Hteam & Hinh)].
      rewrite existsb_false_iff in Hex. rewrite (Hex b) in Hinh; [discriminate|].
      apply filter_In. split; [exact Hb|]. now apply String.eqb_eq.
  - split; [easy|]. split; [discriminate|]. now intros [Hgame _].
Qed.

Lemma breakdown_key_sym (b0 : BowlRow.t) l :
  List.filter (fun b => String.eqb (nameKey (bowlName b0)) (nameKey (bowlName b))) l =
  List.filter (fun b => String.eqb (nameKey (bowlName b)) (nameKey (bowlName b0))) l.
Proof. apply filter_ext. intros b. apply String.eqb_sym. Qed.

Lemma nonempty_length {A} (l : list A) : l <> [] -> (1 <= length l)%nat.
Proof. destruct l; [easy|cbn; lia]. Qed.

Lemma meanOf_ratio (scores : list Z) :
  scores <> [] -> meanOf scores = ratio (fold_left Z.add scores 0) (length scores).
Proof. now destruct scores. Qed.

(** X16.  When [showGameDrillDown] shows the page, it shows one card for each
    player name among the game's bowls of the team ['yours']: the card
    counts the bowls of that name (at least one, so that the average on
    the card never divides by zero), its average is the mean of their
    scores, a bowl without score counting for 0, and the counts of the
    cards add up to the number of those bowls. *)
Theorem showGameDrillDown_cards :
  forall game bowls d,
    showGameDrillDown game bowls = Rendered d ->
    let yourBowls :=
      List.filter (fun b => String.eqb (Bowl.team (BowlRow.bowl b)) "yours") bowls in
    let named name :=
      List.filter (fun b => String.eqb (nameKey (bowlName b)) name) yourBowls in
    List.NoDup (DrillDown.playerNames d) /\
    DrillDown.playerNames d = map (fun c => fst (fst c)) (DrillDown.cards d) /\
    (forall name, In name (DrillDown.playerNames d) <->
                  exists b, In b yourBowls /\ nameKey (bowlName b) = name) /\
    (forall name count avg,
        In (name, count, avg) (DrillDown.cards d) ->
        count = length (named name) /\ (1 <= count)%nat /\
        avg = meanOf (map (fun b => scoreOr0 (BowlRow.bowl b)) (named name))) /\
    list_sum (map (fun c => snd (fst c)) (DrillDown.cards d)) = length yourBowls.
Proof.
  intros [game|] bowls d; cbn [showGameDrillDown]; [|discriminate].
  set (yourBowls := List.filter _ bowls).
  destruct (breakdownOf yourBowls) as [playerBreakdown|] eqn:Hbreak; [|discriminate].
  intros [= <-]. cbv zeta. cbn [DrillDown.playerNames DrillDown.cards].
  apply breakdownOf_entries in Hbreak as [_ Hpb].
  set (key := fun b : BowlRow.t => nameKey (bowlName b)) in *.
  set (firsts := firstsOf (fun a b => String.eqb (key a) (key b)) yourBowls) in *.
  pose proof (JsObj_entries_perm playerBreakdown) as Hperm.
  assert (Hkeys : Permutation (map fst (JsObj.entries playerBreakdown)) (map key firsts)).
  { rewrite Hperm, Hpb, map_map. reflexivity. }
  assert (Hin : forall name, In name (map key firsts) <->
                             exists b, In b yourBowls /\ key b = name).
  { intros name. rewrite in_map_iff. split.
    - intros [b [Hname Hb]]. exists b. split; [|exact Hname].
      now apply firstsOf_In in Hb.
    - intros [b [Hb Hname]].
      pose proof (firstsOf_covers key yourBowls b Hb) as Hcov.
      apply existsb_exists in Hcov as [a [Ha Hab]]. apply String.eqb_eq in Hab.
      exists a. split; [congruence|exact Ha]. }
  split; [|split; [|split; [|split]]].
  - apply (Permutation_NoDup (Permutation_sym Hkeys)). apply firstsOf_NoDup.
  - rewrite map_map. reflexivity.
  - intros name. split.
    + intros Hname. apply Hin. exact (Permutation_in _ Hkeys Hname).
    + intros Hname. apply (Permutation_in _ (Permutation_sym Hkeys)). now apply Hin.
  - intros name count avg Hcard. apply in_map_iff in Hcard as [[k data] [Hcard Hentry]].
    apply (Permutation_in _ Hperm) in Hentry. rewrite Hpb in Hentry.
    apply in_map_iff in Hentry as [b0 [Hentry Hb0]]. cbv zeta in Hentry.
    injection Hentry as <- <-. unfold cardOf in Hcard.
    cbn [fst snd PlayerBreakdown.total PlayerBreakdown.count] in Hcard.
    injection Hcard as <- <- <-.
    rewrite breakdown_key_sym. fold key.
    set (group := List.filter (fun b => String.eqb (key b) (key b0)) yourBowls).
    assert (Hgroup : In b0 group).
    { apply filter_In. split; [now apply firstsOf_In in Hb0|apply String.eqb_refl]. }
    assert (Hne : group <> []) by (intros E; rewrite E in Hgroup; destruct Hgroup).
    split; [reflexivity|]. split.
    + now apply nonempty_length.
    + rewrite meanOf_ratio, length_map; [reflexivity|].
      intros E. apply map_eq_nil in E. contradiction.
  - rewrite map_map.
    rewrite (list_sum_perm _ _ (Permutation_map _ Hperm)), Hpb, map_map.
    cbv zeta. cbn [cardOf fst snd PlayerBreakdown.count].
    erewrite map_ext; [|intros b0; rewrite breakdown_key_sym; reflexivity].
    rewrite <- (map_map key (fun k => length (List.filter
                                                 (fun b => String.eqb (key b) k) yourBowls))).
    apply (count_by_key key); [apply firstsOf_NoDup|].
    intros b Hb. apply Hin. now exists b.
Qed.

Lemma showGameDrillDown_cards_witness :
  exists d,
    showGameDrillDown (Some sampleGameRow) (map sampleRow sampleBowls) = Rendered d /\
    DrillDown.playerNames d = ["Ann"; "Bob"] /\
    list_sum (map (fun c => snd (fst c)) (DrillDown.cards d)) = 5%nat.
Proof.
  eexists. split; [vm_compute; reflexivity|]. split; [reflexivity|].
  refine (proj2 (proj2 (proj2 (proj2
            (showGameDrillDown_cards (Some sampleGameRow) (map sampleRow sampleBowls) _ _))))).
  vm_compute. reflexivity.
Defined.

Lemma list_sum_app_nat l1 l2 : list_sum (l1 ++ l2) = (list_sum l1 + list_sum l2)%nat.
Proof.
  induction l1 as [|x r IH]; [reflexivity|].
  cbn [app]. change (list_sum (?a :: ?t)) with (a + list_sum t)%nat. rewrite IH. lia.
Qed.

Lemma list_sum_map_add {A} (f g : A -> nat) l :
  list_sum (map (fun x => (f x + g x)%nat) l) = (list_sum (map f l) + list_sum (map g l))%nat.
Proof.
  induction l as [|x r IH]; [reflexivity|].
  cbn [map]. change (list_sum (?a :: ?t)) with (a + list_sum t)%nat. rewrite IH. lia.
Qed.

Lemma list_sum_zero {A} (l : list A) : list_sum (map (fun _ => 0%nat) l) = 0%nat.
Proof. induction l as [|x r IH]; [reflexivity|exact IH]. Qed.

(** An end number is met exactly once by the loop over the ends when it
    lies between 1 and the number of ends, else never. *)
Lemma indicator_seq (z : Z) (n : nat) :
  list_sum (map (fun e => if z =? Z.of_nat e then 1%nat else 0%nat) (seq 1 n)) =
  if (1 <=? z) && (z <=? Z.of_nat n) then 1%nat else 0%nat.
Proof.
  induction n as [|n IH].
  - destruct ((1 <=? z) && (z <=? Z.of_nat 0)) eqn:E; [|reflexivity].
    apply andb_true_iff in E as [H1 H2]. apply Z.leb_le in H1, H2. cbn in H2. lia.
  - rewrite seq_S, map_app, list_sum_app_nat, IH. cbn [map Nat.add].
    change (list_sum [?a]) with (a + 0)%nat.
    destruct (Z.eqb_spec z (Z.of_nat (S n))) as [->|Hne].
    + assert (H1 : (1 <=? Z.of_nat (S n)) = true) by (apply Z.leb_le; lia).
      assert (H2 : (Z.of_nat (S n) <=? Z.of_nat n) = false) by (apply Z.leb_gt; lia).
      rewrite H1, H2, Z.leb_refl. reflexivity.
    + destruct (1 <=? z) eqn:H1; cbn [andb]; [|reflexivity].
      destruct (z <=? Z.of_nat n) eqn:H2.
      * assert (H3 : (z <=? Z.of_nat (S n)) = true) by (apply Z.leb_le; lia).
        now rewrite H3.
      * assert (H3 : (z <=? Z.of_nat (S n)) = false) by (apply Z.leb_gt; lia).
        now rewrite H3.
Qed.

Lemma count_in_ends l n :
  list_sum (map (fun e => length (List.filter (bowlEndIs (Z.of_nat e)) l)) (seq 1 n)) =
  length (List.filter
            (fun b => match jsor (JVal (Bowl.endNumber (BowlRow.bowl b))) (BowlRow.end_ b) with
                      | JVal z => (1 <=? z) && (z <=? Z.of_nat n)
                      | _ => false
                      end) l).
Proof.
  induction l as [|b r IH].
  - cbn [List.filter length]. apply list_sum_zero.
  - cbn [List.filter].
    transitivity
      (list_sum (map (fun e => ((if bowlEndIs (Z.of_nat e) b then 1 else 0)
                                + length (List.filter (bowlEndIs (Z.of_nat e)) r))%nat)
                   (seq 1 n))).
    { f_equal. apply map_ext. intros e. now destruct (bowlEndIs (Z.of_nat e) b). }
    rewrite list_sum_map_add, IH. unfold bowlEndIs at 1.
    destruct (jsor (JVal (Bowl.endNumber (BowlRow.bowl b))) (BowlRow.end_ b)) as [| |z].
    + now rewrite list_sum_zero.
    + now rewrite list_sum_zero.
    + rewrite indicator_seq. now destruct ((1 <=? z) && (z <=? Z.of_nat n)).
Qed.

(** X17.  When [showGameDrillDown] shows the page, the list of the ends has
    one entry for each end from 1 to the game's number of ends
    ([endCount], else [totalEnds], else 21), in order, also for an end
    without bowls, whose figures are then 0.  An entry counts the bowls
    of the team ['yours'] of that end, with the sum and the mean of
    their scores.  A bowl whose end number is missing or not between 1
    and the number of ends is in no entry: the bowl counts of the
    entries add up to the number of the other bowls. *)
Theorem showGameDrillDown_endData :
  forall game bowls d,
    showGameDrillDown (Some game) bowls = Rendered d ->
    let yourBowls :=
      List.filter (fun b => String.eqb (Bowl.team (BowlRow.bowl b)) "yours") bowls in
    let totalEnds := totalEndsOf (GameRow.game game) in
    let scores e := map (fun b => scoreOr0 (BowlRow.bowl b))
                      (List.filter (bowlEndIs e) yourBowls) in
    let shown b :=
      match jsor (JVal (Bowl.endNumber (BowlRow.bowl b))) (BowlRow.end_ b) with
      | JVal z => (1 <=? z) && (z <=? totalEnds)
      | _ => false
      end in
    map EndDatum.end_ (DrillDown.endData d) = map Z.of_nat (seq 1 (Z.to_nat totalEnds)) /\
    Forall (fun x => EndDatum.bowlCount x = length (scores (EndDatum.end_ x)) /\
                     EndDatum.totalScore x = fold_left Z.add (scores (EndDatum.end_ x)) 0 /\
                     EndDatum.avgScore x = meanOf (scores (EndDatum.end_ x)) /\
                     (EndDatum.bowlCount x = 0%nat ->
                      EndDatum.totalScore x = 0 /\ EndDatum.avgScore x = 0%Q) /\
                     EndDatum.notes x = endNoteOf game (EndDatum.end_ x))
      (DrillDown.endData d) /\
    list_sum (map EndDatum.bowlCount (DrillDown.endData d)) =
      length (List.filter shown yourBowls).
Proof.
  intros game bowls d. cbn [showGameDrillDown].
  set (yourBowls := List.filter _ bowls).
  destruct (breakdownOf yourBowls) as [playerBreakdown|]; [|discriminate].
  intros [= <-]. cbv zeta. cbn [DrillDown.endData]. unfold endDataOf.
  set (totalEnds := totalEndsOf (GameRow.game game)).
  split; [|split].
  - rewrite map_map. reflexivity.
  - apply List.Forall_forall. intros x Hx. apply in_map_iff in Hx as [e [<- _]].
    cbn [endDatumOf EndDatum.bowlCount EndDatum.totalScore EndDatum.avgScore
         EndDatum.end_ EndDatum.notes].
    set (group := List.filter (bowlEndIs (Z.of_nat e)) yourBowls).
    rewrite fold_left_add_map, length_map.
    repeat split.
    + unfold meanOf. destruct group as [|b r]; [reflexivity|].
      cbn [map]. rewrite <- length_map with (f := fun b => scoreOr0 (BowlRow.bowl b)).
      reflexivity.
    + destruct group; [reflexivity|discriminate].
    + destruct group; [reflexivity|discriminate].
  - rewrite map_map. cbn [endDatumOf EndDatum.bowlCount].
    rewrite count_in_ends. f_equal. apply filter_ext. intros b.
    destruct (jsor _ _) as [| |z]; try reflexivity.
    destruct (1 <=? z) eqn:H1; cbn [andb]; [|reflexivity].
    apply Z.leb_le in H1.
    destruct (z <=? totalEnds) eqn:H2.
    + apply Z.leb_le. apply Z.leb_le in H2. lia.
    + apply Z.leb_gt. apply Z.leb_gt in H2. lia.
Qed.

Lemma showGameDrillDown_endData_witness :
  exists d,
    showGameDrillDown (Some sampleGameRow) (map sampleRow sampleBowls) = Rendered d /\
    length (DrillDown.endData d) = 21%nat /\
    list_sum (map EndDatum.bowlCount (DrillDown.endData d)) = 5%nat.
Proof.
  eexists. split; [vm_compute; reflexivity|]. split; [reflexivity|].
  etransitivity.
  - refine (proj2 (proj2 (showGameDrillDown_endData sampleGameRow
                            (map sampleRow sampleBowls) _ _))).
    vm_compute. reflexivity.
  - vm_compute. reflexivity.
Defined.

(** X18.  With ['all'] selected, [filterDrillDownByPlayer] comes to what
    [showGameDrillDown] comes to: the same cards, each with its numbers
    of forehand and backhand bowls added, and the same list of ends. *)
Theorem filterDrillDownByPlayer_all :
  forall game bowls,
    match showGameDrillDown game bowls, filterDrillDownByPlayer "all" game bowls with
    | NoGame, NoGame => True
    | Threw, Threw => True
    | Rendered d, Rendered (cards, endData) =>
        map (fun c => fst (fst c)) cards = DrillDown.cards d /\
        endData = DrillDown.endData d
    | _, _ => False
    end.
Proof.
  intros [game|] bowls; cbn [showGameDrillDown filterDrillDownByPlayer]; [|exact I].
  cbn [String.eqb Ascii.eqb Bool.eqb negb].
  destruct (breakdownOf _) as [playerBreakdown|]; [|exact I].
  cbn [DrillDown.cards DrillDown.endData]. split; [|reflexivity].
  rewrite map_map. reflexivity.
Qed.

Lemma firstsOf_same_key {B} (key : B -> string) l k :
  (forall b, In b l -> key b = k) ->
  (length (firstsOf (fun a b => String.eqb (key a) (key b)) l) <= 1)%nat.
Proof.
  intros Hall.
  pose proof (firstsOf_NoDup key l) as Hnd.
  assert (Hk : forall a, In a (firstsOf (fun a b => String.eqb (key a) (key b)) l) ->
                         key a = k)
    by (intros a Ha; apply Hall; now apply firstsOf_In in Ha).
  destruct (firstsOf _ l) as [|a [|a' r]]; cbn [length]; try lia.
  exfalso. cbn [map] in Hnd. apply List.NoDup_cons_iff in Hnd as [Hnot _].
  apply Hnot. left. rewrite (Hk a), (Hk a'); [reflexivity|right; now left|now left].
Qed.

(** X19.  With a player selected whose name is no name of [Object.prototype],
    [filterDrillDownByPlayer] does not throw, whatever the other bowls
    of the game are: it shows at most one card, that of the selected
    player with the number of the player's bowls of the team ['yours'],
    no card when there is no such bowl, and every entry of the list of
    ends counts the selected player's bowls only. *)
Theorem filterDrillDownByPlayer_selected :
  forall selectedPlayer game bowls,
    selectedPlayer <> "all" ->
    JsObj.inherited selectedPlayer = false ->
    let selected :=
      List.filter (fun b => match bowlName b with
                            | JVal s => String.eqb s selectedPlayer
                            | _ => false
                            end)
        (List.filter (fun b => String.eqb (Bowl.team (BowlRow.bowl b)) "yours") bowls) in
    exists cards endData,
      filterDrillDownByPlayer selectedPlayer (Some game) bowls = Rendered (cards, endData) /\
      (length cards <= 1)%nat /\
      (cards = [] <-> selected = []) /\
      (forall c, In c cards ->
                 fst (fst (fst (fst c))) = selectedPlayer /\
                 snd (fst (fst (fst c))) = length selected) /\
      Forall (fun x => EndDatum.bowlCount x =
                         length (List.filter (bowlEndIs (EndDatum.end_ x)) selected))
        endData.
Proof.
  intros selectedPlayer game bowls Hall Hplain selected.
  cbn [filterDrillDownByPlayer].
  apply String.eqb_neq in Hall. rewrite Hall. cbn [negb]. fold selected.
  assert (Hname : forall b, In b selected -> nameKey (bowlName b) = selectedPlayer).
  { intros b Hb. apply filter_In in Hb as [_ Hb].
    destruct (bowlName b) as [| |s]; try discriminate. now apply String.eqb_eq in Hb. }
  destruct (breakdownOf selected) as [playerBreakdown|] eqn:Hbreak.
  - exists (map handCardOf (JsObj.entries playerBreakdown)).
    exists (endDataOf game selected (totalEndsOf (GameRow.game game))).
    split; [reflexivity|].
    apply breakdownOf_entries in Hbreak as [_ Hpb].
    pose proof (JsObj_entries_perm playerBreakdown) as Hperm.
    pose proof (firstsOf_same_key (fun b => nameKey (bowlName b)) selected selectedPlayer
                  Hname) as Hone.
    assert (Hlen : length (JsObj.entries playerBreakdown) =
                   length (firstsOf (fun a b => String.eqb (nameKey (bowlName a))
                                                  (nameKey (bowlName b))) selected)).
    { now rewrite (Permutation_length Hperm), Hpb, length_map. }
    split; [now rewrite length_map, Hlen|]. split; [|split].
    + split.
      * intros Hnil. apply (f_equal (@length _)) in Hnil.
        rewrite length_map, Hlen in Hnil.
        destruct selected as [|b r] eqn:Hsel; [reflexivity|].
        pose proof (firstsOf_covers (fun b => nameKey (bowlName b)) (b :: r) b
                      (or_introl eq_refl)) as Hcov.
        destruct (firstsOf _ (b :: r)); [discriminate|discriminate].
      * intros Hnil. rewrite Hnil in Hlen. cbn in Hlen.
        destruct (JsObj.entries playerBreakdown); [reflexivity|discriminate].
    + intros c Hc. apply in_map_iff in Hc as [[k data] [<- Hentry]].
      apply (Permutation_in _ Hperm) in Hentry. rewrite Hpb in Hentry.
      apply in_map_iff in Hentry as [b0 [Hentry Hb0]]. cbv zeta in Hentry.
      injection Hentry as <- <-. cbn [handCardOf cardOf fst snd PlayerBreakdown.count].
      apply firstsOf_In in Hb0. split; [now apply Hname|].
      f_equal. rewrite <- (List.filter_true selected) at 2.
      apply filter_ext_in. intros b Hb.
      rewrite (Hname b0 Hb0), (Hname b Hb). apply String.eqb_refl.
    + apply List.Forall_forall. intros x Hx. unfold endDataOf in Hx.
      apply in_map_iff in Hx as [e [<- _]]. reflexivity.
  - rewrite breakdownOf_groupsBy in Hbreak.
    destruct (existsb _ selected) eqn:Hex; [|discriminate].
    apply existsb_exists in Hex as [b [Hb Hinh]].
    rewrite (Hname b Hb) in Hinh. congruence.
Qed.

Lemma filterDrillDownByPlayer_selected_witness :
  exists cards endData,
    filterDrillDownByPlayer "Bob" (Some sampleGameRow) (map sampleRow sampleBowls) =
      Rendered (cards, endData) /\
    (length cards <= 1)%nat.
Proof.
  destruct (filterDrillDownByPlayer_selected "Bob" sampleGameRow (map sampleRow sampleBowls))
    as (cards & endData & Hcall & Hlen & _).
  - discriminate.
  - reflexivity.
  - now exists cards, endData.
Defined.

(** ** The CSV export *)

Lemma string_app_assoc (s1 s2 s3 : string) : (s1 +:+ s2) +:+ s3 = s1 +:+ (s2 +:+ s3).
Proof.
  induction s1 as [|c r IH]; [reflexivity|]. now rewrite !string_app_cons, IH.
Qed.

Lemma string_app_snoc (s : string) c r : (s +:+ String c "") +:+ r = s +:+ String c r.
Proof. now rewrite string_app_assoc. Qed.

Lemma includes_app c s1 s2 : includes c (s1 +:+ s2) = includes c s1 || includes c s2.
Proof.
  induction s1 as [|c' r IH]; [reflexivity|].
  rewrite string_app_cons. cbn [includes]. now rewrite IH, orb_assoc.
Qed.

Lemma pretty_N_char_plain d c :
  In c [comma; dquote; linefeed] -> Ascii.eqb (pretty_N_char d) c = false.
Proof.
  intros [<-|[<-|[<-|[]]]]; unfold pretty_N_char; now repeat case_match.
Qed.

Lemma pretty_N_go_plain c x : forall s,
  In c [comma; dquote; linefeed] -> includes c (pretty_N_go x s) = includes c s.
Proof.
  induction (N.lt_wf_0 x) as [x _ IH]. intros s Hc.
  destruct (N.eq_dec x 0%N) as [->|Hx].
  - now rewrite pretty_N_go_0.
  - rewrite pretty_N_go_step by lia.
    rewrite IH by (try apply N.div_lt; try exact Hc; lia).
    cbn [includes]. now rewrite pretty_N_char_plain.
Qed.

Lemma pretty_N_plain c (x : N) :
  In c [comma; dquote; linefeed] -> includes c (pretty x) = false.
Proof.
  intros Hc. unfold pretty, pretty_N. case_decide.
  - destruct Hc as [<-|[<-|[<-|[]]]]; reflexivity.
  - now rewrite pretty_N_go_plain.
Qed.

Lemma pretty_Z_plain c (z : Z) :
  In c [comma; dquote; linefeed] -> includes c (pretty z) = false.
Proof.
  intros Hc. destruct z as [|p|p].
  - destruct Hc as [<-|[<-|[<-|[]]]]; reflexivity.
  - now apply (pretty_N_plain c (N.pos p)).
  - change (pretty (Z.neg p)) with ("-" +:+ pretty (N.pos p)).
    rewrite includes_app, (pretty_N_plain c (N.pos p)) by exact Hc.
    destruct Hc as [<-|[<-|[<-|[]]]]; reflexivity.
Qed.

Lemma readCSV_plain s : forall rest field record,
  includes comma s || includes dquote s || includes linefeed s = false ->
  readCSV (s +:+ rest) false field record = readCSV rest false (field +:+ s) record.
Proof.
  induction s as [|c r IH]; intros rest field record Hplain.
  - now rewrite string_app_nil_l, string_app_nil_r.
  - cbn [includes] in Hplain.
    apply orb_false_iff in Hplain as [Hplain Hlf].
    apply orb_false_iff in Hplain as [Hcomma Hquote].
    apply orb_false_iff in Hcomma as [Hc1 Hcomma].
    apply orb_false_iff in Hquote as [Hc2 Hquote].
    apply orb_false_iff in Hlf as [Hc3 Hlf].
    rewrite string_app_cons. cbn [readCSV]. rewrite Hc1, Hc2, Hc3.
    rewrite IH by now rewrite Hcomma, Hquote, Hlf.
    now rewrite string_app_snoc.
Qed.

Lemma afterField_not_quote c r : afterField (String c r) = true -> Ascii.eqb c dquote = false.
Proof.
  cbn [afterField]. intros Hc. apply orb_true_iff in Hc as [Hc|Hc];
    apply Ascii.eqb_eq in Hc; subst c; reflexivity.
Qed.

Lemma readCSV_quoted s : forall rest field record,
  afterField rest = true ->
  readCSV (doubleQuotes s +:+ String dquote rest) true field record =
  readCSV rest false (field +:+ s) record.
Proof.
  induction s as [|c r IH]; intros rest field record Hrest.
  - rewrite string_app_nil_l, string_app_nil_r. cbn [readCSV].
    rewrite Ascii.eqb_refl. destruct rest as [|c' r']; [reflexivity|].
    now rewrite (afterField_not_quote c' r' Hrest).
  - cbn [doubleQuotes]. destruct (Ascii.eqb c dquote) eqn:Hc.
    + apply Ascii.eqb_eq in Hc. subst c.
      rewrite !string_app_cons. cbn [readCSV]. rewrite Ascii.eqb_refl.
      rewrite IH by exact Hrest. now rewrite string_app_snoc.
    + rewrite string_app_cons. cbn [readCSV]. rewrite Hc.
      rewrite IH by exact Hrest. now rewrite string_app_snoc.
Qed.

(** Reading one escaped cell gives back its text. *)
Lemma readCSV_cell value rest record :
  afterField rest = true ->
  readCSV (escapeCSV value +:+ rest) false "" record =
  readCSV rest false (cellText value) record.
Proof.
  intros Hrest.
  assert (Hstr : forall str,
            readCSV ((if includes comma str || includes dquote str || includes linefeed str
                      then String dquote (doubleQuotes str +:+ String dquote "")
                      else str) +:+ rest) false "" record =
            readCSV rest false str record).
  { intros str.
    destruct (includes comma str || includes dquote str || includes linefeed str) eqn:Hs.
    - rewrite string_app_cons, string_app_assoc, string_app_cons, string_app_nil_l.
      cbn [readCSV]. cbn [Ascii.eqb Bool.eqb]. cbn [andb].
      now rewrite readCSV_quoted by exact Hrest.
    - now rewrite readCSV_plain by exact Hs. }
  destruct value as [| |s|z]; try reflexivity; apply Hstr.
Qed.

Lemma last_cons_default {A} (l : list A) (x d : A) : List.last (x :: l) d = List.last l x.
Proof.
  revert x d. induction l as [|y r IH]; intros x d; [reflexivity|].
  change (List.last (x :: y :: r) d) with (List.last (y :: r) d).
  now rewrite !IH.
Qed.

(** Reading one line of escaped cells: the record is completed by the
    cells but the last, which is the field being read. *)
Lemma readCSV_line row : forall value rest record,
  afterField rest = true ->
  readCSV (join "," (map escapeCSV (value :: row)) +:+ rest) false "" record =
  readCSV rest false (cellText (List.last row value))
    (record ++ map cellText (removelast (value :: row))).
Proof.
  induction row as [|value' row IH]; intros value rest record Hrest.
  - cbn [map join List.last removelast]. rewrite app_nil_r. now apply readCSV_cell.
  - change (join "," (map escapeCSV (value :: value' :: row)))
      with (escapeCSV value +:+ "," +:+ join "," (map escapeCSV (value' :: row))).
    rewrite !string_app_assoc, readCSV_cell by reflexivity.
    rewrite string_app_cons, string_app_nil_l.
    cbn [readCSV]. cbn [Ascii.eqb Bool.eqb]. cbn [andb].
    rewrite IH by exact Hrest.
    change (removelast (value :: value' :: row)) with (value :: removelast (value' :: row)).
    rewrite last_cons_default. cbn [map]. now rewrite <- app_assoc.
Qed.

Lemma removelast_last {A} (l : list A) (x : A) :
  removelast (x :: l) ++ [List.last l x] = x :: l.
Proof.
  revert x. induction l as [|y r IH]; intros x; [reflexivity|].
  change (removelast (x :: y :: r)) with (x :: removelast (y :: r)).
  rewrite last_cons_default. cbn [app]. f_equal. apply IH.
Qed.

(** Reading the lines of a table gives back the texts of its cells. *)
Lemma readCSV_lines rows : forall row,
  row <> [] -> Forall (fun r => r <> []) rows ->
  readCSV (join (String linefeed "") (map (fun row => join "," (map escapeCSV row))
                                        (row :: rows))) false "" [] =
  map (map cellText) (row :: rows).
Proof.
  induction rows as [|row' rows IH]; intros row Hrow Hrows.
  - destruct row as [|value row]; [contradiction|].
    change (join (String linefeed "")
              (map (fun row => join "," (map escapeCSV row)) [value :: row]))
      with (join "," (map escapeCSV (value :: row))).
    rewrite <- (string_app_nil_r (join "," (map escapeCSV (value :: row)))).
    rewrite readCSV_line by reflexivity. cbn [readCSV app].
    transitivity [map cellText (removelast (value :: row) ++ [List.last row value])];
      [now rewrite map_app|now rewrite removelast_last].
  - destruct row as [|value row]; [contradiction|].
    apply List.Forall_cons_iff in Hrows as [Hrow' Hrows].
    change (join (String linefeed "")
              (map (fun row => join "," (map escapeCSV row)) ((value :: row) :: row' :: rows)))
      with (join "," (map escapeCSV (value :: row)) +:+ String linefeed "" +:+
            join (String linefeed "")
              (map (fun row => join "," (map escapeCSV row)) (row' :: rows))).
    rewrite readCSV_line by reflexivity.
    rewrite string_app_cons, string_app_nil_l.
    cbn [readCSV]. cbn [Ascii.eqb Bool.eqb]. cbn [andb app].
    rewrite IH by assumption.
    transitivity (map cellText (removelast (value :: row) ++ [List.last row value])
                  :: map (map cellText) (row' :: rows));
      [now rewrite map_app|now rewrite removelast_last].
Qed.

Lemma toCSV_lines headers rows :
  toCSV headers rows =
  join (String linefeed "") (map (fun row => join "," (map escapeCSV row)) (headers :: rows)).
Proof. reflexivity. Qed.

(** X20.  Read back by the rules of CSV (fields separated by commas, records
    by line feeds, quoted fields with doubled quotes), the text that
    [toCSV] builds gives the header and the rows again, cell by cell
    with the text of each cell, whatever commas, quotes and line feeds
    the cells hold; [null] and [undefined] read as the empty text.  The
    header and every row must have at least one cell. *)
Theorem toCSV_read_back :
  forall headers rows,
    headers <> [] -> Forall (fun row => row <> []) rows ->
    readCSV (toCSV headers rows) false "" [] = map (map cellText) (headers :: rows).
Proof.
  intros headers rows Hheaders Hrows. rewrite toCSV_lines. now apply readCSV_lines.
Qed.

Lemma toCSV_read_back_witness :
  readCSV (toCSV [CStr "Player"; CStr "Notes"]
             [[CStr "Ann, A."; CStr (String dquote "wide" +:+ String dquote "")];
              [CNull; CNum (-3)]]) false "" [] =
  [["Player"; "Notes"];
   ["Ann, A."; String dquote "wide" +:+ String dquote ""];
   [""; "-3"]].
Proof.
  apply (toCSV_read_back [CStr "Player"; CStr "Notes"]).
  - discriminate.
  - repeat constructor; discriminate.
Defined.

(** X21.  Two tables whose header and rows have at least one cell each are
    exported by [toCSV] to the same text only when they have the same
    rows of the same cell texts: no comma, quote or line feed in a cell
    makes two different tables look alike. *)
Theorem toCSV_injective :
  forall headers rows headers' rows',
    headers <> [] -> Forall (fun row => row <> []) rows ->
    headers' <> [] -> Forall (fun row => row <> []) rows' ->
    toCSV headers rows = toCSV headers' rows' ->
    map (map cellText) (headers :: rows) = map (map cellText) (headers' :: rows').
Proof.
  intros headers rows headers' rows' Hheaders Hrows Hheaders' Hrows' Heq.
  rewrite <- (readCSV_lines rows headers Hheaders Hrows).
  rewrite <- (readCSV_lines rows' headers' Hheaders' Hrows').
  rewrite <- !toCSV_lines. now rewrite Heq.
Qed.

Lemma toCSV_injective_witness :
  map (map cellText) ([CStr "Notes"] :: [[CNull]]) =
  map (map cellText) ([CStr "Notes"] :: [[CStr ""]]).
Proof.
  apply toCSV_injective.
  - discriminate.
  - repeat constructor; discriminate.
  - discriminate.
  - repeat constructor; discriminate.
  - reflexivity.
Defined.

Lemma string_length_app (s1 s2 : string) :
  String.length (s1 +:+ s2) = (String.length s1 + String.length s2)%nat.
Proof.
  induction s1 as [|c r IH]; [reflexivity|].
  rewrite string_app_cons. cbn [String.length]. now rewrite IH.
Qed.

Lemma doubleQuotes_length s : (String.length s <= String.length (doubleQuotes s))%nat.
Proof.
  induction s as [|c r IH]; [reflexivity|].
  cbn [doubleQuotes]. destruct (Ascii.eqb c dquote); cbn [String.length]; lia.
Qed.

(** What [String] prints for an integer holds no comma, double quote or
    line feed, in digits or in exponent form. *)
Lemma numberString_plain c (n : Z) :
  In c [comma; dquote; linefeed] -> includes c (numberString n) = false.
Proof.
  intros Hc. unfold numberString.
  destruct (n =? 0); [destruct Hc as [<-|[<-|[<-|[]]]]; reflexivity|].
  set (x := Qfloor (fl (inject_Z (Z.abs n)))).
  set (v := shortestDigits (String.length (pretty x) - 1) x).
  set (digits := String.length (pretty v)).
  rewrite includes_app.
  assert (Hsign : includes c (if n <? 0 then "-" else "") = false)
    by (destruct (n <? 0); destruct Hc as [<-|[<-|[<-|[]]]]; reflexivity).
  rewrite Hsign. cbn [orb].
  destruct (digits <=? 21)%nat; [now apply pretty_Z_plain|].
  pose proof (pretty_Z_plain c (stripZeros digits v) Hc) as Hdigits.
  pose proof (pretty_Z_plain c (Z.of_nat (digits - 1)) Hc) as Hexp.
  assert (He : includes c ("e+" +:+ pretty (Z.of_nat (digits - 1))) = false).
  { rewrite includes_app, Hexp.
    destruct Hc as [<-|[<-|[<-|[]]]]; reflexivity. }
  destruct (pretty (stripZeros digits v)) as [|d [|d' rest]]; [reflexivity| |].
  - cbn [includes] in Hdigits |- *. apply orb_false_iff in Hdigits as [Hd _].
    now rewrite Hd, He.
  - cbn [includes] in Hdigits. apply orb_false_iff in Hdigits as [Hd Hrest].
    cbn [includes]. rewrite Hd. cbn [orb].
    rewrite includes_app, includes_app.
    change (includes c (String d' rest)) with (Ascii.eqb d' c || includes c rest).
    rewrite Hrest, He.
    destruct Hc as [<-|[<-|[<-|[]]]]; reflexivity.
Qed.

(** The integers below [2^53] print in their digits; [2^64] and [10^21]
    print as the doubles they are held as. *)
Lemma numberString_samples :
  map numberString [0; 21; -3; 9007199254740991; 18446744073709551616;
                    999999999999999999999; 1180591620717411303424] =
  ["0"; "21"; "-3"; "9007199254740991"; "18446744073709552000";
   "1e+21"; "1.1805916207174113e+21"].
Proof. vm_compute. reflexivity. Qed.

(** X22.  [escapeCSV] never quotes a number: the cell is what [String]
    prints for it.  It writes a string unchanged exactly when the string
    holds no comma, double quote or line feed; any other string is
    lengthened by the two enclosing quotes at least. *)
Theorem escapeCSV_unchanged :
  (forall z, escapeCSV (CNum z) = cellString (CNum z)) /\
  (forall s, escapeCSV (CStr s) = s <->
             includes comma s || includes dquote s || includes linefeed s = false) /\
  (forall s, includes comma s || includes dquote s || includes linefeed s = true ->
             (String.length s + 2 <= String.length (escapeCSV (CStr s)))%nat).
Proof.
  assert (Hlong : forall s,
            includes comma s || includes dquote s || includes linefeed s = true ->
            (String.length s + 2 <= String.length (escapeCSV (CStr s)))%nat).
  { intros s Hs. cbn [escapeCSV cellString]. rewrite Hs.
    cbn [String.length]. rewrite string_length_app. cbn [String.length].
    pose proof (doubleQuotes_length s). lia. }
  split; [|split; [|exact Hlong]].
  - intros z. cbn [escapeCSV cellString].
    now rewrite !numberString_plain by (cbn; auto).
  - intros s. split.
    + intros Hsame.
      destruct (includes comma s || includes dquote s || includes linefeed s) eqn:Hs;
        [|reflexivity].
      pose proof (Hlong s Hs) as Hlen. rewrite Hsame in Hlen. lia.
    + intros Hs. cbn [escapeCSV cellString]. now rewrite Hs.
Qed.

(** ** The score of a front-end bowl *)

Lemma getResultCategory_cases bowlY jackY :
  (getResultCategory bowlY jackY = "Short" /\ (bowlY < jackY - 10)%Q) \/
  (getResultCategory bowlY jackY = "Jack High" /\ (jackY - 10 <= bowlY <= jackY + 10)%Q) \/
  (getResultCategory bowlY jackY = "Past" /\ (jackY + 10 < bowlY)%Q).
Proof.
  unfold getResultCategory.
  destruct (Qlt_bool bowlY (jackY - 10)) eqn:Hshort.
  - left. split; [reflexivity|now apply Qlt_bool_iff].
  - apply Qlt_bool_false_iff in Hshort. right.
    destruct (Qle_bool (Qabs (bowlY - jackY)) 10) eqn:Hhigh.
    + left. split; [reflexivity|]. apply Qle_bool_iff, Qabs_Qle_condition in Hhigh. lra.
    + right. split; [reflexivity|].
      apply Qnot_le_lt. intros Hle.
      assert (Habs : (Qabs (bowlY - jackY) <= 10)%Q) by (apply Qabs_Qle_condition; lra).
      apply Qle_bool_iff in Habs. congruence.
Qed.

(** The score by result and distance: 4, 3, 2, 1, 0 by distance class
    for a short or jack-high bowl, 4, 4, 3, 2, 1 for a bowl past the
    jack. *)
Lemma frontEndScore_by_class rc d :
  In rc ["Short"; "Jack High"; "Past"] ->
  calculateFrontEndScore rc (getDistanceCategory d) =
  let rank := if Qlt_bool d (1 # 2) then 0
              else if Qlt_bool d 1 then 1
              else if Qlt_bool d 2 then 2
              else if Qlt_bool d 3 then 3
              else 4 in
  if String.eqb rc "Past" then Z.min 4 (5 - rank) else 4 - rank.
Proof.
  intros Hrc. unfold getDistanceCategory.
  destruct Hrc as [<-|[<-|[<-|[]]]];
    destruct (Qlt_bool d (1 # 2)); try reflexivity;
    destruct (Qlt_bool d 1); try reflexivity;
    destruct (Qlt_bool d 2); try reflexivity;
    destruct (Qlt_bool d 3); reflexivity.
Qed.

Lemma getResultCategory_In bowlY jackY :
  In (getResultCategory bowlY jackY) ["Short"; "Jack High"; "Past"].
Proof.
  destruct (getResultCategory_cases bowlY jackY) as [[-> _]|[[-> _]|[-> _]]]; cbn; auto.
Qed.

(** X23.  The score that a front-end bowl gets from its place: a whole number
    from 0 to 4; a bowl nearer to the jack never scores less than one
    farther away in the same direction; at equal distance a bowl past
    the jack never scores less than a short or jack-high one; within
    half a foot the score is 4, and only a bowl three feet away or more
    that is not past the jack scores 0. *)
Theorem frontEndScore_by_distance :
  forall bowlY jackY d,
    let score y x := calculateFrontEndScore (getResultCategory y jackY)
                       (getDistanceCategory x) in
    0 <= score bowlY d <= 4 /\
    (forall d', (d <= d')%Q -> score bowlY d' <= score bowlY d) /\
    (forall y y', getResultCategory y jackY = "Past" -> score y' d <= score y d) /\
    ((d < 1 # 2)%Q -> score bowlY d = 4) /\
    (score bowlY d = 0 -> (3 <= d)%Q /\ (bowlY <= jackY + 10)%Q).
Proof.
  intros bowlY jackY d score.
  assert (Hscore : forall y x,
            score y x =
            let rank := if Qlt_bool x (1 # 2) then 0
                        else if Qlt_bool x 1 then 1
                        else if Qlt_bool x 2 then 2
                        else if Qlt_bool x 3 then 3
                        else 4 in
            if String.eqb (getResultCategory y jackY) "Past"
            then Z.min 4 (5 - rank) else 4 - rank).
  { intros y x. apply frontEndScore_by_class, getResultCategory_In. }
  assert (Hrank : forall x,
            let rank := if Qlt_bool x (1 # 2) then 0
                        else if Qlt_bool x 1 then 1
                        else if Qlt_bool x 2 then 2
                        else if Qlt_bool x 3 then 3
                        else 4 in
            0 <= rank <= 4).
  { intros x. cbv zeta. repeat (destruct (Qlt_bool x _); [lia|]). lia. }
  split; [|split; [|split; [|split]]].
  - rewrite Hscore. cbv zeta. pose proof (Hrank d) as Hr. cbv zeta in Hr.
    destruct (String.eqb _ _); lia.
  - intros d' Hle. rewrite !Hscore. cbv zeta.
    assert (Hmono : (if Qlt_bool d (1 # 2) then 0
                     else if Qlt_bool d 1 then 1
                     else if Qlt_bool d 2 then 2
                     else if Qlt_bool d 3 then 3 else 4)
                    <= (if Qlt_bool d' (1 # 2) then 0
                        else if Qlt_bool d' 1 then 1
                        else if Qlt_bool d' 2 then 2
                        else if Qlt_bool d' 3 then 3 else 4)).
    { destruct (Qlt_bool d (1 # 2)) eqn:H1; destruct (Qlt_bool d' (1 # 2)) eqn:H1';
        destruct (Qlt_bool d 1) eqn:H2; destruct (Qlt_bool d' 1) eqn:H2';
        destruct (Qlt_bool d 2) eqn:H3; destruct (Qlt_bool d' 2) eqn:H3';
        destruct (Qlt_bool d 3) eqn:H4; destruct (Qlt_bool d' 3) eqn:H4';
        try lia; exfalso;
        rewrite ?Qlt_bool_iff, ?Qlt_bool_false_iff in *; lra. }
    destruct (String.eqb _ _); lia.
  - intros y y' Hpast. rewrite !Hscore, Hpast. cbv zeta.
    pose proof (Hrank d) as Hr. cbv zeta in Hr.
    cbn [String.eqb Ascii.eqb Bool.eqb]. destruct (String.eqb _ _); lia.
  - intros Hnear. rewrite Hscore. cbv zeta.
    apply Qlt_bool_iff in Hnear. rewrite Hnear. destruct (String.eqb _ _); reflexivity.
  - rewrite Hscore. cbv zeta. intros Hzero.
    destruct (getResultCategory_cases bowlY jackY) as [[Hrc Hy]|[[Hrc Hy]|[Hrc Hy]]];
      rewrite Hrc in Hzero; cbn [String.eqb Ascii.eqb Bool.eqb] in Hzero;
      destruct (Qlt_bool d (1 # 2)) eqn:H1; try lia;
      destruct (Qlt_bool d 1) eqn:H2; try lia;
      destruct (Qlt_bool d 2) eqn:H3; try lia;
      destruct (Qlt_bool d 3) eqn:H4; try lia;
      apply Qlt_bool_false_iff in H4; split; lra.
Qed.

(** ** Whose turn it is *)

Lemma nextPlayerLoop_spec gameState cur :
  0 <= cur < GameState.playersPerTeam gameState ->
  forall turns k,
    1 <= k ->
    match nextPlayerLoop gameState turns ((cur + k) mod GameState.playersPerTeam gameState) with
    | Some index =>
        exists d, k <= d < k + Z.of_nat turns /\
                  index = (cur + d) mod GameState.playersPerTeam gameState /\
                  playerBowlsThisEnd gameState index < GameState.bowlsPerPlayer gameState /\
                  forall j, k <= j < d ->
                            GameState.bowlsPerPlayer gameState <=
                            playerBowlsThisEnd gameState
                              ((cur + j) mod GameState.playersPerTeam gameState)
    | None =>
        forall j, k <= j < k + Z.of_nat turns ->
                  GameState.bowlsPerPlayer gameState <=
                  playerBowlsThisEnd gameState
                    ((cur + j) mod GameState.playersPerTeam gameState)
    end.
Proof.
  intros Hcur. set (P := GameState.playersPerTeam gameState) in *.
  set (B := GameState.bowlsPerPlayer gameState).
  induction turns as [|turns IH]; intros k Hk.
  - cbn [nextPlayerLoop]. intros j Hj. lia.
  - cbn [nextPlayerLoop]. cbv zeta. fold P B.
    destruct (playerBowlsThisEnd gameState ((cur + k) mod P) <? B) eqn:Hfree.
    + apply Z.ltb_lt in Hfree. exists k. repeat split; lia.
    + apply Z.ltb_ge in Hfree.
      assert (Hnext : Z.rem ((cur + k) mod P + 1) P = (cur + (k + 1)) mod P).
      { rewrite Z.rem_mod_nonneg.
        - rewrite Zplus_mod_idemp_l. f_equal. lia.
        - pose proof (Z.mod_pos_bound (cur + k) P). lia.
        - lia. }
      rewrite Hnext. specialize (IH (k + 1) ltac:(lia)).
      destruct (nextPlayerLoop gameState turns ((cur + (k + 1)) mod P)) as [index|].
      * destruct IH as (d & Hd & Hindex & Hfree' & Hfull).
        exists d. repeat split; try lia; try assumption.
        intros j Hj. destruct (Z.eq_dec j k) as [->|Hne]; [exact Hfree|].
        apply Hfull. lia.
      * intros j Hj. destruct (Z.eq_dec j k) as [->|Hne]; [exact Hfree|].
        apply IH. lia.
Qed.

(** X24.  [advanceToNextPlayer] changes nothing but the player whose turn it
    is.  That player stays while he or she has bowls left in the current
    end; else the turn passes to the next player, in the order of the
    positions and from the last back to the first, who has bowls left,
    and stays when nobody has.  The index stays within the team. *)
Theorem advanceToNextPlayer_turn :
  forall gameState,
    let P := GameState.playersPerTeam gameState in
    let B := GameState.bowlsPerPlayer gameState in
    let cur := GameState.currentPlayerIndex gameState in
    let gameState' := advanceToNextPlayer gameState in
    let next := GameState.currentPlayerIndex gameState' in
    0 <= cur < P ->
    (GameState.currentEnd gameState' = GameState.currentEnd gameState /\
     GameState.totalEnds gameState' = GameState.totalEnds gameState /\
     GameState.bowlsPerPlayer gameState' = B /\
     GameState.playersPerTeam gameState' = P /\
     GameState.bowls gameState' = GameState.bowls gameState /\
     GameState.jackPosition gameState' = GameState.jackPosition gameState) /\
    0 <= next < P /\
    (playerBowlsThisEnd gameState cur < B -> next = cur) /\
    (B <= playerBowlsThisEnd gameState cur ->
     (next = cur /\ forall i, 0 <= i < P -> B <= playerBowlsThisEnd gameState i) \/
     (exists d, 1 <= d < P /\ next = (cur + d) mod P /\
                playerBowlsThisEnd gameState next < B /\
                forall j, 1 <= j < d -> B <= playerBowlsThisEnd gameState ((cur + j) mod P))).
Proof.
  intros gameState P B cur gameState' next Hcur.
  assert (Hfirst : Z.rem (cur + 1) P = (cur + 1) mod P)
    by (apply Z.rem_mod_nonneg; lia).
  pose proof (nextPlayerLoop_spec gameState cur Hcur (Z.to_nat P) 1 ltac:(lia)) as Hloop.
  fold P B in Hloop. rewrite Z2Nat.id in Hloop by lia.
  unfold next, gameState', advanceToNextPlayer. cbv zeta. fold P B cur. rewrite Hfirst.
  destruct (B <=? playerBowlsThisEnd gameState cur) eqn:Hfull.
  - apply Z.leb_le in Hfull.
    destruct (nextPlayerLoop gameState (Z.to_nat P) ((cur + 1) mod P)) as [index|].
    + destruct Hloop as (d & Hd & Hindex & Hfree & Hothers).
      cbn [GameState.currentEnd GameState.totalEnds GameState.bowlsPerPlayer
           GameState.playersPerTeam GameState.bowls GameState.jackPosition
           GameState.currentPlayerIndex].
      assert (HdP : d < P).
      { destruct (Z.eq_dec d P) as [->|Hne]; [|lia].
        rewrite Z.add_mod, Z.mod_same, Z.add_0_r, Z.mod_mod, Z.mod_small in Hindex by lia.
        subst index. lia. }
      split; [repeat split|]. split; [|split].
      * subst index. apply Z.mod_pos_bound. lia.
      * intros Hfree'. lia.
      * intros _. right. exists d. repeat split; try lia; assumption.
    + split; [repeat split|]. split; [exact Hcur|]. split; [reflexivity|].
      intros _. left. split; [reflexivity|]. intros i Hi.
      destruct (Z.eq_dec i cur) as [->|Hne]; [exact Hfull|].
      assert (Hi' : i = (cur + (i - cur) mod P) mod P).
      { rewrite Zplus_mod_idemp_r. replace (cur + (i - cur)) with i by lia.
        symmetry. apply Z.mod_small. lia. }
      rewrite Hi'. apply Hloop.
      pose proof (Z.mod_pos_bound (i - cur) P ltac:(lia)) as Hbound.
      assert (Hnz : (i - cur) mod P <> 0).
      { intros Hz. rewrite Hz, Z.add_0_r, Z.mod_small in Hi' by lia. contradiction. }
      lia.
  - apply Z.leb_gt in Hfull.
    split; [repeat split|]. split; [exact Hcur|]. split; [reflexivity|]. lia.
Qed.

Lemma advanceToNextPlayer_turn_witness :
  GameState.currentPlayerIndex (advanceToNextPlayer sampleGameState) = 1 /\
  0 <= GameState.currentPlayerIndex (advanceToNextPlayer sampleGameState) < 3.
Proof.
  split; [reflexivity|].
  destruct (advanceToNextPlayer_turn sampleGameState) as (_ & Hrange & _).
  - cbn. lia.
  - exact Hrange.
Defined.

(** X25.  However often [nextEnd] is called, the current end never passes the
    last end: from an end that is not past the last one, [n] calls move
    it [n] ends on or to the last end, whichever comes first; the
    recorded bowls are untouched, and once the last end is reached every
    call shows the dialog of the end of the game and changes nothing. *)
Theorem nextEnd_iterated :
  forall gameState n,
    GameState.currentEnd gameState <= GameState.totalEnds gameState ->
    let gameState' := Nat.iter n (fun s => fst (nextEnd s)) gameState in
    GameState.currentEnd gameState' =
      Z.min (GameState.currentEnd gameState + Z.of_nat n) (GameState.totalEnds gameState) /\
    GameState.totalEnds gameState' = GameState.totalEnds gameState /\
    GameState.bowls gameState' = GameState.bowls gameState /\
    (GameState.currentEnd gameState' = GameState.totalEnds gameState ->
     nextEnd gameState' = (gameState', true)).
Proof.
  intros gameState n Hle. cbv zeta.
  induction n as [|n (IHcur & IHtotal & IHbowls & _)].
  - change (Nat.iter 0 (fun s => fst (nextEnd s)) gameState) with gameState.
    repeat split; [lia|].
    intros Hlast. unfold nextEnd. rewrite Hlast, Z.leb_refl. reflexivity.
  - rewrite Nat.iter_succ. set (s := Nat.iter n _ gameState) in *.
    destruct (GameState.totalEnds s <=? GameState.currentEnd s) eqn:Hend.
    + assert (Hs : fst (nextEnd s) = s) by (unfold nextEnd; now rewrite Hend).
      rewrite Hs. apply Z.leb_le in Hend. repeat split; try assumption; [lia|].
      intros _. unfold nextEnd. apply Z.leb_le in Hend. now rewrite Hend.
    + assert (Hs : fst (nextEnd s) =
                   GameState.mk (GameState.currentEnd s + 1) (GameState.totalEnds s) 0
                     (GameState.bowlsPerPlayer s) (GameState.playersPerTeam s)
                     (GameState.bowls s) (Some (250 # 1, 250 # 1)%Q))
        by (unfold nextEnd; now rewrite Hend).
      rewrite Hs. apply Z.leb_gt in Hend.
      cbn [GameState.currentEnd GameState.totalEnds GameState.bowls].
      repeat split; try assumption; [lia|].
      intros Hlast. unfold nextEnd.
      cbn [GameState.currentEnd GameState.totalEnds].
      assert (Hfull : (GameState.totalEnds s <=? GameState.currentEnd s + 1) = true)
        by (apply Z.leb_le; lia).
      now rewrite Hfull.
Qed.

Lemma nextEnd_iterated_witness :
  GameState.currentEnd (Nat.iter 20 (fun s => fst (nextEnd s)) sampleGameState) = 18.
Proof.
  destruct (nextEnd_iterated sampleGameState 20 ltac:(cbn; lia)) as [Hcur _].
  exact Hcur.
Defined.

(** ** The dashboard of a player in one game *)

Lemma filter_comm {A} (f g : A -> bool) l :
  List.filter f (List.filter g l) = List.filter g (List.filter f l).
Proof.
  induction l as [|x r IH]; [reflexivity|].
  cbn [List.filter]. destruct (f x) eqn:Hf, (g x) eqn:Hg; cbn [List.filter];
    rewrite ?Hf, ?Hg, IH; reflexivity.
Qed.

Lemma playerBowlsOf_game p gid allBowls :
  gid <> "" ->
  playerBowlsOf p (JVal gid) allBowls =
  List.filter (fun b => String.eqb (Bowl.gameId b) gid) (playerBowlsOf p JUndefined allBowls).
Proof.
  intros Hgid. unfold playerBowlsOf. cbn [filterByGame].
  unfold falsy, falsy_string. apply String.eqb_neq in Hgid. rewrite Hgid.
  apply filter_comm.
Qed.

Lemma uniq_constant l k : l <> [] -> (forall x, In x l -> x = k) -> uniq l = [k].
Proof.
  intros Hne Hall.
  pose proof (firstsOf_same_key (fun s : string => s) l k Hall) as Hlen.
  rewrite <- uniq_firstsOf in Hlen.
  destruct l as [|x r]; [contradiction|].
  assert (Hx : In x (uniq (x :: r))) by (apply uniq_In; now left).
  destruct (uniq (x :: r)) as [|y [|z t]]; [destruct Hx| |cbn in Hlen; lia].
  destruct Hx as [->|[]]. f_equal. apply Hall. now left.
Qed.

(** X26.  With a game selected, the dashboard shows the statistics of the
    player's bowls in that game only: none when the player has no bowl
    of the team ['yours'] in it, else statistics with one game played
    whose number of bowls is the [bowlCount] of that game in the
    player's overall [gamePerformance]; when no bowl of the game has a
    [null] score, the average of the game's scored bowls is that
    entry's average, and the average shown is it rounded to two
    decimals.  The call is supposed not to be answered from the
    cache. *)
Theorem applyPlayerFilters_one_game :
  forall playerName gameId cache allBowls allGames,
    gameId <> "all" -> gameId <> "" ->
    cache !! cacheKey playerName (JVal gameId) = None ->
    let playerBowls := playerBowlsOf playerName JUndefined allBowls in
    let gameBowls := List.filter (fun b => String.eqb (Bowl.gameId b) gameId) playerBowls in
    let overall := statsOf playerName playerBowls allGames in
    match fst (applyPlayerFilters playerName gameId cache allBowls allGames) with
    | None => gameBowls = []
    | Some s =>
        gameBowls <> [] /\
        s = statsOf playerName gameBowls allGames /\
        Stats.gamesPlayed s = 1%nat /\
        exists entry,
          In entry (Stats.gamePerformance overall) /\
          GamePerf.gameId entry = gameId /\
          GamePerf.bowlCount entry = Stats.totalBowls s /\
          ((forall b, In b gameBowls -> Bowl.score b <> JNull) ->
           avgScoreOf (scoredBowlsOf gameBowls) = GamePerf.avgScore entry /\
           rounded2 (GamePerf.avgScore entry) (Stats.avgScore s))
    end.
Proof.
  intros playerName gameId cache allBowls allGames Hall Hgid Hmiss playerBowls gameBowls overall.
  unfold applyPlayerFilters. apply String.eqb_neq in Hall. rewrite Hall. cbn [negb].
  rewrite getPlayerStats_miss by exact Hmiss.
  rewrite playerBowlsOf_game by exact Hgid. fold playerBowls gameBowls.
  destruct gameBowls as [|b0 r] eqn:Hbowls; [reflexivity|].
  cbn [fst]. rewrite <- Hbowls.
  assert (Hne : gameBowls <> []) by (rewrite Hbowls; discriminate).
  assert (Hgame : forall b, In b gameBowls -> Bowl.gameId b = gameId).
  { intros b Hb. apply filter_In in Hb as [_ Hb]. now apply String.eqb_eq. }
  split; [exact Hne|]. split; [reflexivity|]. split.
  - cbn [statsOf Stats.gamesPlayed]. unfold gameIdsOf.
    rewrite (uniq_constant _ gameId); [reflexivity| |].
    + intros Hnil. apply map_eq_nil in Hnil. contradiction.
    + intros x Hx. apply in_map_iff in Hx as [b [<- Hb]]. now apply Hgame.
  - exists (gamePerfOf playerBowls allGames (gameIdsOf playerBowls) gameId).
    split; [|split; [reflexivity|split; [reflexivity|]]].
    + unfold overall. cbn [statsOf Stats.gamePerformance].
      apply (Permutation_in _ (Permutation_sym (gamePerformanceOf_perm _ _ _))).
      apply in_map. unfold gameIdsOf. apply uniq_In. apply in_map_iff.
      exists b0. assert (Hb0 : In b0 gameBowls) by (rewrite Hbowls; now left).
      split; [now apply Hgame|]. now apply filter_In in Hb0 as [Hb0 _].
    + intros Hnonull.
      assert (Hsame : avgScoreOf (scoredBowlsOf gameBowls) =
                      GamePerf.avgScore
                        (gamePerfOf playerBowls allGames (gameIdsOf playerBowls) gameId)).
      { cbn [gamePerfOf GamePerf.avgScore].
        unfold avgScoreOf, scoredBowlsOf. fold gameBowls. f_equal.
        apply filter_ext_in. intros b Hb. specialize (Hnonull b Hb).
        now destruct (Bowl.score b). }
      split; [exact Hsame|].
      rewrite <- Hsame. cbn [statsOf Stats.avgScore]. apply round2_rounded2.
Qed.

Lemma applyPlayerFilters_one_game_witness :
  match fst (applyPlayerFilters "Ann" "g2" ∅ sampleBowls sampleGames) with
  | None => False
  | Some s => Stats.gamesPlayed s = 1%nat /\ Stats.totalBowls s = 1%nat
  end.
Proof.
  pose proof (applyPlayerFilters_one_game "Ann" "g2" ∅ sampleBowls sampleGames) as H.
  specialize (H ltac:(discriminate) ltac:(discriminate) (lookup_empty _)).
  cbv zeta in H.
  destruct (fst (applyPlayerFilters "Ann" "g2" ∅ sampleBowls sampleGames)) as [s|].
  - destruct H as (_ & -> & Hgames & _). split; [exact Hgames|reflexivity].
  - vm_compute in H. discriminate.
Defined.

(** ** The tournament export against the game history *)

Lemma fold_left_ext_in {A B} (f g : A -> B -> A) l :
  (forall a b, In b l -> f a b = g a b) -> forall a, fold_left f l a = fold_left g l a.
Proof.
  induction l as [|x r IH]; intros Hfg a; [reflexivity|].
  cbn [fold_left]. rewrite (Hfg a x) by now left.
  apply IH. intros a' b Hb. apply Hfg. now right.
Qed.

Lemma fold_left_map_list {A B C} (f : A -> C -> A) (h : B -> C) l : forall a,
  fold_left f (map h l) a = fold_left (fun a b => f a (h b)) l a.
Proof. induction l as [|x r IH]; intros a; [reflexivity|]. cbn [map fold_left]. apply IH. Qed.

(** X27.  For the bowls of a game that carry a [playerId] and whose [score] is
    defined whenever [scoreValue] is, as every bowl stored by the app
    is, [exportTournamentSummary] computes the figures that
    [getGameSummaries] shows in the game history: the same top
    performer, and the team average and the top average that the
    history shows rounded to two decimals. *)
Theorem exportTournamentSummary_agrees :
  forall allBowls game,
    (forall b, In b allBowls ->
               Bowl.gameId (BowlRow.bowl b) = Game.id game ->
               Bowl.team (BowlRow.bowl b) = "yours" ->
               Bowl.playerId (BowlRow.bowl b) <> "" /\
               (Bowl.score (BowlRow.bowl b) = JUndefined ->
                Bowl.scoreValue (BowlRow.bowl b) = JUndefined)) ->
    let summary := summaryOf (map BowlRow.bowl allBowls) game in
    let figures := exportFiguresOf allBowls game in
    rounded2 (fst (fst figures)) (Summary.avgScore summary) /\
    Summary.topPerformer summary = snd (fst figures) /\
    rounded2 (snd figures) (Summary.topAvg summary).
Proof.
  intros allBowls game Hstored summary figures.
  unfold summary, figures, summaryOf, exportFiguresOf.
  cbn [Summary.avgScore Summary.topPerformer Summary.topAvg fst snd].
  rewrite !filter_map_comm. cbv beta.
  set (yourBowls :=
         List.filter (fun b => String.eqb (Bowl.team (BowlRow.bowl b)) "yours")
           (List.filter (fun b => String.eqb (Bowl.gameId (BowlRow.bowl b)) (Game.id game))
              allBowls)).
  assert (Hyour : forall b, In b yourBowls ->
            Bowl.playerId (BowlRow.bowl b) <> "" /\
            (Bowl.score (BowlRow.bowl b) = JUndefined ->
             Bowl.scoreValue (BowlRow.bowl b) = JUndefined)).
  { intros b Hb. apply filter_In in Hb as [Hb Hteam]. apply filter_In in Hb as [Hb Hgame].
    apply String.eqb_eq in Hteam, Hgame. now apply Hstored. }
  assert (Hscores :
            playerScoresOf (map BowlRow.bowl yourBowls) =
            groupFold (fun b => nameKey (jsor (JVal (Bowl.playerId (BowlRow.bowl b)))
                                       (BowlRow.playerName b)))
              (fun _ => PlayerScore.mk 0 0)
              (fun b d => PlayerScore.mk (PlayerScore.total d + scoreOr0 (BowlRow.bowl b))
                            (S (PlayerScore.count d)))
              yourBowls).
  { unfold playerScoresOf, groupFold. rewrite fold_left_map_list.
    apply fold_left_ext_in. intros o b Hb.
    destruct (Hyour b Hb) as [Hid _].
    assert (Hkey : nameKey (jsor (JVal (Bowl.playerId (BowlRow.bowl b)))
                              (BowlRow.playerName b)) = Bowl.playerId (BowlRow.bowl b)).
    { unfold jsor. cbn [truthy]. unfold falsy, falsy_string.
      apply String.eqb_neq in Hid. now rewrite Hid. }
    now rewrite Hkey. }
  rewrite Hscores. split; [|split; [reflexivity|apply round2_rounded2]].
  assert (Hscored :
            List.filter (fun b => defined (Bowl.score (BowlRow.bowl b))) yourBowls =
            List.filter (fun b => defined (Bowl.score (BowlRow.bowl b))
                                  || defined (Bowl.scoreValue (BowlRow.bowl b))) yourBowls).
  { apply filter_ext_in. intros b Hb. destruct (Hyour b Hb) as [_ Hscore].
    destruct (Bowl.score (BowlRow.bowl b)); try reflexivity.
    now rewrite Hscore. }
  rewrite Hscored. apply round2_rounded2.
Qed.

Lemma exportTournamentSummary_agrees_witness :
  Summary.topPerformer (summaryOf sampleBowls (sampleGame "g1" 21 1000)) =
  snd (fst (exportFiguresOf (map sampleRow sampleBowls) (sampleGame "g1" 21 1000))).
Proof.
  refine (proj1 (proj2 (exportTournamentSummary_agrees (map sampleRow sampleBowls)
                          (sampleGame "g1" 21 1000) _))).
  intros b Hb _ _. vm_compute in Hb.
  destruct Hb as [<-|[<-|[<-|[<-|[<-|[]]]]]]; split; discriminate.
Defined.

(** ** Which bowls are scored *)

Lemma JsObj_get_In {V} k (v : V) o : JsObj.get k o = Some v -> In (k, v) o.
Proof.
  induction o as [|[k0 v0] r IH]; cbn [JsObj.get]; [discriminate|].
  destruct (String.eqb_spec k k0) as [->|_].
  - intros [= ->]. now left.
  - intros Hr. right. now apply IH.
Qed.

Lemma calculateFrontEndScore_range rc dc : 0 <= calculateFrontEndScore rc dc <= 4.
Proof.
  unfold calculateFrontEndScore. cbv zeta.
  destruct (JsObj.get _ scoringTable) as [score|] eqn:Hget; [|lia].
  apply JsObj_get_In in Hget.
  assert (Hall : Forall (fun kv => 0 <= snd kv <= 4) scoringTable)
    by (repeat constructor; cbn; lia).
  pose proof (proj1 (List.Forall_forall _ _) Hall _ Hget) as Hscore. cbn [snd] in Hscore.
  destruct (falsy score); lia.
Qed.

(** X28.  Of a new bowl, [handleCanvasClick] and [confirmOnRink] score only
    one of the own team played by the lead or the second: in every
    format of [startGame], for every player of the team, the bowl gets
    the score of the table for its place when the player is the first of
    at least two or the second of at least three, and else keeps the
    score 0 without category, as every bowl of a singles game and of a
    skip does, and every bowl of the opponent.  The score is a whole
    number from 0 to 4. *)
Theorem scoreNewBowl_front_end :
  forall numberOfEnds format bowls players ends currentTeam index resultCategory distanceCategory,
    JsObj.get format (formatMap numberOfEnds) = Some (bowls, players, ends) ->
    0 <= index < players ->
    let scored := scoreNewBowl format currentTeam index resultCategory distanceCategory in
    (if String.eqb currentTeam "yours"
        && (((index =? 0) && (2 <=? players)) || ((index =? 1) && (3 <=? players)))
     then scored = (resultCategory, distanceCategory,
                    calculateFrontEndScore resultCategory distanceCategory)
     else scored = ("", "", 0)) /\
    0 <= snd scored <= 4.
Proof.
  intros numberOfEnds format bowls players ends currentTeam index resultCategory
    distanceCategory Hformat Hindex scored.
  split.
  - unfold scored, scoreNewBowl.
    destruct (String.eqb currentTeam "yours"); [|reflexivity]. cbn [andb].
    apply JsObj_get_In in Hformat.
    destruct Hformat as [H|[H|[H|[H|[H|[H|[]]]]]]]; inversion H; subst; clear H;
      cbn [JsObj.get positionsByFormat String.eqb Ascii.eqb Bool.eqb];
      (assert (Hcases : index = 0 \/ index = 1 \/ index = 2 \/ index = 3) by lia;
       destruct Hcases as [-> | [-> | [-> | ->]]]; try lia; reflexivity).
  - unfold scored, scoreNewBowl.
    pose proof (calculateFrontEndScore_range resultCategory distanceCategory).
    destruct (String.eqb currentTeam "yours"); [|cbn; lia].
    cbv zeta. destruct (match _ with Some _ => _ | None => false end); cbn [snd]; lia.
Qed.

Lemma scoreNewBowl_front_end_witness :
  scoreNewBowl "fours" "yours" 3 "Past" "< 0.5 ft" = ("", "", 0) /\
  scoreNewBowl "fours" "yours" 1 "Past" "< 0.5 ft" = ("Past", "< 0.5 ft", 4).
Proof.
  split; [|reflexivity].
  exact (proj1 (scoreNewBowl_front_end 21 "fours" 2 4 21 "yours" 3 "Past" "< 0.5 ft"
                  eq_refl ltac:(lia))).
Defined.

(** ** The drill-down against the game history *)

Lemma insert_by_map {A B} (h : A -> B) (le : A -> A -> bool) (le' : B -> B -> bool) x l :
  (forall a b, le' (h a) (h b) = le a b) ->
  insert_by le' (h x) (map h l) = map h (insert_by le x l).
Proof.
  intros Hle. induction l as [|y r IH]; [reflexivity|].
  cbn [map insert_by]. rewrite Hle. destruct (le x y); [reflexivity|].
  cbn [map]. now rewrite IH.
Qed.

Lemma sort_by_map {A B} (h : A -> B) (le : A -> A -> bool) (le' : B -> B -> bool) l :
  (forall a b, le' (h a) (h b) = le a b) ->
  sort_by le' (map h l) = map h (sort_by le l).
Proof.
  intros Hle. induction l as [|x r IH]; [reflexivity|].
  cbn [map sort_by fold_right]. fold (sort_by le' (map h r)) (sort_by le r).
  rewrite IH. now apply insert_by_map.
Qed.

(** [Object.entries] lists two objects with the same keys in the same
    order. *)
Lemma JsObj_entries_map {V W} (f : V -> W) (o : JsObj.t V) :
  JsObj.entries (map (fun kv => (fst kv, f (snd kv))) o) =
  map (fun kv => (fst kv, f (snd kv))) (JsObj.entries o).
Proof.
  unfold JsObj.entries. rewrite map_app. f_equal.
  - assert (Hidx : JsObj.indexed (map (fun kv => (fst kv, f (snd kv))) o) =
                   map (fun nkv => (fst nkv, (fst (snd nkv), f (snd (snd nkv)))))
                     (JsObj.indexed o)).
    { unfold JsObj.indexed. induction o as [|kv r IH]; [reflexivity|].
      cbn [map flat_map fst]. rewrite IH.
      destruct (JsObj.arrayIndex (fst kv)); reflexivity. }
    rewrite Hidx, (sort_by_map _ (fun x y => (fst x <=? fst y)%N)) by reflexivity.
    rewrite !map_map. reflexivity.
  - unfold JsObj.named. induction o as [|kv r IH]; [reflexivity|].
    cbn [map List.filter fst]. rewrite IH.
    destruct (JsObj.arrayIndex (fst kv)); reflexivity.
Qed.

Lemma bowlName_playerId b :
  Bowl.playerId (BowlRow.bowl b) <> "" ->
  nameKey (bowlName b) = Bowl.playerId (BowlRow.bowl b).
Proof.
  intros Hid. apply String.eqb_neq in Hid.
  assert (Hinner : jsor (JVal (Bowl.playerId (BowlRow.bowl b))) (BowlRow.playerName b)
                   = JVal (Bowl.playerId (BowlRow.bowl b))).
  { unfold jsor. cbn [truthy]. unfold falsy, falsy_string. now rewrite Hid. }
  unfold bowlName. rewrite Hinner. unfold jsor. cbn [truthy].
  unfold falsy, falsy_string. now rewrite Hid.
Qed.

(** The players of the game history are the cards of the drill-down. *)
Lemma playerScoresOf_breakdown yourBowls playerBreakdown :
  (forall b, In b yourBowls -> Bowl.playerId (BowlRow.bowl b) <> "") ->
  breakdownOf yourBowls = Some playerBreakdown ->
  playerScoresOf (map BowlRow.bowl yourBowls) =
  map (fun kv => (fst kv, PlayerScore.mk (PlayerBreakdown.total (snd kv))
                            (PlayerBreakdown.count (snd kv)))) playerBreakdown.
Proof.
  intros Hid Hbreak. apply breakdownOf_entries in Hbreak as [Hplain ->].
  transitivity
    (groupFold (fun b => nameKey (bowlName b)) (fun _ => PlayerScore.mk 0 0)
       (fun b d => PlayerScore.mk (PlayerScore.total d + scoreOr0 (BowlRow.bowl b))
                     (S (PlayerScore.count d))) yourBowls).
  - unfold playerScoresOf, groupFold. rewrite fold_left_map_list.
    apply fold_left_ext_in. intros o b Hb. now rewrite (bowlName_playerId b (Hid b Hb)).
  - rewrite groupFold_groupsBy, (ownKeyed_all _ yourBowls Hplain).
    unfold groupsBy. rewrite map_map. apply map_ext. intros b0.
    cbv zeta. cbn [fst snd PlayerBreakdown.total PlayerBreakdown.count].
    f_equal.
    set (group := List.filter _ yourBowls).
    assert (Hfold : forall total count,
              fold_left (fun v b => PlayerScore.mk
                                      (PlayerScore.total v + scoreOr0 (BowlRow.bowl b))
                                      (S (PlayerScore.count v)))
                group (PlayerScore.mk total count) =
              PlayerScore.mk
                (total + fold_left Z.add (map (fun b => scoreOr0 (BowlRow.bowl b)) group) 0)
                (count + length group)).
    { induction group as [|b r IH]; intros total count; cbn [fold_left map length].
      - f_equal; lia.
      - rewrite IH. cbn [PlayerScore.total PlayerScore.count].
        rewrite (fold_left_add_init _ (0 + scoreOr0 (BowlRow.bowl b))). f_equal; lia. }
    now rewrite Hfold.
Qed.

Lemma filter_all {A} (f : A -> bool) l : (forall a, In a l -> f a = true) -> List.filter f l = l.
Proof.
  induction l as [|x r IH]; intros Hall; [reflexivity|].
  cbn [List.filter]. rewrite (Hall x) by now left.
  f_equal. apply IH. intros a Ha. apply Hall. now right.
Qed.

(** X29.  For the bowls of a game that carry a [playerId], the top performer
    that the game history shows is a player of the cards of the
    drill-down: the first card, in the order of the cards, whose average
    is the highest, when that average is above 0, the history showing
    that average rounded to two decimals; the history shows no top
    performer when no card has an average above 0. *)
Theorem showGameDrillDown_topPerformer :
  forall game bowls d,
    (forall b, In b bowls ->
               Bowl.gameId (BowlRow.bowl b) = Game.id (GameRow.game game) /\
               Bowl.playerId (BowlRow.bowl b) <> "") ->
    showGameDrillDown (Some game) bowls = Rendered d ->
    let s := summaryOf (map BowlRow.bowl bowls) (GameRow.game game) in
    let avg := fun card : string * nat * Q => snd card in
    ((forall card, In card (DrillDown.cards d) -> (avg card <= 0)%Q) /\
     Summary.topPerformer s = "" /\ Summary.topAvg s == 0) \/
    (exists before top after,
        DrillDown.cards d = before ++ top :: after /\
        Summary.topPerformer s = fst (fst top) /\
        rounded2 (avg top) (Summary.topAvg s) /\
        (0 < avg top)%Q /\
        (forall card, In card before -> (avg card < avg top)%Q) /\
        (forall card, In card after -> (avg card <= avg top)%Q)).
Proof.
  intros game bowls d Hstored Hcall s avg. cbn [showGameDrillDown] in Hcall.
  set (yourBowls := List.filter (fun b => String.eqb (Bowl.team (BowlRow.bowl b)) "yours")
                      bowls) in *.
  destruct (breakdownOf yourBowls) as [playerBreakdown|] eqn:Hbreak; [|discriminate].
  injection Hcall as <-. cbn [DrillDown.cards].
  set (toScore := fun kv : string * PlayerBreakdown.t =>
                    (fst kv, PlayerScore.mk (PlayerBreakdown.total (snd kv))
                               (PlayerBreakdown.count (snd kv)))).
  assert (Hscores : playerScoresOf (map BowlRow.bowl yourBowls) = map toScore playerBreakdown).
  { apply playerScoresOf_breakdown; [|exact Hbreak].
    intros b Hb. apply filter_In in Hb as [Hb _]. now apply Hstored. }
  assert (Hyour : List.filter (fun b => String.eqb (Bowl.team b) "yours")
                    (List.filter (fun b => String.eqb (Bowl.gameId b)
                                             (Game.id (GameRow.game game)))
                       (map BowlRow.bowl bowls)) = map BowlRow.bowl yourBowls).
  { rewrite !filter_map_comm. cbv beta.
    now rewrite (filter_all _ bowls)
      by (intros b Hb; apply String.eqb_eq; now apply Hstored). }
  assert (Hperformer : Summary.topPerformer s =
                       fst (topPerformerOf (map toScore playerBreakdown))).
  { unfold s, summaryOf. cbn [Summary.topPerformer]. now rewrite Hyour, Hscores. }
  assert (Havg : Summary.topAvg s =
                 round2 (snd (topPerformerOf (map toScore playerBreakdown)))).
  { unfold s, summaryOf. cbn [Summary.topAvg]. now rewrite Hyour, Hscores. }
  rewrite Hperformer, Havg.
  assert (Hentries : JsObj.entries (map toScore playerBreakdown) =
                     map toScore (JsObj.entries playerBreakdown))
    by exact (JsObj_entries_map
                (fun data => PlayerScore.mk (PlayerBreakdown.total data)
                               (PlayerBreakdown.count data)) playerBreakdown).
  unfold topPerformerOf. rewrite Hentries.
  set (entries := JsObj.entries playerBreakdown).
  assert (Hcount : forall e, In e entries ->
                             playerAvg (snd (toScore e)) = avg (cardOf e)).
  { intros e He. apply (Permutation_in _ (JsObj_entries_perm _)) in He.
    apply breakdownOf_entries in Hbreak as [_ Hpb]. rewrite Hpb in He.
    apply in_map_iff in He as [b0 [<- Hb0]]. cbv zeta.
    unfold playerAvg, cardOf, avg, toScore.
    cbn [fst snd PlayerBreakdown.total PlayerBreakdown.count PlayerScore.total
         PlayerScore.count].
    set (group := List.filter _ yourBowls).
    assert (Hgroup : In b0 group).
    { apply filter_In. split; [now apply firstsOf_In in Hb0|apply String.eqb_refl]. }
    destruct group; [destruct Hgroup|reflexivity]. }
  destruct (topPerformer_fold (map toScore entries) ("", 0%Q))
    as [[Hall Hres]|(before & top & after & Hsplit & Hres & Hlt & Hbefore & Hafter)].
  - left. cbv zeta in Hres. rewrite Hres. cbn [fst snd] in *.
    split; [|split; reflexivity].
    intros card Hcard. apply in_map_iff in Hcard as [e [<- He]].
    rewrite <- (Hcount e He). apply Hall. now apply in_map.
  - right. cbv zeta in Hres. rewrite Hres. cbn [fst snd] in *.
    apply map_eq_app in Hsplit as (entries1 & rest & Hparts & Hmap1 & Hmap2).
    apply map_eq_cons in Hmap2 as (e & entries2 & -> & He & Hmap2).
    subst before top after.
    assert (Hin : forall x, In x (entries1 ++ e :: entries2) -> In x entries)
      by (intros x Hx; now rewrite Hparts).
    assert (Hetop : playerAvg (snd (toScore e)) = avg (cardOf e))
      by (apply Hcount, Hin, in_elt).
    exists (map cardOf entries1), (cardOf e), (map cardOf entries2).
    split; [now rewrite Hparts, map_app|].
    split; [reflexivity|]. split; [rewrite Hetop; apply round2_rounded2|].
    split; [now rewrite <- Hetop|].
    split.
    + intros card Hcard. apply in_map_iff in Hcard as [x [<- Hx]].
      rewrite <- Hetop, <- (Hcount x) by (apply Hin, in_or_app; now left).
      apply Hbefore. now apply in_map.
    + intros card Hcard. apply in_map_iff in Hcard as [x [<- Hx]].
      rewrite <- Hetop, <- (Hcount x) by (apply Hin, in_or_app; right; now right).
      apply Hafter. now apply in_map.
Qed.

Lemma showGameDrillDown_topPerformer_witness :
  exists d,
    showGameDrillDown (Some sampleGameRow) sampleGameRows = Rendered d /\
    (((forall card, In card (DrillDown.cards d) -> (snd card <= 0)%Q) /\
      Summary.topPerformer
        (summaryOf (map BowlRow.bowl sampleGameRows) (GameRow.game sampleGameRow)) = "" /\
      Summary.topAvg
        (summaryOf (map BowlRow.bowl sampleGameRows) (GameRow.game sampleGameRow)) == 0) \/
     (exists before top after,
         DrillDown.cards d = before ++ top :: after /\
         Summary.topPerformer
           (summaryOf (map BowlRow.bowl sampleGameRows) (GameRow.game sampleGameRow))
         = fst (fst top) /\
         rounded2 (snd top)
           (Summary.topAvg
              (summaryOf (map BowlRow.bowl sampleGameRows) (GameRow.game sampleGameRow))) /\
         (0 < snd top)%Q /\
         (forall card, In card before -> (snd card < snd top)%Q) /\
         (forall card, In card after -> (snd card <= snd top)%Q))).
Proof.
  eexists. split; [vm_compute; reflexivity|].
  apply (showGameDrillDown_topPerformer sampleGameRow sampleGameRows).
  - intros b Hb. vm_compute in Hb.
    destruct Hb as [<-|[<-|[<-|[<-|[]]]]]; split; (reflexivity || discriminate).
  - vm_compute. reflexivity.
Defined.

(** ** The game of the form indicators *)

Lemma StronglySorted_snoc {A} (R : A -> A -> Prop) l x :
  StronglySorted R (l ++ [x]) -> forall y, In y l -> R y x.
Proof.
  induction l as [|a r IH]; intros Hsorted y Hy; [destruct Hy|].
  cbn [app] in Hsorted. apply StronglySorted_inv in Hsorted as [Hsorted Hall].
  destruct Hy as [<-|Hy]; [|now apply IH].
  apply (proj1 (List.Forall_forall _ _) Hall). apply in_or_app. right. now left.
Qed.

(** X30.  When every game the player has a bowl in is on record with a date
    that parses, the game whose average the form indicators compare with
    the overall average is a game of the latest date among the player's
    games, and the average taken is the mean of the player's bowls of
    that game whose [score] is not [undefined]. *)
Theorem recentAvg_latest_game :
  forall playerName playerBowls allGames,
    playerBowls <> [] ->
    (forall b, In b playerBowls ->
               exists g t, findGame allGames (Bowl.gameId b) = Some g /\ Game.date g = Some t) ->
    let s := statsOf playerName playerBowls allGames in
    exists recent t,
      In recent (Stats.gamePerformance s) /\
      GamePerf.date recent = Some t /\
      recentAvg s = GamePerf.avgScore recent /\
      GamePerf.avgScore recent =
        meanScore (List.filter (fun b => defined (Bowl.score b))
                     (List.filter (fun b => String.eqb (Bowl.gameId b) (GamePerf.gameId recent))
                        playerBowls)) /\
      forall g t', In g (Stats.gamePerformance s) -> GamePerf.date g = Some t' -> t' <= t.
Proof.
  intros playerName playerBowls allGames Hne Hrecord s.
  unfold s, recentAvg. cbn [statsOf Stats.gamePerformance].
  set (gameIds := gameIdsOf playerBowls).
  pose proof (gamePerformanceOf_perm playerBowls allGames gameIds) as Hperm.
  assert (Hsorted : StronglySorted
                      (fun a b => exists x y, GamePerf.date a = Some x /\
                                              GamePerf.date b = Some y /\ x <= y)
                      (gamePerformanceOf playerBowls allGames gameIds)).
  { apply (js_sort_date_ascending GamePerf.date).
    intros g Hg. apply in_map_iff in Hg as [gid [<- Hgid]].
    unfold gameIds, gameIdsOf in Hgid. apply (proj1 (uniq_In _ _)) in Hgid.
    apply in_map_iff in Hgid as [b [<- Hb]].
    destruct (Hrecord b Hb) as (game & t & Hfind & Hdate).
    cbn [gamePerfOf GamePerf.date]. now rewrite Hfind, Hdate. }
  assert (Hlen : length (gamePerformanceOf playerBowls allGames gameIds) <> 0%nat).
  { rewrite (Permutation_length Hperm), length_map. unfold gameIds, gameIdsOf.
    destruct playerBowls as [|b r]; [contradiction|].
    assert (Hin : In (Bowl.gameId b) (uniq (map Bowl.gameId (b :: r))))
      by (apply uniq_In; now left).
    destruct (uniq _); [destruct Hin|discriminate]. }
  destruct (gamePerformanceOf playerBowls allGames gameIds) as [|g0 games] eqn:Hgames
    using rev_ind; [contradiction|].
  rewrite last_opt_snoc.
  assert (Hin : In g0 (games ++ [g0])) by (apply in_or_app; right; now left).
  assert (Hdate : exists t, GamePerf.date g0 = Some t).
  { apply (Permutation_in _ Hperm) in Hin. apply in_map_iff in Hin as [gid [<- Hgid]].
    unfold gameIds, gameIdsOf in Hgid. apply (proj1 (uniq_In _ _)) in Hgid.
    apply in_map_iff in Hgid as [b [<- Hb]].
    destruct (Hrecord b Hb) as (game & t & Hfind & Hdate).
    exists t. cbn [gamePerfOf GamePerf.date]. now rewrite Hfind. }
  destruct Hdate as [t Hdate]. exists g0, t.
  split; [exact Hin|]. split; [exact Hdate|]. split; [reflexivity|]. split.
  - apply (Permutation_in _ Hperm) in Hin. apply in_map_iff in Hin as [gid [<- _]].
    reflexivity.
  - intros g t' Hg Hgdate. apply in_app_or in Hg as [Hg|[<-|[]]].
    + destruct (StronglySorted_snoc _ _ _ Hsorted g Hg) as (x & y & Hx & Hy & Hxy).
      congruence.
    + assert (t' = t) by congruence. lia.
Qed.

Lemma recentAvg_latest_game_witness :
  exists recent t,
    In recent (Stats.gamePerformance sampleStats) /\
    GamePerf.date recent = Some t /\
    recentAvg sampleStats = GamePerf.avgScore recent.
Proof.
  destruct (recentAvg_latest_game "Ann" (playerBowlsOf "Ann" JUndefined sampleBowls)
              sampleGames) as (recent & t & Hin & Hdate & Havg & _).
  - discriminate.
  - intros b Hb. vm_compute in Hb.
    destruct Hb as [<-|[<-|[<-|[<-|[]]]]]; vm_compute; eauto.
  - exists recent, t. repeat split; assumption.
Defined.
